(** * r.MaxPower: ranking of received powers and persistence of the result

    A shallow embedding of [raster/r.MaxPower/main.c]: the per-point
    top-[cell_num] ranking of the [main] loop, the output-raster pass, and
    the [create_table] / [fill_database] persistence code; then the
    reading of the lines of the cell_input file, [str_in_strlist] and the
    choice of the output, and the parts of [LTE_RaPlaT_Fun.c] that work
    on [int].

    Conventions.
    - Received powers are C [float]s.  The ranking code only copies and
      compares them and the persistence code only subtracts and prints
      them, so a power is an integer here; rounding and not-a-number
      values are outside the model, and so is the overflow of [int].
      The output-raster pass also casts a value to [CELL], which drops
      its fraction: see [f_out].
    - [DB_MIN_VAL] is defined in [common.h], which is not among the files
      modelled; it is a section variable throughout.
    - Library calls (GRASS, the database drivers, [printf]) appear as
      events of a trace or as section variables.
    - The two parallel arrays [arr_power[i][arr_ix]] and
      [arr_index[i][arr_ix]] are always written together; the column of
      one raster point is a list of [entry] records, slot [i] holding
      both values. *)

From Stdlib Require Import ZArith Lia Ascii.
From stdpp Require Import base list strings pretty sorting.

Local Open Scope Z_scope.

(** ** Ranked entries and columns *)

Record entry : Type := Entry { arr_power : Z; arr_index : nat }.

Global Instance entry_inhabited : Inhabited entry := populate (Entry 0 0).

Global Instance entry_eq_dec : EqDecision entry.
Proof. solve_decision. Defined.

(** The [cell_num] slots of one raster point. *)
Abbreviation column := (list entry).

(** [memset] of both arrays to zero, lines 766-775. *)
Definition column_init (cell_num : nat) : column := replicate cell_num (Entry 0 0).

(** The exchange of lines 851-857, on both arrays at once. *)
Definition swap (c : column) (i j : nat) : column :=
  <[j := c !!! i]> (<[i := c !!! j]> c).

(** The sorting loop of lines 847-860:
    [for (i = count_mem; i > 0; i--) if (a[i] > a[i-1]) swap; else break;] *)
Fixpoint bubble (i : nat) (c : column) : column :=
  match i with
  | O => c
  | S j =>
      if arr_power (c !!! S j) >? arr_power (c !!! j)
      then bubble j (swap c (S j) j)
      else c
  end.

(** Lines 828-842: where the reading goes.  [None] is the [continue] of
    line 836; otherwise the updated column and the new [count_mem].
    With [cell_num = 0] line 836 reads [arr_power[-1]], outside the
    array, where [cell_num - 1] is 0 here: the definition is that of
    the code for [1 ≤ cell_num] only. *)
Definition place (cell_num map : nat) (f_in : Z) (count_mem : nat) (c : column)
  : option (column * nat) :=
  if (map <? cell_num)%nat then
    Some (<[map := Entry f_in map]> c, map)
  else if f_in <? arr_power (c !!! (cell_num - 1)%nat) then
    None
  else
    Some (<[(cell_num - 1)%nat := Entry f_in map]> c, count_mem).

(** Lines 845-861: [if (map)] guards the sorting loop. *)
Definition sort_point (map count_mem : nat) (c : column) : column :=
  if (map =? 0)%nat then c else bubble count_mem c.

(** One reading folded into one point: lines 828-861. *)
Definition rank_point (cell_num map : nat) (f_in : Z) (count_mem : nat) (c : column)
  : column * nat :=
  match place cell_num map f_in count_mem c with
  | None => (c, count_mem)
  | Some (c1, cm) => (sort_point map cm c1, cm)
  end.

(** ** Sources and the ingestion loops *)

(** One line of the [cell_input] file together with its raster map: rows
    of path-loss cells, [None] being a null cell. *)
Record source : Type := Source {
  cell_name : string;
  antenna_id : Z;
  Pt : Z;
  model_name : string;
  raster : list (list (option Z))
}.

Section Ranking.

Variable DB_MIN_VAL : Z.

(** Lines 820-821. *)
Definition receive_power (pt : Z) (cell : option Z) : Z :=
  match cell with
  | None => DB_MIN_VAL
  | Some loss => pt - loss
  end.

(** [inrast[col]] after [Rast_get_row (infd, inrast, row)]. *)
Definition inrast (s : source) (row col : nat) : option Z :=
  default None ((raster s !!! row) !! col).

(** The reading of source [s] at one cell. *)
Definition f_in_at (s : source) (row col : nat) : Z :=
  receive_power (Pt s) (inrast s row col).

(** The state the ingestion loops share: the columns of all points,
    indexed by [arr_ix], and the variable [count_mem]. *)
Record rank_state : Type := RankState {
  columns : list column;
  count_mem_of : nat
}.

(** Body of the column loop, lines 816-861, at [arr_ix = row * ncols + col]. *)
Definition ingest_cell (cell_num ncols map : nat) (s : source) (row col : nat)
  (st : rank_state) : rank_state :=
  let arr_ix := (row * ncols + col)%nat in
  let '(c, cm) := rank_point cell_num map (f_in_at s row col)
                    (count_mem_of st) (columns st !!! arr_ix) in
  RankState (<[arr_ix := c]> (columns st)) cm.

(** The row and column loops of lines 809-864. *)
Definition for_rows_cols {St : Type} (nrows ncols : nat)
  (body : nat → nat → St → St) (s : St) : St :=
  foldl (λ s row, foldl (λ s col, body row col s) s (seq 0 ncols))
    s (seq 0 nrows).

Definition ingest_map (cell_num nrows ncols map : nat) (s : source)
  (st : rank_state) : rank_state :=
  for_rows_cols nrows ncols (ingest_cell cell_num ncols map s) st.

(** The map loop of lines 793-869, over sources [map, map+1, ...]. *)
Fixpoint ingest_from (cell_num nrows ncols map : nat) (srcs : list source)
  (st : rank_state) : rank_state :=
  match srcs with
  | [] => st
  | s :: rest =>
      ingest_from cell_num nrows ncols (S map) rest
        (ingest_map cell_num nrows ncols map s st)
  end.

(** Allocation (lines 763-775), [count_mem = 0] (line 786), then the loop. *)
Definition rank_init (cell_num nrows ncols : nat) : rank_state :=
  RankState (replicate (nrows * ncols) (column_init cell_num)) 0.

Definition ingest (cell_num nrows ncols : nat) (srcs : list source) : rank_state :=
  ingest_from cell_num nrows ncols 0 srcs (rank_init cell_num nrows ncols).

End Ranking.

(** ** Effects: the trace of sink operations and fatal errors *)

Inductive sqltype : Type :=
  | DB_SQL_TYPE_UNKNOWN
  | DB_SQL_TYPE_INTEGER
  | DB_SQL_TYPE_CHARACTER
  | DB_SQL_TYPE_REAL.

Record db_column : Type := DbColumn {
  column_name : string;
  column_sqltype : sqltype;
  column_length : nat
}.

(** What the program does to the outside world, in order.  Progress
    reports ([G_percent]) and debug output ([G_debug]) are left out. *)
Inductive event : Type :=
  | Message (text : string)                      (* G_message *)
  | TableDeleted (tbl : string)                  (* db_delete_table *)
  | TableCreated (tbl : string) (cols : list db_column)  (* db_create_table *)
  | RasterOpened (name : string)                 (* Rast_open_new *)
  | RasterRow (cells : list (option Z))          (* Rast_put_row *)
  | RasterClosed                                 (* Rast_close *)
  | TransactionBegun                             (* db_begin_transaction *)
  | TransactionCommitted                         (* db_commit_transaction *)
  | TempFileCreated (path : string)              (* mkstemp, fdopen *)
  | FileOpened (path : string)                   (* fopen (tbl_name, "wb+") *)
  | LineWritten (line : string)                  (* fprintf (csv_fp, "%s\n", ...) *)
  | ExecDrop (sql : string)                      (* db_execute_immediate, line 182 *)
  | ExecInsert (sql : string) (SQLrowcnt : nat)  (* db_execute_immediate, line 398 *)
  | ExecLoad (sql : string)                      (* db_execute_immediate, line 446 *)
  | FileClosed.                                  (* fclose, line 450 *)

(** A run either completes or stops at a [G_fatal_error]. *)
Inductive outcome (A : Type) : Type :=
  | Done (a : A)
  | Fatal (msg : string).
Arguments Done {A} a.
Arguments Fatal {A} msg.

Definition run (A : Type) : Type := (list event * outcome A)%type.

Global Instance run_ret : MRet run := λ A a, ([], Done a).

Global Instance run_bind : MBind run := λ A B f m,
  match m with
  | (t, Done a) => let '(t', r) := f a in (t ++ t', r)
  | (t, Fatal msg) => (t, Fatal msg)
  end.

Definition emit (e : event) : run unit := ([e], Done tt).

Definition emit_all (es : list event) : run unit := (es, Done tt).

Definition G_fatal_error {A : Type} (msg : string) : run A := ([], Fatal msg).

Definition events {A : Type} (r : run A) : list event := r.1.

Definition result {A : Type} (r : run A) : outcome A := r.2.

(** What the sinks look like before the run.  Driver calls are taken to
    succeed; the two existence tests decide between overwrite and abort. *)
Record env : Type := Env {
  table_exists : bool;     (* db_table_exists (...) == 1 *)
  csv_exists : bool;       (* fopen (tbl_name, "r") succeeds *)
  csv_filename : string    (* the name mkstemp makes of "/tmp/fileXXXXXX" *)
}.

(** ** create_table, lines 135-255 *)

Definition db_alloc_table (ncols : nat) : list db_column :=
  replicate ncols (DbColumn EmptyString DB_SQL_TYPE_UNKNOWN 0).

(** One round of the loop of lines 215-242; [c_ix] advances by four. *)
Definition cell_columns (i : nat) (tc : list db_column * nat) : list db_column * nat :=
  let '(t, c_ix) := tc in
  let temp_str1 := pretty i in
  let t := <[c_ix := DbColumn ("cell" +:+ temp_str1) DB_SQL_TYPE_CHARACTER 32]> t in
  let t := <[S c_ix := DbColumn ("id" +:+ temp_str1) DB_SQL_TYPE_INTEGER 6]> t in
  let t := <[S (S c_ix) := DbColumn ("Pr" +:+ temp_str1) DB_SQL_TYPE_REAL 6]> t in
  let t := <[S (S (S c_ix)) := DbColumn ("model" +:+ temp_str1) DB_SQL_TYPE_CHARACTER 128]> t in
  (t, S (S (S (S c_ix)))).

Definition table_columns (cell_num : nat) : list db_column :=
  let ncols_tab := (4 * cell_num + 4)%nat in
  let t := db_alloc_table ncols_tab in
  let t := <[0%nat := DbColumn "x" DB_SQL_TYPE_INTEGER 6]> t in
  let t := <[1%nat := DbColumn "y" DB_SQL_TYPE_INTEGER 6]> t in
  let t := <[2%nat := DbColumn "resolution" DB_SQL_TYPE_INTEGER 4]> t in
  let '(t, _) := foldl (λ tc i, cell_columns i tc) (t, 3%nat) (seq 1 cell_num) in
  <[(ncols_tab - 1)%nat := DbColumn "EcN0" DB_SQL_TYPE_REAL 6]> t.

(** The line feed that starts the message of line 179. *)
Definition newline : string := String (Ascii.ascii_of_nat 10) EmptyString.

Definition create_table (e : env) (drv_name tbl_name : string) (cell_num : nat)
  (ovr : bool) : run unit :=
  (if table_exists e then
     if ovr then emit (TableDeleted tbl_name)
     else G_fatal_error ("Table <" +:+ tbl_name +:+ "> already exists")
   else mret tt) ;;
  (if bool_decide (drv_name = "pg") then
     if ovr then
       emit (Message (newline +:+ "Deleting table <" +:+ tbl_name +:+ "> (if exists)")) ;;
       emit (ExecDrop ("DROP TABLE IF EXISTS " +:+ tbl_name))
     else mret tt
   else mret tt) ;;
  emit (TableCreated tbl_name (table_columns cell_num)).

(** ** fill_database, lines 260-460 *)

(** The double-quote character of the MySQL statement, line 432. *)
Definition dquote : string := String (Ascii.ascii_of_nat 34) EmptyString.

Record strategy : Type := Strategy {
  csv_only : bool;
  csv2db : bool;
  SQLPacketSize : nat
}.

(** Lines 278-302.  With the csv driver [SQLPacketSize] is left unset and
    never read; it is 0 here. *)
Definition select_strategy (drv_name : string) (db_perf : Z) : strategy :=
  let csv_only := bool_decide (drv_name = "csv") in
  let db_perf :=
    if bool_decide (drv_name = "dbf") || bool_decide (drv_name = "sqlite")
    then 1 else db_perf in
  if negb csv_only then
    if (0 <=? db_perf) && (db_perf <? 99)
    then Strategy false false (Z.to_nat db_perf)
    else Strategy false true 1
  else Strategy true true 0.

Global Instance source_inhabited : Inhabited source :=
  populate (Source EmptyString 0 0 EmptyString []).

Record fill_state : Type := FillState {
  sql : string;
  SQLrowcnt : nat;
  written : list event
}.

Section Persistence.

Variable DB_MIN_VAL : Z.

(** [sprintf] with ["%.2f"], from the C library. *)
Variable printf_f2 : Z → string.

(** What [fill_database] is given besides the driver and the mode. *)
Record fill_args : Type := FillArgs {
  fa_tbl_name : string;
  fa_ncols : nat;
  fa_nrows : nat;
  fa_x_start : Z;
  fa_y_start : Z;
  fa_res : Z;
  fa_arr : list column;       (* arr_power and arr_index *)
  fa_srcs : list source;      (* cell_name, antenna_id, model_name *)
  fa_ncells : nat;
  fa_arr_EcNo : list Z;
  fa_ovr : bool
}.

(** Line 379, for the slot [cell - 1] of the point. *)
Definition cell_text (a : fill_args) (c : column) (cell : nat) : string :=
  let arr_ix2 := arr_index (c !!! (cell - 1)%nat) in
  ",'" +:+ cell_name (fa_srcs a !!! arr_ix2) +:+ "',"
    +:+ pretty (antenna_id (fa_srcs a !!! arr_ix2)) +:+ ","
    +:+ printf_f2 (arr_power (c !!! (cell - 1)%nat)) +:+ ",'"
    +:+ model_name (fa_srcs a !!! arr_ix2) +:+ "'".

(** Lines 373-384 appended to the statement under construction. *)
Definition append_record (a : fill_args) (row col : nat) (s : string) : string :=
  let arr_ix := (row * fa_ncols a + col)%nat in
  let x := fa_x_start a + Z.of_nat col * fa_res a in
  let y := fa_y_start a - Z.of_nat row * fa_res a in
  let s := s +:+ (pretty x +:+ "," +:+ pretty y +:+ "," +:+ pretty (fa_res a)) in
  let s := foldl (λ s cell, s +:+ cell_text a (fa_arr a !!! arr_ix) cell) s
             (seq 1 (fa_ncells a)) in
  s +:+ ("," +:+ printf_f2 (fa_arr_EcNo a !!! arr_ix)).

(** Line 356 with [SKIPNULL] set. *)
Definition not_null (a : fill_args) (row col : nat) : bool :=
  negb (arr_power ((fa_arr a !!! (row * fa_ncols a + col)%nat) !!! 0%nat) =? DB_MIN_VAL).

(** Body of the column loop, lines 354-401. *)
Definition fill_cell (g : strategy) (a : fill_args) (row col : nat)
  (fs : fill_state) : fill_state :=
  let fs :=
    if not_null a row col then
      let fs :=
        if negb (csv2db g) then
          FillState
            (if (SQLrowcnt fs =? 0)%nat
             then "INSERT INTO " +:+ fa_tbl_name a +:+ " VALUES ("
             else sql fs +:+ " ,(")
            (S (SQLrowcnt fs)) (written fs)
        else FillState EmptyString (SQLrowcnt fs) (written fs) in
      let s := append_record a row col (sql fs) in
      if negb (csv2db g)
      then FillState (s +:+ ")") (SQLrowcnt fs) (written fs)
      else FillState s (SQLrowcnt fs) (written fs ++ [LineWritten s])
    else fs in
  if negb (csv2db g) && (0 <? SQLrowcnt fs)%nat then
    if (SQLrowcnt fs =? SQLPacketSize g)%nat || (col + 1 =? fa_ncols a)%nat
    then FillState (sql fs) 0 (written fs ++ [ExecInsert (sql fs) (SQLrowcnt fs)])
    else fs
  else fs.

(** One round of the row loop, lines 343-404: [SQLrowcnt] starts at 0. *)
Definition fill_row (g : strategy) (a : fill_args) (fs : fill_state) (row : nat)
  : fill_state :=
  foldl (λ fs col, fill_cell g a row col fs)
    (FillState (sql fs) 0 (written fs)) (seq 0 (fa_ncols a)).

Definition fill_rows (g : strategy) (a : fill_args) : list event :=
  written (foldl (fill_row g a) (FillState EmptyString 0 []) (seq 0 (fa_nrows a))).

(** Lines 308-339.  The [fopen] of line 335, for writing, is taken to
    succeed: [env] does not tell whether the file can be written, and
    the fatal error of lines 336-337 has no branch here. *)
Definition open_sink (e : env) (g : strategy) (a : fill_args) : run unit :=
  if negb (csv2db g) then emit TransactionBegun
  else if negb (csv_only g) then
    emit (TempFileCreated (csv_filename e)) ;;
    emit (Message ("Creating indermediate temporary CSV file '"
                   +:+ csv_filename e +:+ "'..."))
  else
    (if csv_exists e && negb (fa_ovr a)
     then G_fatal_error "Output csv file already exists! "
     else mret tt) ;;
    emit (FileOpened (fa_tbl_name a)).

(** Lines 406-451. *)
Definition close_sink (e : env) (g : strategy) (drv_name : string) (a : fill_args)
  : run unit :=
  if negb (csv2db g) then emit TransactionCommitted
  else
    (if negb (csv_only g) then
       emit (Message "Converting intermediate temporary CSV file to data table...") ;;
       emit (Message "... please wait ...") ;;
       stmt ←
         (if bool_decide (drv_name = "mysql") then
            mret ("LOAD DATA LOCAL INFILE '" +:+ csv_filename e +:+ "' INTO TABLE "
                  +:+ fa_tbl_name a +:+ " FIELDS TERMINATED BY ',' ENCLOSED BY "
                  +:+ dquote +:+ "'" +:+ dquote)
          else if bool_decide (drv_name = "pg") then
            mret ("COPY " +:+ fa_tbl_name a +:+ " FROM '" +:+ csv_filename e
                  +:+ "' CSV QUOTE ''''")
          else G_fatal_error ("dbperf=99 not supported for the database driver '"
                              +:+ drv_name +:+ "' ! ")) ;
       emit (ExecLoad stmt)
     else mret tt) ;;
    emit FileClosed.

Definition fill_database (e : env) (drv_name : string) (db_perf : Z) (a : fill_args)
  : run unit :=
  let g := select_strategy drv_name db_perf in
  open_sink e g a ;;
  emit_all (fill_rows g a) ;;
  close_sink e g drv_name a.

End Persistence.

(** ** The output raster and main, lines 485-1025 *)

(** The values of [generate] the parser lets through (lines 128-130, 559). *)
Inductive lte_output : Type :=
  | lte_rssi | lte_rsrp | lte_rsrq | lte_cinr
  | lte_maxspecteff | lte_maxthrput | lte_interfere.

Inductive generate : Type :=
  | rss_max
  | coverage
  | rss_sum
  | rss_maxix
  | lte (o : lte_output).

Record config : Type := Config {
  outraster_name : string;
  tbl_name : string;
  drv_name : string;
  db_perf : Z;
  cell_num : nat;
  rx_thresh : Z;
  generate_of : generate;
  ovr : bool;
  nrows : nat;             (* Rast_window_rows () *)
  ncols : nat;             (* Rast_window_cols () *)
  x_start : Z;             (* round (window.west + window.ew_res / 2) *)
  y_start : Z;             (* round (window.north - window.ns_res / 2) *)
  res_x : Z                (* round (window.ew_res) *)
}.

Record out_state : Type := OutState {
  arr_EcNo : list Z;
  outrast : list (option Z);
  put : list event
}.

Section Main.

Variable DB_MIN_VAL : Z.
Variable printf_f2 : Z → string.

(** Lines 825-826 and 879-891: the readings above [DB_MIN_VAL], summed
    in mW in arrival order, converted to dBm and clamped.  Floating
    point; only the list of summed readings is modelled. *)
Variable sum_dBm : list Z → Z.

(** [PdBm2LteThroughput] of LTE_RaPlaT_Fun.c: it reads [sigMax[ij]] and
    [sigSum[ij]] and writes [sigOut[ij]] only. *)
Variable PdBm2LteThroughput : lte_output → Z → Z → Z.

(** [arr_sumpower[row * ncols + col]] once all maps are read and the sum
    is converted. *)
Definition arr_sumpower (srcs : list source) (row col : nat) : Z :=
  sum_dBm (filter (λ f, DB_MIN_VAL < f) ((λ s, f_in_at DB_MIN_VAL s row col) <$> srcs)).

(** Lines 900-934: the cell of the selected output raster. *)
Definition out_raster (g : generate) (best : entry) (sum : Z) : Z :=
  match g with
  | rss_max | coverage => arr_power best
  | rss_sum => sum
  | rss_maxix => Z.of_nat (arr_index best)
  | lte o => PdBm2LteThroughput o (arr_power best) sum
  end.

Definition coverage_f (g : generate) : bool :=
  match g with coverage => true | _ => false end.

(** Lines 948-955.  The cast to [CELL] of line 948 drops the fraction of
    the float.  The values of this model are whole numbers, on which the
    cast does nothing: the number in a cell that is not null is that of
    the code for whole values only.  Which cells are null is not
    touched by the cast when [DB_MIN_VAL] is a negative whole number:
    the threshold of line 954 is compared with the power as it is, and
    a power is at most [DB_MIN_VAL] with its fraction exactly when it is
    without. *)
Definition f_out (g : generate) (rx_thresh : Z) (best : entry) (sum : Z) : option Z :=
  let v := out_raster g best sum in
  let f := if v <=? DB_MIN_VAL then None else Some v in
  if arr_power best <=? rx_thresh then None
  else if coverage_f g then Some 1
  else f.

(** Body of the column loop, lines 942-957. *)
Definition out_cell (cfg : config) (arr : list column) (srcs : list source)
  (row col : nat) (os : out_state) : out_state :=
  let arr_ix := (row * ncols cfg + col)%nat in
  let best := (arr !!! arr_ix) !!! 0%nat in
  let sum := arr_sumpower srcs row col in
  OutState (<[arr_ix := arr_power best - sum]> (arr_EcNo os))
    (<[col := f_out (generate_of cfg) (rx_thresh cfg) best sum]> (outrast os))
    (put os).

(** One round of the row loop, lines 938-964. *)
Definition out_row (cfg : config) (arr : list column) (srcs : list source)
  (os : out_state) (row : nat) : out_state :=
  let os := foldl (λ os col, out_cell cfg arr srcs row col os) os (seq 0 (ncols cfg)) in
  OutState (arr_EcNo os) (outrast os) (put os ++ [RasterRow (outrast os)]).

Definition write_raster (cfg : config) (arr : list column) (srcs : list source)
  : out_state :=
  foldl (out_row cfg arr srcs)
    (OutState (replicate (nrows cfg * ncols cfg) 0) (replicate (ncols cfg) None) [])
    (seq 0 (nrows cfg)).

(** Lines 677-684: the table is made for the tweaked [cell_num]. *)
Definition tweak_cell_num (cell_num map_number : nat) : nat :=
  if (map_number <? cell_num)%nat then map_number else cell_num.

Definition prepare_table (e : env) (cfg : config) (map_number : nat) : run nat :=
  let cell_num := tweak_cell_num (cell_num cfg) map_number in
  if negb (bool_decide (drv_name cfg = "none")) && negb (bool_decide (drv_name cfg = "csv"))
  then create_table e (drv_name cfg) (tbl_name cfg) cell_num (ovr cfg) ;; mret cell_num
  else if bool_decide (drv_name cfg = "none") then mret 1%nat
  else mret cell_num.

(** Lines 969-998. *)
Definition write_table (e : env) (cfg : config) (srcs : list source)
  (cell_num : nat) (arr : list column) (EcNo : list Z) : run unit :=
  if negb (bool_decide (drv_name cfg = "none")) then
    let a := FillArgs (tbl_name cfg) (ncols cfg) (nrows cfg) (x_start cfg)
               (y_start cfg) (res_x cfg) arr srcs cell_num EcNo (ovr cfg) in
    if negb (bool_decide (drv_name cfg = "csv")) then
      emit (Message ("Writing MaxPower data in table '" +:+ tbl_name cfg +:+ "'...")) ;;
      fill_database DB_MIN_VAL printf_f2 e (drv_name cfg) (db_perf cfg) a ;;
      emit (Message ("Finished writing MaxPower data in table '"
                     +:+ tbl_name cfg +:+ "'..."))
    else
      emit (Message ("Writing MaxPower data in csv file '" +:+ tbl_name cfg +:+ "'...")) ;;
      fill_database DB_MIN_VAL printf_f2 e (drv_name cfg) (db_perf cfg) a ;;
      emit (Message ("Finished writing MaxPower data in csv file '"
                     +:+ tbl_name cfg +:+ "'..."))
  else mret tt.

(** [main] from the count of the [cell_input] lines on; [srcs] are the
    parsed lines with their raster maps, [map_number = length srcs]. *)
Definition main (e : env) (cfg : config) (srcs : list source) : run unit :=
  let map_number := length srcs in
  if (map_number =? 0)%nat then G_fatal_error "Empty cell_input file"
  else
    emit (Message ("Processing " +:+ pretty map_number +:+ " cells...")) ;;
    cell_num ← prepare_table e cfg map_number ;
    emit (RasterOpened (outraster_name cfg)) ;;
    emit (Message "Sorting receive power values") ;;
    let arr := columns (ingest DB_MIN_VAL cell_num (nrows cfg) (ncols cfg) srcs) in
    emit (Message "Finished sorting receive power values") ;;
    let os := write_raster cfg arr srcs in
    emit_all (put os) ;;
    emit RasterClosed ;;
    write_table e cfg srcs cell_num arr (arr_EcNo os).

End Main.

(** ** Strings: strstr, str_in_strlist and the choice of the output *)

(** [strstr (haystack, needle)] of the C library, as the offset of the
    first occurrence; [None] is the null pointer. *)
Fixpoint strstr (haystack needle : string) : option nat :=
  if String.prefix needle haystack then Some 0%nat
  else match haystack with
       | EmptyString => None
       | String _ h => S <$> strstr h needle
       end.

Definition is_separator (c : ascii) : bool :=
  Ascii.eqb c " " || Ascii.eqb c ",".

(** The character a pointer into the string points to. *)
Definition char_at (s : string) (n : nat) : option ascii := String.get n s.

Definition separator_at (s : string) (n : nat) : bool :=
  match char_at s n with Some c => is_separator c | None => false end.

(** Lines 465-476. *)
Definition str_in_strlist (strlist str : string) : bool :=
  match strstr strlist str with
  | None => false
  | Some str1 =>
      let str2 := (str1 + String.length str)%nat in
      ((str1 =? 0)%nat || separator_at strlist (str1 - 1))
      && ((str2 =? String.length strlist)%nat || separator_at strlist str2)
  end.

Definition GENERATE_LTE : string :=
  "lte-rssi,lte-rsrp,lte-rsrq,lte-cinr,lte-maxspecteff,lte-maxthrput,lte-interfere".

(** Lines 900-934: what the option [generate] selects, with the flag
    handed to [PdBm2LteThroughput]. *)
Definition select_output (channel_type gen : string) : outcome generate :=
  if strstr "rss-max" gen is Some _ then Done rss_max
  else if strstr "coverage" gen is Some _ then Done coverage
  else if strstr "rss-sum" gen is Some _ then Done rss_sum
  else if strstr "rss-maxix" gen is Some _ then Done rss_maxix
  else if str_in_strlist GENERATE_LTE gen then
    if bool_decide (channel_type = "gaussian") then
      if bool_decide (gen = "lte-rsrp") then Done (lte lte_rsrp)
      else if bool_decide (gen = "lte-rssi") then Done (lte lte_rssi)
      else if bool_decide (gen = "lte-rsrq") then Done (lte lte_rsrq)
      else if bool_decide (gen = "lte-cinr") then Done (lte lte_cinr)
      else if bool_decide (gen = "lte-maxspecteff") then Done (lte lte_maxspecteff)
      else if bool_decide (gen = "lte-maxthrput") then Done (lte lte_maxthrput)
      else if bool_decide (gen = "lte-interfere") then Done (lte lte_interfere)
      else Fatal "Wrong OutpuFlag (internal error)"
    else Fatal "Wrong ChanType (internal error)"
  else Fatal ("'Generate' type not supported <" +:+ gen +:+ "> (internal error)").

(** ** The lines of the cell_input file, lines 695-746 *)

Definition CELL_INPUT_PARAMS_MAX : nat := 20.

(** [strchr (s, ';')] followed by [*sep = 0]: the text before the first
    semicolon and the text after it. *)
Fixpoint cut_at_semicolon (s : string) : option (string * string) :=
  match s with
  | EmptyString => None
  | String c s' =>
      if Ascii.eqb c ";" then Some (EmptyString, s')
      else '(p, r) ← cut_at_semicolon s'; Some (String c p, r)
  end.

(** The loop of lines 706-713: [cell_input_param[0]] to
    [cell_input_param[cell_input_params_num - 1]], in at most [n]
    rounds. *)
Fixpoint cell_input_params (n : nat) (s : string) : list string :=
  match n with
  | O => []
  | S n' =>
      match cut_at_semicolon s with
      | None => []
      | Some (p, r) => p :: cell_input_params n' r
      end
  end.

(** [buffer[strlen (buffer) - 1]]. *)
Definition last_char (s : string) : option ascii :=
  String.get (String.length s - 1) s.

(** [buffer[strlen (buffer) - 1] = c]. *)
Fixpoint set_last_char (c : ascii) (s : string) : string :=
  match s with
  | EmptyString => EmptyString
  | String a EmptyString => String c EmptyString
  | String a s' => String a (set_last_char c s')
  end.

(** What one line gives: lines 718-740. *)
Record cell_data : Type := CellData {
  cd_cell_name : string;
  cd_antenna_id : Z;
  cd_name : string;            (* the input raster *)
  cd_Pt : Z;
  cd_model_name : string;
  cd_model_name_len : nat      (* the size given to malloc, line 733 *)
}.

Section CellInput.

(** [atoi] and [atof] of the C library. *)
Variable atoi : string → Z.
Variable atof : string → Z.

(** One round of the loop of lines 695-746 on the buffer [fgets] has
    filled.  [fgets] does not leave the buffer empty; an empty buffer is
    taken here as a line without its line feed. *)
Definition store_cell_data (buffer : string) : outcome cell_data :=
  if negb (bool_decide (last_char buffer = Some (Ascii.ascii_of_nat 10))) then
    Fatal "Error in cell_input file - line too long (\n not found)"
  else
    let buffer := set_last_char ";" buffer in
    let cell_input_param := cell_input_params CELL_INPUT_PARAMS_MAX buffer in
    let cell_input_params_num := length cell_input_param in
    if (cell_input_params_num <? 5)%nat then
      Fatal "Number of parameters in a line of the cell_input file is too small (should be >=5)"
    else
      let model_name_len :=
        foldl (λ n p, (n + (String.length p + 1))%nat) 0%nat (drop 4 cell_input_param) in
      let model_name :=
        foldl (λ s p, s +:+ "_" +:+ p) (cell_input_param !!! 4%nat)
          (drop 5 cell_input_param) in
      Done (CellData (cell_input_param !!! 0%nat) (atoi (cell_input_param !!! 1%nat))
              (cell_input_param !!! 2%nat) (atof (cell_input_param !!! 3%nat))
              model_name model_name_len).

End CellInput.

(** ** LTE_RaPlaT_Fun.c: the integer parts

    The functions of this file work on [double] values; what is embedded
    here are their parts on [int]: the table lookups and the scan of the
    CINR table.  Values of type [double] stay abstract, with the casts
    the code applies to them. *)

(** LTE_RaPlaT_Fun.h. *)
Definition LTE_CINRSIZE : Z := 15.
Definition LTE_NRB : Z := 50.

Definition LTE_EFFICTABLE : list Z :=
  [1523; 2344; 3770; 6016; 8770; 11758; 14766; 19141; 24063;
   27305; 33223; 39023; 45234; 51152; 55547].

Definition LTE_CINRTABLE : list Z :=
  [-70000; -50714; -31429; -12143; 7143; 26429; 45714; 65000; 84286;
   103571; 122857; 142143; 161429; 180714; 200000].

Definition INT_MIN : Z := -2147483648.
Definition INT_MAX : Z := 2147483647.

(** A product of two [int]; [None] when it leaves the range of [int],
    where C gives it no meaning. *)
Definition int_mul (a b : Z) : option Z :=
  let r := a * b in
  if (INT_MIN <=? r) && (r <=? INT_MAX) then Some r else None.

(** [t[i]] of an array of [int]; [None] outside of it. *)
Definition array_at {A : Type} (t : list A) (i : Z) : option A :=
  if i <? 0 then None else t !! Z.to_nat i.

(** [t[j][i]] of an array [int t[4][6]]. *)
Definition table_at (t : list (list Z)) (j i : Z) : option Z :=
  array_at t j ≫= (λ r, array_at r i).

Definition tA : list (list Z) :=
  [[1000; 870; 879; 886; 888; 890]; [765; 799; 808; 815; 817; 818];
   [694; 728; 737; 743; 746; 747]; [623; 1000; 1000; 1000; 1000; 1000]].
Definition tB : list (list Z) :=
  [[1000; 849; 860; 867; 870; 871]; [728; 766; 776; 784; 787; 788];
   [644; 683; 693; 701; 703; 705]; [575; 1000; 1000; 1000; 1000; 1000]].
Definition tC : list (list Z) :=
  [[1000; 835; 844; 851; 853; 854]; [731; 764; 773; 779; 781; 782];
   [660; 692; 701; 708; 710; 711]; [588; 1000; 1000; 1000; 1000; 1000]].
Definition tD : list (list Z) :=
  [[1000; 809; 819; 826; 828; 830]; [689; 726; 735; 743; 745; 746];
   [606; 642; 652; 659; 662; 663]; [550; 1000; 1000; 1000; 1000; 1000]].

(** What [LTEOverHeadApp] leaves in its arguments, and the integer
    [iOverHead] of line 262; the value returned is
    [(double)(1000 - iOverHead) / 1000.]. *)
Record overhead (double : Type) : Type := Overhead {
  oh_BwMHz : double;
  oh_nPDCCH : Z;
  oh_AntennaNum : Z;
  oh_cpf : Ascii.ascii;
  iOverHead : option Z
}.
Arguments Overhead {double} _ _ _ _ _.
Arguments oh_BwMHz {double} _.
Arguments oh_nPDCCH {double} _.
Arguments oh_AntennaNum {double} _.
Arguments oh_cpf {double} _.
Arguments iOverHead {double} _.

Section LTE.

(** The type [double], the cast [(int) x], the product [x * 10], and
    the constants [LTE_BWMHZ = 10.0] and [1.4]. *)
Variable double : Type.
Variable int_of_double : double → Z.
Variable times_10 : double → double.
Variable LTE_BWMHZ : double.
Variable BwMHz_1_4 : double.

(** Lines 27-60.  The result and the bandwidth left in [*BwMHz]. *)
Definition BwMHz2nRB (BwMHz : double) : option (Z * double) :=
  iBwMHz ← int_mul (int_of_double BwMHz) 10;
  Some (if iBwMHz =? 14 then (6, BwMHz)
        else if iBwMHz =? 30 then (15, BwMHz)
        else if iBwMHz =? 50 then (25, BwMHz)
        else if iBwMHz =? 100 then (50, BwMHz)
        else if iBwMHz =? 150 then (75, BwMHz)
        else if iBwMHz =? 200 then (100, BwMHz)
        else (LTE_NRB, LTE_BWMHZ)).

(** Lines 167-265. *)
Definition LTEOverHeadApp (BwMHz : double) (nPDCCH AntennaNum : Z) (cpf : Ascii.ascii)
  : overhead double :=
  let cpf := if negb (Ascii.eqb cpf "n") && negb (Ascii.eqb cpf "e") then "n"%char else cpf in
  let nPDCCH := if (nPDCCH >? 4) || (nPDCCH <? 1) then 2 else nPDCCH in
  let AntennaNum := if (AntennaNum >? 2) || (AntennaNum <? 1) then 1 else AntennaNum in
  let BwMHz :=
    if nPDCCH =? 4 then
      if negb (int_of_double (times_10 BwMHz) =? 14) then BwMHz_1_4 else BwMHz
    else BwMHz in
  let s := int_of_double (times_10 BwMHz) in
  let i := if s =? 14 then 0
           else if s =? 30 then 1
           else if s =? 50 then 2
           else if s =? 100 then 3
           else if s =? 150 then 4
           else if s =? 200 then 5
           else 2 in
  let j := nPDCCH - 1 in
  let iOverHead :=
    if AntennaNum =? 2
    then (if Ascii.eqb cpf "e" then table_at tD j i else table_at tC j i)
    else (if Ascii.eqb cpf "e" then table_at tB j i else table_at tA j i) in
  let iOverHead := (λ v, if v =? 1000 then 879 else v) <$> iOverHead in
  Overhead BwMHz nPDCCH AntennaNum cpf iOverHead.

End LTE.

(** How the scan of lines 395-402 ends: with an index, or at a read of
    [LTE_CINRTABLE] outside of the table. *)
Inductive scanned : Type :=
  | Index (k : Z)
  | ReadOutside (i : Z)
  | Unfinished.

(** The loop of lines 398-402; [n] bounds its rounds. *)
Fixpoint cinr_scan (n : nat) (tmpInt k : Z) : scanned :=
  match n with
  | O => Unfinished
  | S n' =>
      match array_at LTE_CINRTABLE (k + 1) with
      | None => ReadOutside (k + 1)
      | Some t =>
          if tmpInt >? t then
            let k := k + 1 in
            if k >? LTE_CINRSIZE then Index (LTE_CINRSIZE - 1)
            else cinr_scan n' tmpInt k
          else Index k
      end
  end.

(** Lines 395-411 for the output 's': [sigOut[ij]] is the value below
    times [LTE_TABLEFACT]. *)
Definition spectral_efficiency (tmpInt : Z) : option Z :=
  match cinr_scan 18 tmpInt (-1) with
  | Index k => if k >? -1 then array_at LTE_EFFICTABLE k else Some 0
  | _ => None
  end.

(** ** LTE_RaPlaT_Fun.c: the loops of PdBm2LteThroughput *)

Section LtePoints.

(** Lines 337-412 of LTE_RaPlaT_Fun.c for one index [ij]: the value
    left in [sigOut[ij]], computed in floating point from [sigMax[ij]]
    and [sigSum[ij]]. *)
Variable point_out : Z → Z → Z.

(** The loops of lines 333-414: [i] runs over the columns and [j] over
    the rows, at [ij = i * nRows + j]. *)
Definition PdBm2LteThroughput_loops (nRows nCols : nat) (sigMax sigSum sigOut : list Z)
  : list Z :=
  for_rows_cols nCols nRows
    (λ i j sigOut,
       let ij := (i * nRows + j)%nat in
       <[ij := point_out (sigMax !!! ij) (sigSum !!! ij)]> sigOut)
    sigOut.

End LtePoints.

(** * Specification-level views of the loops

    The definitions below are not translations of source lines: they say
    what the loops above compute, and the lemmas of the next part prove
    that they do. *)

(** ** One point at a time *)

(** The readings of one point folded in arrival order; [cc.2] is the
    value [count_mem] has when the point is reached. *)
Fixpoint rank_from (cell_num map : nat) (rs : list Z) (cc : column * nat) : column * nat :=
  match rs with
  | [] => cc
  | f :: rs' => rank_from cell_num (S map) rs' (rank_point cell_num map f cc.2 cc.1)
  end.

Definition rank_readings (cell_num : nat) (rs : list Z) : column :=
  (rank_from cell_num 0 rs (column_init cell_num, 0%nat)).1.

(** The readings the sources give at one cell, in arrival order. *)
Definition readings_at (DB_MIN_VAL : Z) (srcs : list source) (row col : nat) : list Z :=
  (λ s, f_in_at DB_MIN_VAL s row col) <$> srcs.

Definition ge_power (a b : entry) : Prop := arr_power b ≤ arr_power a.

(** Sorted in descending order of power. *)
Definition descending (l : list entry) : Prop := StronglySorted ge_power l.

(** The three ways one reading can go. *)
Inductive rank_case (cell_num map : nat) (f_in : Z) (c c' : column) : Prop :=
  | rank_append hi lo :
      (map < cell_num)%nat →
      take map c = hi ++ lo →
      c' = hi ++ Entry f_in map :: lo ++ drop (S map) c →
      Forall (λ b, arr_power b < f_in) lo →
      (∀ a, last hi = Some a → f_in ≤ arr_power a) →
      rank_case cell_num map f_in c c'
  | rank_discard :
      (cell_num ≤ map)%nat →
      f_in < arr_power (c !!! (cell_num - 1)%nat) →
      c' = c →
      rank_case cell_num map f_in c c'
  | rank_replace hi lo :
      (cell_num ≤ map)%nat →
      arr_power (c !!! (cell_num - 1)%nat) ≤ f_in →
      take (cell_num - 1) c = hi ++ lo →
      c' = hi ++ Entry f_in map :: lo →
      Forall (λ b, arr_power b < f_in) lo →
      (∀ a, last hi = Some a → f_in ≤ arr_power a) →
      rank_case cell_num map f_in c c'.

(** A column after [m] readings: the first [min cell_num m] slots are
    taken and sorted, the rest still holds the zeros of the allocation. *)
Record ranked (cell_num m : nat) (c : column) : Prop := Ranked {
  ranked_length : length c = cell_num;
  ranked_sorted : descending (take (cell_num `min` m) c);
  ranked_rest : drop (cell_num `min` m) c
                = replicate (cell_num - cell_num `min` m) (Entry 0 0)
}.

(** Entries and readings above the no-data value, the test of line 825. *)
Definition count_above (DB_MIN_VAL : Z) (c : column) : nat :=
  length (filter (λ e, DB_MIN_VAL < arr_power e) c).

Definition count_valid (DB_MIN_VAL : Z) (rs : list Z) : nat :=
  length (filter (λ f, DB_MIN_VAL < f) rs).

Definition one_if_valid (DB_MIN_VAL : Z) (f : Z) : nat :=
  if decide (DB_MIN_VAL < f) then 1%nat else 0%nat.

(** ** Records, packets and statements *)

(** Rows buffered into packets of [N]: a packet is closed when it holds
    [N] rows or when the rows run out. *)
Fixpoint packets {A : Type} (N : nat) (buf : list A) (l : list A) : list (list A) :=
  match l with
  | [] => match buf with [] => [] | _ => [buf] end
  | x :: l' =>
      if (length (buf ++ [x]) =? N)%nat
      then (buf ++ [x]) :: packets N [] l'
      else packets N (buf ++ [x]) l'
  end.

(** The sizes of the packets [t] rows make. *)
Definition batch_sizes (N t : nat) : list nat :=
  replicate (t / N) N ++ (if (t mod N =? 0)%nat then [] else [(t mod N)%nat]).

Definition ceil_div (t N : nat) : nat := ((t + N - 1) / N)%nat.

(** The text of a multirow INSERT, lines 364-368 and 386. *)
Definition insert_text (tbl : string) (p : list string) : string :=
  match p with
  | [] => EmptyString
  | r :: rs =>
      foldl (λ s r, s +:+ " ,(" +:+ r +:+ ")")
        ("INSERT INTO " +:+ tbl +:+ " VALUES (" +:+ r +:+ ")") rs
  end.

(** The row counts of the INSERT statements of a trace, in order. *)
Definition insert_sizes (t : list event) : list nat :=
  omap (λ ev, match ev with ExecInsert _ n => Some n | _ => None end) t.

(** The lines written to the staging or output file, in order. *)
Definition lines_written (t : list event) : list string :=
  omap (λ ev, match ev with LineWritten s => Some s | _ => None end) t.

(** The rows of the output raster, in order. *)
Definition raster_rows (t : list event) : list (list (option Z)) :=
  omap (λ ev, match ev with RasterRow cells => Some cells | _ => None end) t.

(** Everything but the rows of the output raster. *)
Definition is_raster_row (ev : event) : bool :=
  match ev with RasterRow _ => true | _ => false end.

Definition beside_raster (t : list event) : list event :=
  filter (λ ev, is_raster_row ev = false) t.

Section PersistenceSpec.

Variable DB_MIN_VAL : Z.
Variable printf_f2 : Z → string.

(** The delimited record of one point: lines 373-384. *)
Definition record_text (a : fill_args) (row col : nat) : string :=
  append_record printf_f2 a row col EmptyString.


(** The columns of a row that pass the test of line 356. *)
Definition persisted_cols (a : fill_args) (row : nat) : list nat :=
  filter (λ col, not_null DB_MIN_VAL a row col = true) (seq 0 (fa_ncols a)).

Definition row_records (a : fill_args) (row : nat) : list string :=
  record_text a row <$> persisted_cols a row.

Definition records (a : fill_args) : list string :=
  seq 0 (fa_nrows a) ≫= row_records a.

Definition exec_insert (a : fill_args) (p : list string) : event :=
  ExecInsert (insert_text (fa_tbl_name a) p) (length p).

Definition row_statements (N : nat) (a : fill_args) (row : nat) : list event :=
  exec_insert a <$> packets N [] (row_records a row).

Definition expected_rows (g : strategy) (a : fill_args) : list event :=
  if csv2db g then LineWritten <$> records a
  else seq 0 (fa_nrows a) ≫= row_statements (SQLPacketSize g) a.

(** The bulk-load statement of lines 424-443, if the driver has one. *)
Definition load_statement (e : env) (drv_name : string) (a : fill_args) : option string :=
  if bool_decide (drv_name = "mysql") then
    Some ("LOAD DATA LOCAL INFILE '" +:+ csv_filename e +:+ "' INTO TABLE "
          +:+ fa_tbl_name a +:+ " FIELDS TERMINATED BY ',' ENCLOSED BY "
          +:+ dquote +:+ "'" +:+ dquote)
  else if bool_decide (drv_name = "pg") then
    Some ("COPY " +:+ fa_tbl_name a +:+ " FROM '" +:+ csv_filename e
          +:+ "' CSV QUOTE ''''")
  else None.

(** What the staged bulk load does before it looks at the driver. *)
Definition staged_scan (e : env) (a : fill_args) : list event :=
  [TempFileCreated (csv_filename e);
   Message ("Creating indermediate temporary CSV file '" +:+ csv_filename e +:+ "'...")]
  ++ (LineWritten <$> records a)
  ++ [Message "Converting intermediate temporary CSV file to data table...";
      Message "... please wait ..."].

End PersistenceSpec.

(** ** The raster pass *)

(** The strongest entry of a point: [arr_power[0][arr_ix]] and
    [arr_index[0][arr_ix]] at [arr_ix = row * ncols + col]. *)
Definition best_at (arr : list column) (ncols row col : nat) : entry :=
  (arr !!! (row * ncols + col)%nat) !!! 0%nat.

Section RasterSpec.

Variable DB_MIN_VAL : Z.
Variable sum_dBm : list Z → Z.
Variable PdBm2LteThroughput : lte_output → Z → Z → Z.

(** The cell of the output raster at a point. *)
Definition raster_cell (cfg : config) (arr : list column) (srcs : list source)
  (row col : nat) : option Z :=
  f_out DB_MIN_VAL PdBm2LteThroughput (generate_of cfg) (rx_thresh cfg)
    (best_at arr (ncols cfg) row col) (arr_sumpower DB_MIN_VAL sum_dBm srcs row col).

(** Best power minus summed power at a point. *)
Definition EcNo_at (ncols : nat) (arr : list column) (srcs : list source)
  (row col : nat) : Z :=
  arr_power (best_at arr ncols row col) - arr_sumpower DB_MIN_VAL sum_dBm srcs row col.

End RasterSpec.

(** ** Runs that differ in one option *)

Definition with_cell_num (k : nat) (cfg : config) : config :=
  Config (outraster_name cfg) (tbl_name cfg) (drv_name cfg) (db_perf cfg) k
    (rx_thresh cfg) (generate_of cfg) (ovr cfg) (nrows cfg) (ncols cfg)
    (x_start cfg) (y_start cfg) (res_x cfg).



(** What [create_table] does when it does not abort. *)
Definition create_table_events (e : env) (drv_name tbl_name : string) (cell_num : nat)
  (ovr : bool) : list event :=
  (if table_exists e then [TableDeleted tbl_name] else [])
  ++ (if bool_decide (drv_name = "pg") && ovr
      then [Message (newline +:+ "Deleting table <" +:+ tbl_name +:+ "> (if exists)");
            ExecDrop ("DROP TABLE IF EXISTS " +:+ tbl_name)]
      else [])
  ++ [TableCreated tbl_name (table_columns cell_num)].

(** ** The order of a ranked column *)

(** Entry [a] ranks before [b]: it is stronger, or as strong and from an
    earlier map. *)
Definition ranks_before (a b : entry) : Prop :=
  arr_power b < arr_power a
  ∨ (arr_power a = arr_power b ∧ (arr_index a < arr_index b)%nat).

(** The taken slots of a column against the readings [rs] that made it:
    every entry is the reading of the map it names, the entries are in
    rank order, and a reading that is not among them is at most as strong
    as each of them, the column then being full. *)
Record kept (cell_num : nat) (rs : list Z) (top : list entry) : Prop := Kept {
  kept_genuine : Forall (λ e, rs !! arr_index e = Some (arr_power e)) top;
  kept_order : StronglySorted ranks_before top;
  kept_rest : ∀ i f, rs !! i = Some f →
      (∃ e, e ∈ top ∧ arr_index e = i)
      ∨ (length top = cell_num ∧ Forall (λ e, f ≤ arr_power e) top)
}.

(** Entry [b] is a reading of [rs] that no other reading exceeds; of the
    maps that reach its power it names the earliest. *)
Definition best_earliest (rs : list Z) (b : entry) : Prop :=
  rs !! arr_index b = Some (arr_power b)
  ∧ ∀ i f, rs !! i = Some f →
      f < arr_power b ∨ (f = arr_power b ∧ (arr_index b ≤ i)%nat).

(** The same with the latest of the maps that reach its power. *)
Definition best_latest (rs : list Z) (b : entry) : Prop :=
  rs !! arr_index b = Some (arr_power b)
  ∧ ∀ i f, rs !! i = Some f →
      f < arr_power b ∨ (f = arr_power b ∧ (i ≤ arr_index b)%nat).

(** ** The layout of the table *)

(** The four columns of slot [i], as lines 215-242 set them. *)
Definition slot_columns (i : nat) : list db_column :=
  [DbColumn ("cell" +:+ pretty i) DB_SQL_TYPE_CHARACTER 32;
   DbColumn ("id" +:+ pretty i) DB_SQL_TYPE_INTEGER 6;
   DbColumn ("Pr" +:+ pretty i) DB_SQL_TYPE_REAL 6;
   DbColumn ("model" +:+ pretty i) DB_SQL_TYPE_CHARACTER 128].

(** The columns of the table, in order. *)
Definition table_layout (cell_num : nat) : list db_column :=
  [DbColumn "x" DB_SQL_TYPE_INTEGER 6; DbColumn "y" DB_SQL_TYPE_INTEGER 6;
   DbColumn "resolution" DB_SQL_TYPE_INTEGER 4]
  ++ (seq 1 cell_num ≫= slot_columns)
  ++ [DbColumn "EcN0" DB_SQL_TYPE_REAL 6].

(** ** Texts *)

(** Texts with [sep] between them. *)
Fixpoint separated_by (sep : string) (l : list string) : string :=
  match l with
  | [] => EmptyString
  | [s] => s
  | s :: l' => s +:+ sep +:+ separated_by sep l'
  end.

(** ** The fields of a record *)

(** The values of a record by the way lines 373-384 print them: with
    ["%d"], between single quotes, with ["%.2f"]. *)
Inductive field : Type :=
  | FInteger (z : Z)
  | FText (s : string)
  | FReal (z : Z).

Definition field_sqltype (f : field) : sqltype :=
  match f with
  | FInteger _ => DB_SQL_TYPE_INTEGER
  | FText _ => DB_SQL_TYPE_CHARACTER
  | FReal _ => DB_SQL_TYPE_REAL
  end.

Section Fields.

Variable printf_f2 : Z → string.

Definition field_text (f : field) : string :=
  match f with
  | FInteger z => pretty z
  | FText s => "'" +:+ s +:+ "'"
  | FReal z => printf_f2 z
  end.

(** The four fields of slot [cell - 1] of a point, line 379. *)
Definition slot_fields (a : fill_args) (c : column) (cell : nat) : list field :=
  let e := c !!! (cell - 1)%nat in
  let s := fa_srcs a !!! arr_index e in
  [FText (cell_name s); FInteger (antenna_id s); FReal (arr_power e);
   FText (model_name s)].

(** The fields of the record of a point. *)
Definition record_fields (a : fill_args) (row col : nat) : list field :=
  let arr_ix := (row * fa_ncols a + col)%nat in
  [FInteger (fa_x_start a + Z.of_nat col * fa_res a);
   FInteger (fa_y_start a - Z.of_nat row * fa_res a);
   FInteger (fa_res a)]
  ++ (seq 1 (fa_ncells a) ≫= slot_fields a (fa_arr a !!! arr_ix))
  ++ [FReal (fa_arr_EcNo a !!! arr_ix)].

End Fields.

(** ** The values of [generate] and the items of a list *)

(** The values of the option, lines 128-129. *)
Definition generate_name (g : generate) : string :=
  match g with
  | rss_max => "rss-max"
  | coverage => "coverage"
  | rss_sum => "rss-sum"
  | rss_maxix => "rss-maxix"
  | lte lte_rssi => "lte-rssi"
  | lte lte_rsrp => "lte-rsrp"
  | lte lte_rsrq => "lte-rsrq"
  | lte lte_cinr => "lte-cinr"
  | lte lte_maxspecteff => "lte-maxspecteff"
  | lte lte_maxthrput => "lte-maxthrput"
  | lte lte_interfere => "lte-interfere"
  end.

(** No blank and no comma. *)
Fixpoint separator_free (s : string) : bool :=
  match s with
  | EmptyString => true
  | String c s' => negb (is_separator c) && separator_free s'
  end.

(** The string from offset [n] on. *)
Fixpoint string_from (n : nat) (s : string) : string :=
  match n, s with
  | O, _ => s
  | S n', String _ s' => string_from n' s'
  | S _, EmptyString => EmptyString
  end.

(** The text up to the first blank or comma. *)
Fixpoint first_item (s : string) : string :=
  match s with
  | EmptyString => EmptyString
  | String c s' => if is_separator c then EmptyString else String c (first_item s')
  end.

(** No semicolon. *)
Fixpoint semicolon_free (s : string) : bool :=
  match s with
  | EmptyString => true
  | String c s' => negb (Ascii.eqb c ";") && semicolon_free s'
  end.

(** No line feed and no zero character: [fgets] takes the text in
    without cutting it, and [strlen] measures all of it. *)
Fixpoint line_feed_free (s : string) : bool :=
  match s with
  | EmptyString => true
  | String c s' =>
      negb (Ascii.eqb c (Ascii.ascii_of_nat 10)) && negb (Ascii.eqb c (Ascii.ascii_of_nat 0))
      && line_feed_free s'
  end.

(** ** Sample values of the parameters, for the examples *)

(** ["%.2f"] of a whole number. *)
Definition sample_printf_f2 (z : Z) : string := pretty z +:+ ".00".

(** A stand-in for the summed power: the strongest summed reading. *)
Definition sample_sum_dBm (l : list Z) : Z := foldr Z.max (-999) l.

Definition sample_lte (o : lte_output) (sigMax sigSum : Z) : Z := sigMax - sigSum.

Definition sample_env : env := Env false false "/tmp/fileAAAAAA".

(** Three sources on a 2 x 2 window; powers are transmit power 0 minus
    the path loss. *)
Definition sample_srcs : list source :=
  [Source "a" 1 0 "m1" [[Some 80; Some 100]; [None; Some 70]];
   Source "b" 2 0 "m2" [[Some 60; None]; [None; Some 70]];
   Source "c" 3 0 "m3" [[Some 95; Some 100]; [None; Some 70]]].

Definition sample_cfg (drv : string) (perf : Z) (g : generate) : config :=
  Config "out" "tbl" drv perf 2 (-90) g false 2 2 1000 2000 10.

Definition sample_main (drv : string) (perf : Z) (g : generate) : run unit :=
  main (-999) sample_printf_f2 sample_sum_dBm sample_lte sample_env
    (sample_cfg drv perf g) sample_srcs.

(** Two grid rows of one column, both points with data. *)
Definition sample_fill_args : fill_args :=
  FillArgs "tbl" 1 2 1000 2000 10 [[Entry (-60) 0]; [Entry (-70) 0]]
    [Source "a" 1 0 "m1" []] 1 [0; 0] false.

(** * Lemmas *)

(** ** The sorting loop *)

Lemma swap_adjacent (pre post : list entry) (a x : entry) :
  swap (pre ++ a :: x :: post) (S (length pre)) (length pre) = pre ++ x :: a :: post.
Proof.
  induction pre as [|p pre IH]; [reflexivity|].
  unfold swap in *. simpl. f_equal. exact IH.
Qed.

Lemma lookup_total_adjacent (pre post : list entry) (a x : entry) :
  (pre ++ a :: x :: post) !!! length pre = a
  ∧ (pre ++ a :: x :: post) !!! S (length pre) = x.
Proof.
  split; [by apply list_lookup_total_middle|].
  rewrite (cons_middle a pre), app_assoc.
  apply list_lookup_total_middle. rewrite length_app. simpl. lia.
Qed.

Lemma bubble_snoc (pre post : list entry) (a x : entry) :
  bubble (S (length pre)) (pre ++ a :: x :: post)
  = if arr_power x >? arr_power a
    then bubble (length pre) (pre ++ x :: a :: post)
    else pre ++ a :: x :: post.
Proof.
  destruct (lookup_total_adjacent pre post a x) as [Ha Hx].
  cbn [bubble]. rewrite Ha, Hx. by rewrite swap_adjacent.
Qed.

Lemma bubble_split (pre : list entry) :
  ∀ (x : entry) (post : list entry),
    ∃ hi lo, pre = hi ++ lo
      ∧ bubble (length pre) (pre ++ x :: post) = hi ++ x :: lo ++ post
      ∧ Forall (λ b, arr_power b < arr_power x) lo
      ∧ (∀ a, last hi = Some a → arr_power x ≤ arr_power a).
Proof.
  induction pre as [|a pre IH] using rev_ind; intros x post.
  - exists [], []. repeat split; [constructor | intros ? [=]].
  - rewrite length_app, Nat.add_1_r, <- app_assoc. simpl app.
    rewrite bubble_snoc.
    destruct (arr_power x >? arr_power a) eqn:Hgt.
    + destruct (IH x (a :: post)) as (hi & lo & -> & Hb & Hlo & Hhi).
      exists hi, (lo ++ [a]). repeat split.
      * by rewrite app_assoc.
      * rewrite Hb. by rewrite <- app_assoc.
      * apply Forall_app; split; [done|]. constructor; [lia | constructor].
      * done.
    + exists (pre ++ [a]), []. repeat split.
      * by rewrite app_nil_r.
      * by rewrite <- app_assoc.
      * constructor.
      * intros b. rewrite last_snoc. intros [= <-]. lia.
Qed.

Lemma descending_insert (hi lo : list entry) (x : entry) :
  descending (hi ++ lo) →
  Forall (λ b, arr_power b < arr_power x) lo →
  (∀ a, last hi = Some a → arr_power x ≤ arr_power a) →
  descending (hi ++ x :: lo).
Proof.
  unfold descending. rewrite !StronglySorted_app. intros (Hx & Hhi & Hlo) Hsm Hlast.
  split_and!; [|done|].
  - intros x1 x2 H1 H2. apply elem_of_cons in H2 as [->|H2]; [|by apply Hx].
    destruct (last hi) as [a|] eqn:Ha.
    + specialize (Hlast a eq_refl). apply last_Some in Ha as [hi' ->].
      apply elem_of_app in H1 as [H1|H1].
      * apply StronglySorted_app in Hhi as (Hh & _ & _).
        specialize (Hh x1 a H1 ltac:(by apply list_elem_of_singleton)). unfold ge_power in *. lia.
      * apply list_elem_of_singleton in H1 as ->. done.
    + apply last_None in Ha. subst. by apply elem_of_nil in H1.
  - constructor; [done|]. eapply Forall_impl; [exact Hsm|]. unfold ge_power. simpl. lia.
Qed.

(** Writing a reading into slot [i] and sorting from there. *)
Lemma insert_bubble (c : column) (i : nat) (e : entry) :
  (i < length c)%nat →
  ∃ hi lo, take i c = hi ++ lo
    ∧ bubble i (<[i := e]> c) = hi ++ e :: lo ++ drop (S i) c
    ∧ Forall (λ b, arr_power b < arr_power e) lo
    ∧ (∀ a, last hi = Some a → arr_power e ≤ arr_power a).
Proof.
  intros Hi. rewrite insert_take_drop by done.
  destruct (bubble_split (take i c) e (drop (S i) c)) as (hi & lo & Hpre & Hb & Hlo & Hhi).
  rewrite length_take_le in Hb by lia. eauto 10.
Qed.

Lemma rank_point_case (cell_num map : nat) (f_in : Z) (cm : nat) (c : column) :
  (1 ≤ cell_num)%nat → length c = cell_num →
  ((cell_num ≤ map)%nat → cm = (cell_num - 1)%nat) →
  rank_case cell_num map f_in c (rank_point cell_num map f_in cm c).1
  ∧ (rank_point cell_num map f_in cm c).2
    = if (map <? cell_num)%nat then map else cm.
Proof.
  intros HK Hlen Hcm. unfold rank_point, place.
  destruct (map <? cell_num)%nat eqn:Hlt.
  - apply Nat.ltb_lt in Hlt. simpl. split; [|done].
    assert (sort_point map map (<[map:=Entry f_in map]> c)
            = bubble map (<[map:=Entry f_in map]> c)) as ->.
    { unfold sort_point. destruct map; reflexivity. }
    destruct (insert_bubble c map (Entry f_in map)) as (hi & lo & H1 & H2 & H3 & H4);
      [lia|].
    by eapply rank_append.
  - apply Nat.ltb_ge in Hlt. specialize (Hcm Hlt). subst cm.
    destruct (f_in <? arr_power (c !!! (cell_num - 1)%nat)) eqn:Hf; simpl.
    + split; [|done]. apply rank_discard; [done|lia|done].
    + split; [|done].
      assert (sort_point map (cell_num - 1)
                (<[(cell_num - 1)%nat:=Entry f_in map]> c)
              = bubble (cell_num - 1) (<[(cell_num - 1)%nat:=Entry f_in map]> c)) as ->.
      { unfold sort_point. destruct map; [lia|reflexivity]. }
      destruct (insert_bubble c (cell_num - 1) (Entry f_in map))
        as (hi & lo & H1 & H2 & H3 & H4); [lia|].
      rewrite drop_ge, app_nil_r in H2 by lia.
      eapply rank_replace; eauto. lia.
Qed.

Lemma ranked_init (cell_num : nat) : ranked cell_num 0 (column_init cell_num).
Proof.
  unfold column_init. split.
  - apply length_replicate.
  - rewrite Nat.min_0_r. constructor.
  - by rewrite Nat.min_0_r, Nat.sub_0_r.
Qed.

Lemma rank_case_ranked (cell_num m : nat) (f_in : Z) (c c' : column) :
  (1 ≤ cell_num)%nat → ranked cell_num m c →
  rank_case cell_num m f_in c c' → ranked cell_num (S m) c'.
Proof.
  intros HK [Hlen Hs Hr] [hi lo Hm Ht -> Hlo Hhi | Hm Hf -> | hi lo Hm Hf Ht -> Hlo Hhi].
  - rewrite Nat.min_r in Hs, Hr by lia.
    assert (length (hi ++ lo) = m) as Hl by (rewrite <- Ht, length_take_le; lia).
    assert (length (hi ++ Entry f_in m :: lo) = S m) as Hl'.
    { rewrite length_app in *. simpl. lia. }
    rewrite (cons_middle _ hi), !app_assoc, <- (app_assoc hi).
    simpl. split.
    + rewrite length_app, Hl', length_drop. lia.
    + rewrite Nat.min_r by lia. rewrite take_app_length' by done.
      apply descending_insert; [by rewrite <- Ht|done..].
    + rewrite Nat.min_r by lia. rewrite drop_app_length' by done.
      replace (S m) with (m + 1)%nat by lia. rewrite <- drop_drop, Hr.
      rewrite drop_replicate. f_equal. lia.
  - rewrite Nat.min_l in * by lia. split; by rewrite ?Nat.min_l by lia.
  - rewrite Nat.min_l in * by lia. rewrite take_ge in Hs by lia.
    assert (length (hi ++ lo) = (cell_num - 1)%nat) as Hl
      by (rewrite <- Ht, length_take_le; lia).
    assert (length (hi ++ Entry f_in m :: lo) = cell_num) as Hl'.
    { rewrite length_app in *. simpl. lia. }
    split.
    + done.
    + rewrite Nat.min_l by lia. rewrite take_ge by lia.
      apply descending_insert; [|done..]. rewrite <- Ht.
      rewrite <- (take_drop (cell_num - 1) c) in Hs.
      by apply StronglySorted_app_1_l in Hs.
    + rewrite Nat.min_l by lia. rewrite drop_ge by lia.
      by rewrite Nat.sub_diag.
Qed.

(** ** From the grid loops to single points *)

Lemma foldl_seq_ext {St : Type} (f g : St → nat → St) (s : St) (a n : nat) :
  (∀ s i, (a ≤ i < a + n)%nat → f s i = g s i) →
  foldl f s (seq a n) = foldl g s (seq a n).
Proof.
  revert a s. induction n as [|n IH]; intros a s Hfg; [done|].
  simpl. rewrite Hfg by lia. apply IH. intros. apply Hfg. lia.
Qed.

Lemma for_rows_cols_flat {St : Type} (nrows ncols : nat) (body : nat → nat → St → St) (s : St) :
  for_rows_cols nrows ncols body s
  = foldl (λ s ix, body (ix / ncols)%nat (ix mod ncols)%nat s) s (seq 0 (nrows * ncols)).
Proof.
  unfold for_rows_cols. induction nrows as [|n IH]; [done|].
  replace (S n * ncols)%nat with (n * ncols + ncols)%nat by lia.
  rewrite seq_S, seq_app, !foldl_app, IH. clear IH.
  change (0 + n)%nat with n. change (0 + n * ncols)%nat with (n * ncols)%nat.
  cbn [foldl].
  set (s' := foldl _ s (seq 0 (n * ncols))). clearbody s'.
  replace (seq (n * ncols) ncols) with (Nat.add (n * ncols) <$> seq 0 ncols)
    by (rewrite fmap_add_seq; f_equal; lia).
  rewrite foldl_fmap.
  apply foldl_seq_ext. intros t c Hc.
  assert (ncols ≠ 0)%nat by lia.
  rewrite (Nat.add_comm (n * ncols)), Nat.div_add, Nat.Div0.mod_add by done.
  rewrite Nat.div_small, Nat.mod_small by lia. done.
Qed.

Lemma rank_point_count_mem (cell_num map : nat) (f_in : Z) (cm : nat) (c : column) :
  (rank_point cell_num map f_in cm c).2 = if (map <? cell_num)%nat then map else cm.
Proof.
  unfold rank_point, place. destruct (map <? cell_num)%nat; [done|].
  by destruct (f_in <? _).
Qed.

Lemma rank_point_count_mem_irrel (cell_num map : nat) (f_in : Z) (cm cm' : nat) (c : column) :
  (map < cell_num)%nat →
  (rank_point cell_num map f_in cm c).1 = (rank_point cell_num map f_in cm' c).1.
Proof.
  intros Hlt. unfold rank_point, place.
  apply Nat.ltb_lt in Hlt. by rewrite Hlt.
Qed.

Section Lifting.

Variable DB_MIN_VAL : Z.
Variables cell_num nrows ncols : nat.

(** The column loop over the first [k] points of one map. *)
Lemma ingest_points (map : nat) (s : source) (st : rank_state) (k : nat) :
  let st' := foldl (λ st ix, ingest_cell DB_MIN_VAL cell_num ncols map s
                               (ix / ncols)%nat (ix mod ncols)%nat st)
               st (seq 0 k) in
  (0 < ncols)%nat → (k ≤ length (columns st))%nat →
  length (columns st') = length (columns st)
  ∧ count_mem_of st'
    = (if (k =? 0)%nat then count_mem_of st
       else if (map <? cell_num)%nat then map else count_mem_of st)
  ∧ ∀ ix, columns st' !!! ix
          = if (ix <? k)%nat
            then (rank_point cell_num map
                    (f_in_at DB_MIN_VAL s (ix / ncols)%nat (ix mod ncols)%nat)
                    (count_mem_of st) (columns st !!! ix)).1
            else columns st !!! ix.
Proof.
  intros st' Hn. subst st'. induction k as [|k IH]; intros Hk.
  - simpl. done.
  - rewrite seq_S, foldl_app. simpl.
    destruct IH as (Hlen & Hcm & Hcol); [lia|].
    set (st1 := foldl _ st (seq 0 k)) in *. clearbody st1.
    unfold ingest_cell.
    assert ((k / ncols * ncols + k mod ncols)%nat = k) as ->.
    { rewrite (Nat.div_mod_eq k ncols) at 3. lia. }
    destruct (rank_point _ _ _ (count_mem_of st1) _) as [c cm] eqn:Hrp.
    simpl. split_and!.
    + by rewrite length_insert.
    + pose proof (rank_point_count_mem cell_num map
        (f_in_at DB_MIN_VAL s (k / ncols)%nat (k mod ncols)%nat)
        (count_mem_of st1) (columns st1 !!! k)) as H2.
      rewrite Hrp in H2. simpl in H2. rewrite H2, Hcm.
      destruct (map <? cell_num)%nat; [done|]. by destruct (k =? 0)%nat.
    + intros ix. destruct (decide (ix = k)) as [->|Hne].
      * rewrite list_lookup_total_insert_eq by lia.
        assert ((k <? S k)%nat = true) as -> by (apply Nat.ltb_lt; lia).
        specialize (Hcol k). rewrite Nat.ltb_irrefl in Hcol. rewrite Hcol in Hrp.
        destruct (map <? cell_num)%nat eqn:Hlt.
        -- apply Nat.ltb_lt in Hlt.
           erewrite rank_point_count_mem_irrel by done. by rewrite Hrp.
        -- assert (count_mem_of st1 = count_mem_of st) as Heq
             by (rewrite Hcm; by destruct (k =? 0)%nat).
           rewrite Heq in Hrp. by rewrite Hrp.
      * rewrite list_lookup_total_insert_ne by done. rewrite Hcol.
        assert ((ix <? S k)%nat = (ix <? k)%nat) as ->; [|done].
        destruct (ix <? k)%nat eqn:E.
        -- apply Nat.ltb_lt in E. apply Nat.ltb_lt. lia.
        -- apply Nat.ltb_ge in E. apply Nat.ltb_ge. lia.
Qed.

Lemma ingest_map_point (map : nat) (s : source) (st : rank_state) (row col : nat) :
  (row < nrows)%nat → (col < ncols)%nat →
  length (columns st) = (nrows * ncols)%nat →
  let st' := ingest_map DB_MIN_VAL cell_num nrows ncols map s st in
  length (columns st') = (nrows * ncols)%nat
  ∧ count_mem_of st' = (if (map <? cell_num)%nat then map else count_mem_of st)
  ∧ columns st' !!! (row * ncols + col)%nat
    = (rank_point cell_num map (f_in_at DB_MIN_VAL s row col)
         (count_mem_of st) (columns st !!! (row * ncols + col)%nat)).1.
Proof.
  intros Hr Hc Hlen st'. subst st'. unfold ingest_map.
  rewrite for_rows_cols_flat.
  destruct (ingest_points map s st (nrows * ncols)) as (H1 & H2 & H3); [lia..|].
  assert (row * ncols + col < nrows * ncols)%nat as Hix by nia.
  split_and!.
  - by rewrite H1.
  - rewrite H2. assert ((nrows * ncols =? 0)%nat = false) as ->; [|done].
    apply Nat.eqb_neq. lia.
  - rewrite H3. apply Nat.ltb_lt in Hix. rewrite Hix.
    assert (ncols ≠ 0)%nat by lia.
    rewrite (Nat.add_comm (row * ncols)), Nat.div_add, Nat.Div0.mod_add by done.
    rewrite Nat.div_small, Nat.mod_small by lia. done.
Qed.

Lemma ingest_from_point (srcs : list source) :
  ∀ (map : nat) (st : rank_state) (cm : nat) (row col : nat),
    (row < nrows)%nat → (col < ncols)%nat →
    length (columns st) = (nrows * ncols)%nat →
    ((cell_num ≤ map)%nat → count_mem_of st = (cell_num - 1)%nat ∧ cm = (cell_num - 1)%nat) →
    columns (ingest_from DB_MIN_VAL cell_num nrows ncols map srcs st)
      !!! (row * ncols + col)%nat
    = (rank_from cell_num map (readings_at DB_MIN_VAL srcs row col)
         (columns st !!! (row * ncols + col)%nat, cm)).1.
Proof.
  induction srcs as [|s srcs IH]; intros map st cm row col Hr Hc Hlen Hcm; [done|].
  simpl.
  destruct (ingest_map_point map s st row col Hr Hc Hlen) as (H1 & H2 & H3).
  rewrite (IH (S map) _ (rank_point cell_num map (f_in_at DB_MIN_VAL s row col) cm
                          (columns st !!! (row * ncols + col)%nat)).2 row col Hr Hc H1).
  - f_equal. f_equal. rewrite H3. apply injective_projections; simpl; [|done].
    destruct (decide (map < cell_num)%nat) as [Hlt|Hge].
    + by apply rank_point_count_mem_irrel.
    + destruct Hcm as [-> ->]; [lia|done].
  - intros HS. rewrite H2, rank_point_count_mem.
    destruct (map <? cell_num)%nat eqn:Hlt.
    + apply Nat.ltb_lt in Hlt. lia.
    + apply Nat.ltb_ge in Hlt. by apply Hcm.
Qed.

(** The column of a point after the whole run is what the point's own
    readings make of an empty column. *)
Lemma ingest_point (srcs : list source) (row col : nat) :
  (row < nrows)%nat → (col < ncols)%nat → (1 ≤ cell_num)%nat →
  columns (ingest DB_MIN_VAL cell_num nrows ncols srcs) !!! (row * ncols + col)%nat
  = rank_readings cell_num (readings_at DB_MIN_VAL srcs row col).
Proof.
  intros Hr Hc HK. unfold ingest, rank_readings.
  rewrite (ingest_from_point srcs 0 _ 0%nat row col Hr Hc).
  - simpl. rewrite lookup_total_replicate_2 by nia. done.
  - simpl. by rewrite length_replicate.
  - lia.
Qed.

End Lifting.

Section Counting.

Variable DB_MIN_VAL : Z.

Lemma count_above_app (l k : column) :
  count_above DB_MIN_VAL (l ++ k) = (count_above DB_MIN_VAL l + count_above DB_MIN_VAL k)%nat.
Proof. unfold count_above. by rewrite filter_app, length_app. Qed.

Lemma count_above_cons (e : entry) (l : column) :
  count_above DB_MIN_VAL (e :: l) = (one_if_valid DB_MIN_VAL (arr_power e) + count_above DB_MIN_VAL l)%nat.
Proof.
  unfold count_above, one_if_valid. rewrite filter_cons.
  by destruct (decide (DB_MIN_VAL < arr_power e)).
Qed.

Lemma count_above_le (l : column) : (count_above DB_MIN_VAL l ≤ length l)%nat.
Proof. apply length_filter. Qed.

Lemma count_above_all (l : column) :
  Forall (λ e, DB_MIN_VAL < arr_power e) l → count_above DB_MIN_VAL l = length l.
Proof.
  induction 1 as [|e l He _ IH]; [done|].
  rewrite count_above_cons, IH. unfold one_if_valid.
  destruct (decide _); [done|lia].
Qed.

(** In a sorted column everything is at least the last slot. *)
Lemma descending_last (c : column) (i : nat) :
  descending c → length c = S i →
  Forall (λ e, arr_power (c !!! i) ≤ arr_power e) c.
Proof.
  intros Hs Hlen.
  assert (c = take i c ++ [c !!! i]) as Hc.
  { rewrite <- (take_drop i c) at 1. f_equal.
    rewrite <- (take_drop_middle c i (c !!! i)) at 1
      by (apply list_lookup_lookup_total_lt; lia).
    rewrite drop_app_length' by (rewrite length_take_le; lia).
    f_equal. apply drop_ge. lia. }
  remember (c !!! i) as x eqn:Hx0. clear Hx0.
  rewrite Hc in Hs. apply StronglySorted_app in Hs as (Hx & _ & _).
  rewrite Hc. apply Forall_app. split.
  - apply Forall_forall. intros e He. apply (Hx e x); [done|].
    by apply list_elem_of_singleton.
  - by constructor.
Qed.

Lemma count_above_full (c : column) (i : nat) :
  descending c → length c = S i → DB_MIN_VAL < arr_power (c !!! i) →
  count_above DB_MIN_VAL c = S i.
Proof.
  intros Hs Hlen Hlast. rewrite <- Hlen. apply count_above_all.
  eapply Forall_impl; [by apply (descending_last c i)|]. simpl. lia.
Qed.

Lemma rank_case_count (cell_num m n : nat) (f_in : Z) (c c' : column) :
  (1 ≤ cell_num)%nat → ranked cell_num m c → rank_case cell_num m f_in c c' →
  count_above DB_MIN_VAL (take (cell_num `min` m) c) = (cell_num `min` n)%nat →
  count_above DB_MIN_VAL (take (cell_num `min` S m) c') = (cell_num `min` (n + one_if_valid DB_MIN_VAL f_in))%nat.
Proof.
  intros HK [Hlen Hs Hr] [hi lo Hm Ht -> Hlo Hhi | Hm Hf -> | hi lo Hm Hf Ht -> Hlo Hhi] Hcnt.
  - rewrite Nat.min_r in Hcnt, Hs by lia. rewrite Nat.min_r by lia.
    assert (length (hi ++ lo) = m) as Hl by (rewrite <- Ht, length_take_le; lia).
    rewrite (cons_middle _ hi), !app_assoc, <- (app_assoc hi). simpl.
    rewrite take_app_length' by (rewrite length_app in *; simpl; lia).
    rewrite Ht in Hcnt.
    pose proof (count_above_le (hi ++ lo)).
    rewrite count_above_app, count_above_cons in *. simpl.
    unfold one_if_valid. destruct (decide _); lia.
  - rewrite Nat.min_l in * by lia. rewrite take_ge in * by lia.
    unfold one_if_valid. destruct (decide _) as [Hv|]; [|by rewrite Nat.add_0_r].
    rewrite (count_above_full c (cell_num - 1)) in * by (done || lia). lia.
  - rewrite Nat.min_l in * by lia. rewrite take_ge in Hs, Hcnt by lia.
    assert (length (hi ++ lo) = (cell_num - 1)%nat) as Hl
      by (rewrite <- Ht, length_take_le; lia).
    rewrite take_ge by (rewrite length_app in *; simpl; lia).
    assert (c = (hi ++ lo) ++ [c !!! (cell_num - 1)%nat]) as Hc.
    { rewrite <- Ht. rewrite <- (take_drop (cell_num - 1) c) at 1. f_equal.
      rewrite <- (take_drop_middle c (cell_num - 1) (c !!! (cell_num - 1)%nat)) at 1
        by (apply list_lookup_lookup_total_lt; lia).
      rewrite drop_app_length' by (rewrite length_take_le; lia).
      f_equal. apply drop_ge. lia. }
    destruct (decide (DB_MIN_VAL < arr_power (c !!! (cell_num - 1)%nat))) as [Hv|Hv].
    + rewrite (count_above_full c (cell_num - 1)) in Hcnt; [|done|lia|done].
      rewrite count_above_all.
      * rewrite length_app in *. simpl. lia.
      * pose proof (descending_last c (cell_num - 1) Hs ltac:(lia)) as Hall.
        remember (arr_power (c !!! (cell_num - 1)%nat)) as p eqn:Hp. clear Hp.
        rewrite Hc in Hall. apply Forall_app in Hall as [Hall _].
        apply Forall_app in Hall as [Hh Hlw].
        apply Forall_app. split; [|constructor; [simpl; lia|]];
          (eapply Forall_impl; [eassumption|simpl; lia]).
    + rewrite Hc in Hcnt. pose proof (count_above_le (hi ++ lo)).
      rewrite !count_above_app, !count_above_cons in *. simpl in *.
      unfold count_above in Hcnt at 3. simpl in Hcnt.
      unfold one_if_valid in *.
      destruct (decide (DB_MIN_VAL < arr_power (c !!! (cell_num - 1)%nat))); [done|].
      destruct (decide (DB_MIN_VAL < f_in)); lia.
Qed.

End Counting.

Section PointFold.

Variable DB_MIN_VAL : Z.
Variable cell_num : nat.
Hypothesis cell_num_pos : (1 ≤ cell_num)%nat.

Lemma count_valid_cons (f : Z) (rs : list Z) :
  count_valid DB_MIN_VAL (f :: rs)
  = (one_if_valid DB_MIN_VAL f + count_valid DB_MIN_VAL rs)%nat.
Proof.
  unfold count_valid, one_if_valid. rewrite filter_cons.
  by destruct (decide (DB_MIN_VAL < f)).
Qed.

Lemma rank_from_inv (rs : list Z) :
  ∀ (m : nat) (c : column) (cm n : nat),
    ranked cell_num m c →
    ((cell_num ≤ m)%nat → cm = (cell_num - 1)%nat) →
    count_above DB_MIN_VAL (take (cell_num `min` m) c) = (cell_num `min` n)%nat →
    let c' := (rank_from cell_num m rs (c, cm)).1 in
    ranked cell_num (m + length rs) c'
    ∧ count_above DB_MIN_VAL (take (cell_num `min` (m + length rs)) c')
      = (cell_num `min` (n + count_valid DB_MIN_VAL rs))%nat.
Proof.
  induction rs as [|f rs IH]; intros m c cm n Hr Hcm Hcnt; simpl.
  - rewrite !Nat.add_0_r. done.
  - destruct (rank_point_case cell_num m f cm c cell_num_pos (ranked_length _ _ _ Hr) Hcm)
      as [Hcase Hcm'].
    destruct (rank_point cell_num m f cm c) as [c1 cm1]. simpl in *.
    destruct (IH (S m) c1 cm1 (n + one_if_valid DB_MIN_VAL f)%nat) as [H1 H2].
    + by eapply rank_case_ranked.
    + intros HS. subst cm1. destruct (m <? cell_num)%nat eqn:Hlt.
      * apply Nat.ltb_lt in Hlt. lia.
      * apply Nat.ltb_ge in Hlt. by apply Hcm.
    + by eapply rank_case_count.
    + rewrite count_valid_cons. replace (m + S (length rs))%nat with (S m + length rs)%nat by lia.
      split; [done|]. rewrite H2. f_equal. lia.
Qed.

Lemma rank_readings_ranked (rs : list Z) :
  ranked cell_num (length rs) (rank_readings cell_num rs).
Proof.
  unfold rank_readings.
  destruct (rank_from_inv rs 0 (column_init cell_num) 0 0) as [H _];
    [apply ranked_init | lia | by rewrite Nat.min_0_r | done].
Qed.

Lemma rank_readings_count (rs : list Z) :
  count_above DB_MIN_VAL (take (cell_num `min` length rs) (rank_readings cell_num rs))
  = (cell_num `min` count_valid DB_MIN_VAL rs)%nat.
Proof.
  unfold rank_readings.
  destruct (rank_from_inv rs 0 (column_init cell_num) 0 0) as [_ H];
    [apply ranked_init | lia | by rewrite Nat.min_0_r | done].
Qed.

End PointFold.

(** ** Strings and records *)

Lemma append_cons (a : Ascii.ascii) (s1 s2 : string) :
  String a s1 +:+ s2 = String a (s1 +:+ s2).
Proof. reflexivity. Qed.

Lemma append_assoc (s1 s2 s3 : string) : (s1 +:+ s2) +:+ s3 = s1 +:+ (s2 +:+ s3).
Proof. induction s1 as [|a s1 IH]; [done|]. rewrite !append_cons. by f_equal. Qed.

Lemma append_nil_r (s : string) : s +:+ EmptyString = s.
Proof. induction s as [|a s IH]; [done|]. rewrite append_cons. by f_equal. Qed.

Section PersistenceLemmas.

Variable DB_MIN_VAL : Z.
Variable printf_f2 : Z → string.

Lemma foldl_append (f : nat → string) (l : list nat) (s : string) :
  foldl (λ s i, s +:+ f i) s l = s +:+ foldl (λ s i, s +:+ f i) EmptyString l.
Proof.
  induction l as [|i l IH] using rev_ind; [by rewrite append_nil_r|].
  rewrite !foldl_snoc. rewrite IH. by rewrite append_assoc.
Qed.

Lemma append_record_text (a : fill_args) (row col : nat) (s : string) :
  append_record printf_f2 a row col s = s +:+ record_text printf_f2 a row col.
Proof.
  unfold record_text, append_record. cbv zeta.
  rewrite (foldl_append _ _ (s +:+ _)), (foldl_append _ _ (EmptyString +:+ _)).
  simpl. by rewrite !append_assoc.
Qed.

Lemma insert_text_snoc (tbl : string) (p : list string) (r : string) :
  insert_text tbl (p ++ [r])
  = if decide (p = []) then "INSERT INTO " +:+ tbl +:+ " VALUES (" +:+ r +:+ ")"
    else insert_text tbl p +:+ " ,(" +:+ r +:+ ")".
Proof.
  destruct p as [|r0 p]; [done|]. simpl. by rewrite foldl_snoc.
Qed.

(** *** The file strategies *)

Lemma fill_cell_csv (g : strategy) (a : fill_args) (row col : nat) (fs : fill_state) :
  csv2db g = true →
  written (fill_cell DB_MIN_VAL printf_f2 g a row col fs)
  = written fs ++ (if not_null DB_MIN_VAL a row col
                   then [LineWritten (record_text printf_f2 a row col)] else []).
Proof.
  intros Hg. unfold fill_cell. rewrite Hg. simpl.
  destruct (not_null DB_MIN_VAL a row col); simpl.
  - by rewrite append_record_text.
  - by rewrite app_nil_r.
Qed.

Lemma filter_seq_snoc (P : nat → Prop) `{!∀ x, Decision (P x)} (a n : nat) :
  filter P (seq a (S n)) = filter P (seq a n) ++ (if decide (P (a + n)%nat) then [(a + n)%nat] else []).
Proof.
  by rewrite seq_S, filter_app.
Qed.

Lemma fill_cols_csv (g : strategy) (a : fill_args) (row : nat) (fs : fill_state) (n : nat) :
  csv2db g = true →
  written (foldl (λ fs col, fill_cell DB_MIN_VAL printf_f2 g a row col fs) fs (seq 0 n))
  = written fs ++ (LineWritten <$> (record_text printf_f2 a row
      <$> filter (λ col, not_null DB_MIN_VAL a row col = true) (seq 0 n))).
Proof.
  intros Hg. induction n as [|n IH]; [by rewrite app_nil_r|].
  rewrite seq_S, foldl_app, <- seq_S. simpl foldl. rewrite fill_cell_csv by done. rewrite IH.
  rewrite filter_seq_snoc, !fmap_app, app_assoc. f_equal. simpl.
  destruct (not_null DB_MIN_VAL a row n); by destruct (decide _).
Qed.

Lemma fill_rows_fold (g : strategy) (a : fill_args) (ev : nat → list event) :
  (∀ fs row, written (fill_row DB_MIN_VAL printf_f2 g a fs row) = written fs ++ ev row) →
  ∀ n fs, written (foldl (fill_row DB_MIN_VAL printf_f2 g a) fs (seq 0 n))
          = written fs ++ (seq 0 n ≫= ev).
Proof.
  intros Hrow n. induction n as [|n IH]; intros fs; [by rewrite app_nil_r|].
  rewrite seq_S, foldl_app, bind_app. simpl. rewrite Hrow, IH.
  by rewrite app_nil_r, app_assoc.
Qed.

Lemma fmap_bind_list {A B C : Type} (f : B → C) (h : A → list B) (l : list A) :
  f <$> (l ≫= h) = l ≫= (λ x, f <$> h x).
Proof.
  induction l as [|x l IH]; [done|]. by rewrite !bind_cons, fmap_app, IH.
Qed.

Lemma fill_rows_csv (g : strategy) (a : fill_args) :
  csv2db g = true → fill_rows DB_MIN_VAL printf_f2 g a = LineWritten <$> records DB_MIN_VAL printf_f2 a.
Proof.
  intros Hg. unfold fill_rows.
  rewrite (fill_rows_fold g a (λ row, LineWritten <$> row_records DB_MIN_VAL printf_f2 a row)).
  - simpl. unfold records. by rewrite fmap_bind_list.
  - intros fs row. unfold fill_row. by rewrite fill_cols_csv.
Qed.

(** *** The INSERT strategies *)

Lemma fill_cell_insert (g : strategy) (a : fill_args) (row col : nat) (fs : fill_state)
  (buf : list string) :
  csv2db g = false →
  length buf = SQLrowcnt fs →
  (buf ≠ [] → sql fs = insert_text (fa_tbl_name a) buf) →
  (buf ≠ [] → length buf ≠ SQLPacketSize g) →
  let buf' := if not_null DB_MIN_VAL a row col
              then buf ++ [record_text printf_f2 a row col] else buf in
  let flush := bool_decide (buf' ≠ [])
               && ((length buf' =? SQLPacketSize g)%nat || (col + 1 =? fa_ncols a)%nat) in
  let fs' := fill_cell DB_MIN_VAL printf_f2 g a row col fs in
  written fs' = written fs ++ (if flush then [exec_insert a buf'] else [])
  ∧ SQLrowcnt fs' = (if flush then 0%nat else length buf')
  ∧ (flush = false → buf' ≠ [] → sql fs' = insert_text (fa_tbl_name a) buf').
Proof.
  intros Hg Hlen Hsql HN buf' flush fs'. subst buf' flush fs'.
  unfold fill_cell. rewrite Hg. cbn [negb andb].
  destruct (not_null DB_MIN_VAL a row col).
  - cbn [sql SQLrowcnt written].
    assert (bool_decide (buf ++ [record_text printf_f2 a row col] ≠ []) = true) as ->.
    { apply bool_decide_eq_true. by destruct buf. }
    assert ((0 <? S (SQLrowcnt fs))%nat = true) as -> by done.
    assert (length (buf ++ [record_text printf_f2 a row col]) = S (SQLrowcnt fs)) as ->
      by (rewrite length_app; simpl; lia).
    assert (append_record printf_f2 a row col
              (if (SQLrowcnt fs =? 0)%nat
               then "INSERT INTO " +:+ fa_tbl_name a +:+ " VALUES ("
               else sql fs +:+ " ,(") +:+ ")"
            = insert_text (fa_tbl_name a) (buf ++ [record_text printf_f2 a row col])) as ->.
    { rewrite append_record_text, insert_text_snoc.
      destruct buf as [|r0 buf]; simpl in Hlen.
      - rewrite <- Hlen. cbn [Nat.eqb]. rewrite decide_True by done.
        by rewrite !append_assoc.
      - rewrite <- Hlen. cbn [length Nat.eqb].
        rewrite decide_False by done. rewrite Hsql by done.
        by rewrite !append_assoc. }
    cbn [andb].
    destruct ((S (SQLrowcnt fs) =? SQLPacketSize g)%nat || (col + 1 =? fa_ncols a)%nat);
      cbn [sql SQLrowcnt written].
    + unfold exec_insert. rewrite length_app. simpl.
      rewrite Hlen, Nat.add_1_r. done.
    + by rewrite app_nil_r.
  - destruct buf as [|r0 buf].
    + simpl in Hlen. rewrite <- Hlen. simpl. by rewrite app_nil_r.
    + assert (bool_decide (r0 :: buf ≠ []) = true) as ->
        by (by apply bool_decide_eq_true).
      rewrite <- Hlen.
      assert ((0 <? length (r0 :: buf))%nat = true) as -> by done.
      cbn [andb].
      destruct ((length (r0 :: buf) =? SQLPacketSize g)%nat
                || (col + 1 =? fa_ncols a)%nat); cbn [sql SQLrowcnt written].
      * unfold exec_insert. rewrite Hsql by done. done.
      * rewrite app_nil_r. split_and!; [done|done|]. intros _ _. by apply Hsql.
Qed.

Lemma fill_cols_insert (g : strategy) (a : fill_args) (row : nat) :
  csv2db g = false →
  ∀ (n a0 : nat) (fs : fill_state) (buf : list string),
    (a0 + n)%nat = fa_ncols a →
    length buf = SQLrowcnt fs →
    (buf ≠ [] → sql fs = insert_text (fa_tbl_name a) buf) →
    (buf ≠ [] → length buf ≠ SQLPacketSize g) →
    (n = 0%nat → buf = []) →
    written (foldl (λ fs col, fill_cell DB_MIN_VAL printf_f2 g a row col fs) fs (seq a0 n))
    = written fs
      ++ (exec_insert a <$> packets (SQLPacketSize g) buf
            (record_text printf_f2 a row
               <$> filter (λ col, not_null DB_MIN_VAL a row col = true) (seq a0 n))).
Proof.
  intros Hg n. induction n as [|n IH]; intros a0 fs buf Ha Hlen Hsql HN H0.
  - rewrite (H0 eq_refl). simpl. by rewrite app_nil_r.
  - cbn [seq foldl].
    destruct (fill_cell_insert g a row a0 fs buf Hg Hlen Hsql HN) as (Hw & Hc & Hs).
    set (fs' := fill_cell DB_MIN_VAL printf_f2 g a row a0 fs) in *. clearbody fs'.
    rewrite filter_cons.
    destruct (not_null DB_MIN_VAL a row a0) eqn:Hnn.
    + rewrite decide_True by done. rewrite fmap_cons. cbn [packets].
      set (buf' := buf ++ [record_text printf_f2 a row a0]) in *.
      assert (bool_decide (buf' ≠ []) = true) as Hne.
      { apply bool_decide_eq_true. subst buf'. by destruct buf. }
      rewrite Hne in *. cbn [andb] in *.
      destruct (length buf' =? SQLPacketSize g)%nat eqn:HeqN.
      * cbn [orb] in *.
        rewrite (IH (S a0) fs' []); [|lia|done|done|done|done].
        rewrite Hw, fmap_cons. by rewrite <- app_assoc.
      * cbn [orb] in *. destruct (a0 + 1 =? fa_ncols a)%nat eqn:Hlast.
        -- apply Nat.eqb_eq in Hlast. assert (n = 0)%nat as -> by lia.
           simpl. rewrite Hw. f_equal. subst buf'. by destruct buf.
        -- apply Nat.eqb_neq in Hlast, HeqN.
           rewrite (IH (S a0) fs' buf'); [|lia|done| |done|lia].
           ++ rewrite Hw. by rewrite app_nil_r.
           ++ intros Hb. apply Hs; [done|]. subst buf'. by destruct buf.
    + rewrite decide_False by done.
      destruct (decide (buf = [])) as [->|Hb].
      * simpl in Hw, Hc. rewrite app_nil_r in Hw.
        rewrite (IH (S a0) fs' []); [|lia|done|done|done|done]. by rewrite Hw.
      * assert (bool_decide (buf ≠ []) = true) as Hne by (by apply bool_decide_eq_true).
        rewrite Hne in *. cbn [andb] in *.
        assert ((length buf =? SQLPacketSize g)%nat = false) as HeqN
          by (apply Nat.eqb_neq; by apply HN).
        rewrite HeqN in *. cbn [orb] in *.
        destruct (a0 + 1 =? fa_ncols a)%nat eqn:Hlast.
        -- apply Nat.eqb_eq in Hlast. assert (n = 0)%nat as -> by lia.
           simpl. rewrite Hw. f_equal. by destruct buf.
        -- apply Nat.eqb_neq in Hlast.
           rewrite (IH (S a0) fs' buf); [|lia|done| |done|lia].
           ++ rewrite Hw. by rewrite app_nil_r.
           ++ intros _. by apply Hs.
Qed.

Lemma fill_rows_insert (g : strategy) (a : fill_args) :
  csv2db g = false →
  fill_rows DB_MIN_VAL printf_f2 g a
  = seq 0 (fa_nrows a) ≫= row_statements DB_MIN_VAL printf_f2 (SQLPacketSize g) a.
Proof.
  intros Hg. unfold fill_rows.
  rewrite (fill_rows_fold g a (row_statements DB_MIN_VAL printf_f2 (SQLPacketSize g) a)); [done|].
  intros fs row. unfold fill_row.
  destruct (decide (fa_ncols a = 0)%nat) as [Hz|Hz].
  - unfold row_statements, row_records, persisted_cols. rewrite Hz. simpl.
    by rewrite app_nil_r.
  - rewrite (fill_cols_insert g a row Hg (fa_ncols a) 0 _ []); try done.
Qed.

(** The scan of the grid is its specification. *)
Lemma fill_rows_spec (g : strategy) (a : fill_args) :
  fill_rows DB_MIN_VAL printf_f2 g a = expected_rows DB_MIN_VAL printf_f2 g a.
Proof.
  unfold expected_rows. destruct (csv2db g) eqn:Hg.
  - by apply fill_rows_csv.
  - by apply fill_rows_insert.
Qed.

End PersistenceLemmas.

(** ** Packets *)

Lemma packets_join {A : Type} (N : nat) (l : list A) :
  ∀ buf, mjoin (packets N buf l) = buf ++ l.
Proof.
  induction l as [|x l IH]; intros buf; simpl.
  - destruct buf; simpl; by rewrite ?app_nil_r.
  - destruct (_ =? N)%nat; simpl; rewrite IH; by rewrite <- ?app_assoc.
Qed.

Lemma packets_sizes {A : Type} (N : nat) (l : list A) :
  ∀ buf, (length buf < N)%nat →
    length <$> packets N buf l = batch_sizes N (length buf + length l).
Proof.
  induction l as [|x l IH]; intros buf Hb; cbn [packets].
  - unfold batch_sizes. simpl length. rewrite Nat.add_0_r.
    rewrite Nat.div_small, Nat.mod_small by done.
    destruct buf as [|b buf]; [done|]. simpl. done.
  - rewrite length_app. simpl length.
    destruct (length buf + 1 =? N)%nat eqn:HeqN.
    + apply Nat.eqb_eq in HeqN. rewrite fmap_cons, (IH []) by (simpl; lia).
      rewrite length_app. simpl length. unfold batch_sizes.
      replace (length buf + S (length l))%nat with (length l + 1 * N)%nat by lia.
      rewrite Nat.div_add, Nat.Div0.mod_add by lia.
      rewrite HeqN, (Nat.add_1_r (_ `div` _)). done.
    + apply Nat.eqb_neq in HeqN.
      rewrite (IH (buf ++ [x])) by (rewrite length_app; simpl; lia).
      rewrite length_app. simpl. f_equal. lia.
Qed.

Lemma packets_singletons {A : Type} (l : list A) :
  packets 1 [] l = (λ x, [x]) <$> l.
Proof. induction l as [|x l IH]; [done|]. simpl. by rewrite IH. Qed.

Lemma batch_sizes_length (N t : nat) :
  (1 ≤ N)%nat → length (batch_sizes N t) = ceil_div t N.
Proof.
  intros HN. unfold batch_sizes, ceil_div.
  rewrite length_app, length_replicate.
  pose proof (Nat.div_mod_eq t N) as Hdm.
  pose proof (Nat.mod_upper_bound t N ltac:(lia)) as Hlt.
  destruct (t mod N =? 0)%nat eqn:Hz; simpl.
  - apply Nat.eqb_eq in Hz. rewrite Nat.add_0_r.
    apply (Nat.div_unique _ _ _ (N - 1)); nia.
  - apply Nat.eqb_neq in Hz.
    apply (Nat.div_unique _ _ _ (t mod N - 1)); nia.
Qed.

Lemma batch_sizes_bounds (N t n : nat) :
  (1 ≤ N)%nat → n ∈ batch_sizes N t → (1 ≤ n ≤ N)%nat.
Proof.
  intros HN. unfold batch_sizes. rewrite elem_of_app.
  pose proof (Nat.mod_upper_bound t N ltac:(lia)) as Hlt.
  intros [Hin|Hin].
  - apply elem_of_replicate in Hin as [-> _]. lia.
  - destruct (t mod N =? 0)%nat eqn:Hz; [by apply elem_of_nil in Hin|].
    apply Nat.eqb_neq in Hz. apply list_elem_of_singleton in Hin. lia.
Qed.

Section Strategies.

Variable DB_MIN_VAL : Z.
Variable printf_f2 : Z → string.

Lemma select_csv (db_perf : Z) :
  select_strategy "csv" db_perf = Strategy true true 0.
Proof. reflexivity. Qed.

Lemma select_row_at_a_time (drv_name : string) (db_perf : Z) :
  drv_name = "dbf" ∨ drv_name = "sqlite" →
  select_strategy drv_name db_perf = Strategy false false 1.
Proof. intros [-> | ->]; reflexivity. Qed.

Lemma select_batched (drv_name : string) (db_perf : Z) :
  drv_name ≠ "csv" → drv_name ≠ "dbf" → drv_name ≠ "sqlite" →
  0 ≤ db_perf < 99 →
  select_strategy drv_name db_perf = Strategy false false (Z.to_nat db_perf).
Proof.
  intros H1 H2 H3 Hp. unfold select_strategy.
  rewrite !bool_decide_eq_false_2 by done. simpl.
  assert ((0 <=? db_perf) = true) as -> by lia.
  assert ((db_perf <? 99) = true) as -> by lia. done.
Qed.

Lemma select_staged (drv_name : string) (db_perf : Z) :
  drv_name ≠ "csv" → drv_name ≠ "dbf" → drv_name ≠ "sqlite" →
  ¬ (0 ≤ db_perf < 99) →
  select_strategy drv_name db_perf = Strategy false true 1.
Proof.
  intros H1 H2 H3 Hp. unfold select_strategy.
  rewrite !bool_decide_eq_false_2 by done. simpl.
  destruct (0 <=? db_perf) eqn:E1; [|done].
  destruct (db_perf <? 99) eqn:E2; [lia|done].
Qed.

(** The trace of [fill_database] under the INSERT strategies. *)
Lemma fill_database_insert (e : env) (drv_name : string) (db_perf : Z) (a : fill_args) :
  csv2db (select_strategy drv_name db_perf) = false →
  fill_database DB_MIN_VAL printf_f2 e drv_name db_perf a
  = (TransactionBegun
       :: (seq 0 (fa_nrows a)
             ≫= row_statements DB_MIN_VAL printf_f2
                  (SQLPacketSize (select_strategy drv_name db_perf)) a)
       ++ [TransactionCommitted],
     Done tt).
Proof.
  intros Hg. unfold fill_database, open_sink, close_sink.
  rewrite fill_rows_spec. unfold expected_rows. rewrite Hg. reflexivity.
Qed.

(** ... with the csv driver ... *)
Lemma fill_database_csv (e : env) (db_perf : Z) (a : fill_args) :
  fill_database DB_MIN_VAL printf_f2 e "csv" db_perf a
  = if csv_exists e && negb (fa_ovr a)
    then ([], Fatal "Output csv file already exists! ")
    else (FileOpened (fa_tbl_name a)
            :: (LineWritten <$> records DB_MIN_VAL printf_f2 a) ++ [FileClosed],
          Done tt).
Proof.
  unfold fill_database, open_sink, close_sink.
  rewrite fill_rows_spec, select_csv. unfold expected_rows. cbn [csv2db csv_only negb].
  destruct (csv_exists e && negb (fa_ovr a)); reflexivity.
Qed.

(** ... and under the staged bulk load. *)
Lemma fill_database_staged (e : env) (drv_name : string) (db_perf : Z) (a : fill_args) :
  select_strategy drv_name db_perf = Strategy false true 1 →
  fill_database DB_MIN_VAL printf_f2 e drv_name db_perf a
  = match load_statement e drv_name a with
    | Some stmt => (staged_scan DB_MIN_VAL printf_f2 e a ++ [ExecLoad stmt; FileClosed], Done tt)
    | None => (staged_scan DB_MIN_VAL printf_f2 e a,
               Fatal ("dbperf=99 not supported for the database driver '"
                      +:+ drv_name +:+ "' ! "))
    end.
Proof.
  intros Hg. unfold fill_database, open_sink, close_sink, load_statement, staged_scan.
  rewrite fill_rows_spec, Hg. unfold expected_rows. cbn [csv2db csv_only negb].
  destruct (bool_decide (drv_name = "mysql")); [|destruct (bool_decide (drv_name = "pg"))];
    cbn; rewrite <- ?app_assoc; reflexivity.
Qed.

End Strategies.

(** ** The raster pass *)



Section RasterLemmas.

Variable DB_MIN_VAL : Z.
Variable sum_dBm : list Z → Z.
Variable PdBm2LteThroughput : lte_output → Z → Z → Z.

Variable cfg : config.
Variable arr : list column.
Variable srcs : list source.

Lemma out_cell_fields (row col : nat) (os : out_state) :
  out_cell DB_MIN_VAL sum_dBm PdBm2LteThroughput cfg arr srcs row col os
  = OutState
      (<[(row * ncols cfg + col)%nat := EcNo_at DB_MIN_VAL sum_dBm (ncols cfg) arr srcs row col]>
         (arr_EcNo os))
      (<[col := raster_cell DB_MIN_VAL sum_dBm PdBm2LteThroughput cfg arr srcs row col]>
         (outrast os))
      (put os).
Proof. reflexivity. Qed.

Lemma out_cols (row : nat) (os : out_state) (k : nat) :
  (k ≤ length (outrast os))%nat →
  let os' := foldl (λ os col, out_cell DB_MIN_VAL sum_dBm PdBm2LteThroughput
                                cfg arr srcs row col os) os (seq 0 k) in
  put os' = put os
  ∧ outrast os'
    = (raster_cell DB_MIN_VAL sum_dBm PdBm2LteThroughput cfg arr srcs row <$> seq 0 k)
      ++ drop k (outrast os)
  ∧ arr_EcNo os'
    = foldl (λ l col, <[(row * ncols cfg + col)%nat :=
                         EcNo_at DB_MIN_VAL sum_dBm (ncols cfg) arr srcs row col]> l)
        (arr_EcNo os) (seq 0 k).
Proof.
  intros Hk os'. subst os'. induction k as [|k IH]; [done|].
  rewrite seq_S, !foldl_app, fmap_app. cbn [foldl fmap list_fmap].
  rewrite out_cell_fields. cbn [put outrast arr_EcNo]. change (0 + k)%nat with k.
  destruct IH as (H1 & H2 & H3); [lia|].
  split_and!; [done| |by rewrite H3].
  rewrite H2.
  rewrite insert_app_r_alt by (rewrite length_fmap, length_seq; lia).
  rewrite length_fmap, length_seq, Nat.sub_diag, <- app_assoc. f_equal.
  destruct (drop k (outrast os)) as [|x l] eqn:Hd.
  - apply (f_equal length) in Hd. rewrite length_drop in Hd. simpl in Hd. lia.
  - simpl. f_equal.
    replace (S k) with (k + 1)%nat by lia. by rewrite <- drop_drop, Hd.
Qed.

Lemma out_rows (n : nat) :
  let os := foldl (out_row DB_MIN_VAL sum_dBm PdBm2LteThroughput cfg arr srcs)
              (OutState (replicate (nrows cfg * ncols cfg) 0)
                 (replicate (ncols cfg) None) [])
              (seq 0 n) in
  length (outrast os) = ncols cfg
  ∧ put os
    = (λ row, RasterRow (raster_cell DB_MIN_VAL sum_dBm PdBm2LteThroughput cfg arr srcs row
                           <$> seq 0 (ncols cfg))) <$> seq 0 n
  ∧ arr_EcNo os
    = foldl (λ l row,
               foldl (λ l col, <[(row * ncols cfg + col)%nat :=
                                  EcNo_at DB_MIN_VAL sum_dBm (ncols cfg) arr srcs row col]> l)
                 l (seq 0 (ncols cfg)))
        (replicate (nrows cfg * ncols cfg) 0) (seq 0 n).
Proof.
  induction n as [|n IH]; intros os; subst os.
  - simpl. by rewrite length_replicate.
  - rewrite seq_S, !foldl_app, fmap_app. cbn [foldl fmap list_fmap].
    change (0 + n)%nat with n.
    destruct IH as (H1 & H2 & H3).
    set (os := foldl _ _ (seq 0 n)) in *. clearbody os.
    unfold out_row.
    destruct (out_cols n os (ncols cfg)) as (P1 & P2 & P3); [lia|].
    cbn [put outrast arr_EcNo]. rewrite P1, P2, P3, H2, H3.
    rewrite drop_ge, app_nil_r by lia.
    split_and!; [by rewrite length_fmap, length_seq|done|done].
Qed.

(** The raster rows handed to [Rast_put_row]. *)
Lemma write_raster_put :
  put (write_raster DB_MIN_VAL sum_dBm PdBm2LteThroughput cfg arr srcs)
  = (λ row, RasterRow (raster_cell DB_MIN_VAL sum_dBm PdBm2LteThroughput cfg arr srcs row
                         <$> seq 0 (ncols cfg))) <$> seq 0 (nrows cfg).
Proof. unfold write_raster. by destruct (out_rows (nrows cfg)) as (_ & H & _). Qed.




End RasterLemmas.

(** ** The stages of main *)


Lemma create_table_run (e : env) (drv_name tbl_name : string) (cell_num : nat) (ovr : bool) :
  create_table e drv_name tbl_name cell_num ovr
  = if table_exists e && negb ovr
    then ([], Fatal ("Table <" +:+ tbl_name +:+ "> already exists"))
    else (create_table_events e drv_name tbl_name cell_num ovr, Done tt).
Proof.
  unfold create_table, create_table_events.
  destruct (table_exists e), ovr, (bool_decide (drv_name = "pg")); reflexivity.
Qed.

Lemma cell_columns_length (l : list nat) :
  ∀ tc, length (foldl (λ tc i, cell_columns i tc) tc l).1 = length tc.1.
Proof.
  induction l as [|i l IH]; intros [t c]; [done|].
  simpl. rewrite IH. simpl. by rewrite !length_insert.
Qed.

Lemma table_columns_length (cell_num : nat) :
  length (table_columns cell_num) = (4 * cell_num + 4)%nat.
Proof.
  unfold table_columns.
  pose proof (cell_columns_length (seq 1 cell_num)
    (<[2%nat:=DbColumn "resolution" DB_SQL_TYPE_INTEGER 4]>
       (<[1%nat:=DbColumn "y" DB_SQL_TYPE_INTEGER 6]>
          (<[0%nat:=DbColumn "x" DB_SQL_TYPE_INTEGER 6]>
             (db_alloc_table (4 * cell_num + 4)))), 3%nat)) as H.
  destruct (foldl _ _ _) as [t c]. simpl in H.
  rewrite length_insert, H, !length_insert. apply length_replicate.
Qed.

Section MainLemmas.

Variable DB_MIN_VAL : Z.
Variable printf_f2 : Z → string.
Variable sum_dBm : list Z → Z.
Variable PdBm2LteThroughput : lte_output → Z → Z → Z.


(** The trace of [main] in terms of its three stages. *)
Lemma main_run (e : env) (cfg : config) (srcs : list source) :
  srcs ≠ [] →
  main DB_MIN_VAL printf_f2 sum_dBm PdBm2LteThroughput e cfg srcs
  = match prepare_table e cfg (length srcs) with
    | (t, Fatal m) =>
        (Message ("Processing " +:+ pretty (length srcs) +:+ " cells...") :: t, Fatal m)
    | (t, Done K) =>
        let arr := columns (ingest DB_MIN_VAL K (nrows cfg) (ncols cfg) srcs) in
        let os := write_raster DB_MIN_VAL sum_dBm PdBm2LteThroughput cfg arr srcs in
        let w := write_table DB_MIN_VAL printf_f2 e cfg srcs K arr (arr_EcNo os) in
        (Message ("Processing " +:+ pretty (length srcs) +:+ " cells...") :: t
           ++ [RasterOpened (outraster_name cfg);
               Message "Sorting receive power values";
               Message "Finished sorting receive power values"]
           ++ put os ++ [RasterClosed] ++ events w,
         result w)
    end.
Proof.
  intros Hne. unfold main. destruct srcs as [|s srcs]; [done|].
  cbn [length Nat.eqb].
  destruct (prepare_table e cfg (S (length srcs))) as [t [K|m]]; cbn; [|done].
  destruct (write_table _ _ _ _ _ _ _ _) as [t2 r]. cbn.
  by rewrite <- ?app_assoc.
Qed.

Lemma prepare_table_run (e : env) (cfg : config) (map_number : nat) :
  prepare_table e cfg map_number
  = let K := tweak_cell_num (cell_num cfg) map_number in
    if bool_decide (drv_name cfg = "none") then ([], Done 1%nat)
    else if bool_decide (drv_name cfg = "csv") then ([], Done K)
    else if table_exists e && negb (ovr cfg)
         then ([], Fatal ("Table <" +:+ tbl_name cfg +:+ "> already exists"))
         else (create_table_events e (drv_name cfg) (tbl_name cfg) K (ovr cfg), Done K).
Proof.
  unfold prepare_table. rewrite create_table_run.
  destruct (bool_decide (drv_name cfg = "none")) eqn:E1;
    destruct (bool_decide (drv_name cfg = "csv")) eqn:E2; cbn; try done.
  destruct (table_exists e && negb (ovr cfg)); cbn; by rewrite ?app_nil_r.
Qed.

End MainLemmas.

(** ** More on columns *)

Lemma rank_from_app (cell_num : nat) (l1 l2 : list Z) :
  ∀ (map : nat) (cc : column * nat),
    rank_from cell_num map (l1 ++ l2) cc
    = rank_from cell_num (map + length l1) l2 (rank_from cell_num map l1 cc).
Proof.
  induction l1 as [|f l1 IH]; intros map cc; simpl.
  - by rewrite Nat.add_0_r.
  - rewrite IH. f_equal. lia.
Qed.

Lemma ingest_from_app (DB_MIN_VAL : Z) (cell_num nrows ncols : nat) (l1 l2 : list source) :
  ∀ (map : nat) (st : rank_state),
    ingest_from DB_MIN_VAL cell_num nrows ncols map (l1 ++ l2) st
    = ingest_from DB_MIN_VAL cell_num nrows ncols (map + length l1) l2
        (ingest_from DB_MIN_VAL cell_num nrows ncols map l1 st).
Proof.
  induction l1 as [|s l1 IH]; intros map st; simpl.
  - by rewrite Nat.add_0_r.
  - rewrite IH. f_equal. lia.
Qed.

Lemma descending_above_last (hi : list entry) (f : Z) :
  descending hi → (∀ a, last hi = Some a → f ≤ arr_power a) →
  Forall (λ a, f ≤ arr_power a) hi.
Proof.
  intros Hs Hl. destruct (last hi) as [a|] eqn:Ha.
  - specialize (Hl a eq_refl). apply last_Some in Ha as [hi' ->].
    apply StronglySorted_app in Hs as (Hx & _ & _).
    apply Forall_app. split; [|by constructor].
    apply Forall_forall. intros b Hb.
    specialize (Hx b a Hb ltac:(by apply list_elem_of_singleton)).
    unfold ge_power in Hx. lia.
  - apply last_None in Ha. subst. constructor.
Qed.

Lemma column_split_last (c : column) (i : nat) :
  length c = S i → c = take i c ++ [c !!! i].
Proof.
  intros Hlen. rewrite <- (take_drop i c) at 1. f_equal.
  rewrite <- (take_drop_middle c i (c !!! i)) at 1
    by (apply list_lookup_lookup_total_lt; lia).
  rewrite drop_app_length' by (rewrite length_take_le; lia).
  f_equal. apply drop_ge. lia.
Qed.


(** * The ranking claims *)

(** The example of the specification: [K = 2], readings -80, -60, -95. *)
Example ranking_example :
  columns (ingest (-999) 2 1 1
    [Source "a" 1 0 "m" [[Some 80]]; Source "b" 2 0 "m" [[Some 60]];
     Source "c" 3 0 "m" [[Some 95]]])
  = [[Entry (-60) 1; Entry (-80) 0]].
Proof. reflexivity. Qed.

(** C1 (as amended).  A reading that meets a full column is discarded
    only if it is strictly below the last slot.  A reading equal to the
    last slot overwrites that slot in place; a greater one overwrites
    it and moves up past the entries strictly below it.  The column
    stays sorted. *)
Theorem full_column_insert (cell_num map : nat) (f_in : Z) (c : column) :
  (1 ≤ cell_num)%nat → (cell_num ≤ map)%nat → length c = cell_num → descending c →
  let last_slot := (cell_num - 1)%nat in
  let c' := (rank_point cell_num map f_in last_slot c).1 in
  (f_in < arr_power (c !!! last_slot) → c' = c)
  ∧ (f_in = arr_power (c !!! last_slot) → c' = <[last_slot := Entry f_in map]> c)
  ∧ (arr_power (c !!! last_slot) ≤ f_in →
     ∃ hi lo, take last_slot c = hi ++ lo
       ∧ c' = hi ++ Entry f_in map :: lo
       ∧ Forall (λ a, f_in ≤ arr_power a) hi
       ∧ Forall (λ b, arr_power b < f_in) lo)
  ∧ descending c' ∧ length c' = cell_num.
Proof.
  intros HK Hmap Hlen Hs last_slot c'. subst last_slot c'.
  destruct (rank_point_case cell_num map f_in (cell_num - 1) c HK Hlen ltac:(done))
    as [Hcase _].
  assert (ranked cell_num map c) as Hr.
  { split; rewrite ?Nat.min_l by lia; [done|by rewrite take_ge by lia|].
    by rewrite drop_ge, Nat.sub_diag by lia. }
  pose proof (rank_case_ranked cell_num map f_in c _ HK Hr Hcase) as [Hl' Hs' _].
  rewrite Nat.min_l, take_ge in Hs' by lia.
  set (c' := (rank_point cell_num map f_in (cell_num - 1) c).1) in *. clearbody c'.
  pose proof (column_split_last c (cell_num - 1) ltac:(lia)) as Hc.
  pose proof (descending_last c (cell_num - 1) Hs ltac:(lia)) as Hall.
  assert (∀ i, (cell_num - 1)%nat = i →
    (f_in < arr_power (c !!! i) → c' = c)
    ∧ (f_in = arr_power (c !!! i) → c' = <[i := Entry f_in map]> c)
    ∧ (arr_power (c !!! i) ≤ f_in →
       ∃ hi lo, take i c = hi ++ lo
         ∧ c' = hi ++ Entry f_in map :: lo
         ∧ Forall (λ a, f_in ≤ arr_power a) hi
         ∧ Forall (λ b, arr_power b < f_in) lo)) as Hgoal; [|by split_and!; try apply Hgoal].
  intros i <-.
  destruct Hcase as [hi lo Hm _ _ _ _ | Hm Hf -> | hi lo Hm Hf Ht -> Hlo Hhi]; [lia| |];
    remember (cell_num - 1)%nat as i eqn:Hi in *;
    remember (arr_power (c !!! i)) as p eqn:Hp in *.
  - split_and!; [done|intros; lia|intros; lia].
  - assert (Forall (λ a, f_in ≤ arr_power a) hi) as Hhi'.
    { apply descending_above_last; [|done].
      rewrite Hc, Ht in Hs. apply StronglySorted_app_1_l in Hs.
      by apply StronglySorted_app_1_l in Hs. }
    split_and!; [intros; lia| |eauto 10].
    intros Heq. rewrite insert_take_drop by lia.
    rewrite drop_ge by lia. rewrite Ht.
    destruct lo as [|b lo]; [by rewrite app_nil_r|].
    apply Forall_cons in Hlo as [Hb _].
    rewrite Hc, Ht in Hall.
    apply Forall_app in Hall as [Hall _]. apply Forall_app in Hall as [_ Hall].
    apply Forall_cons in Hall as [Hb' _]. lia.
Qed.

(** A reading of -70 from map 2 meets the column (-60, -80). *)
Lemma full_column_insert_witness :
  let c := [Entry (-60) 1; Entry (-80) 0] in
  (1 ≤ 2)%nat ∧ (2 ≤ 2)%nat ∧ length c = 2%nat ∧ descending c
  ∧ (∃ hi lo, take 1 c = hi ++ lo
       ∧ (rank_point 2 2 (-70) 1 c).1 = hi ++ Entry (-70) 2 :: lo
       ∧ Forall (λ a, -70 ≤ arr_power a) hi
       ∧ Forall (λ b, arr_power b < -70) lo).
Proof.
  assert (descending [Entry (-60) 1; Entry (-80) 0]) as Hs
    by (repeat constructor; unfold ge_power; simpl; lia).
  split_and!; [lia|lia|reflexivity|exact Hs|].
  destruct (full_column_insert 2 2 (-70) [Entry (-60) 1; Entry (-80) 0]
              ltac:(lia) ltac:(lia) eq_refl Hs) as (_ & _ & H & _).
  apply H. simpl. lia.
Defined.

(** C1 (as stated) fails: with [cell_num = 1] a second reading equal to
    the one in the column is not discarded; it takes the slot. *)
Lemma equal_reading_displaces :
  let c := [Entry (-80) 0] in
  ¬ (arr_power (c !!! 0%nat) < -80)
  ∧ (rank_point 1 1 (-80) 0 c).1 = [Entry (-80) 1]
  ∧ (rank_point 1 1 (-80) 0 c).1 ≠ c
  ∧ columns (ingest (-999) 1 1 1
               [Source "a" 1 0 "m" [[Some 80]]; Source "b" 2 0 "m" [[Some 80]]])
    = [[Entry (-80) 1]].
Proof. simpl. split_and!; [lia|reflexivity|intros [=]|reflexivity]. Qed.

(** C7.  After each map is read, every point's column has its first
    [min cell_num m] slots taken, sorted in descending order of power,
    and nothing beyond them: the other slots still hold the zeros of the
    allocation.  [take m srcs] are the maps read so far, and the run goes
    on from that state. *)
Theorem ranked_after_each_map (DB_MIN_VAL : Z) (cell_num nrows ncols : nat)
  (srcs : list source) (m row col : nat) :
  (1 ≤ cell_num)%nat → (row < nrows)%nat → (col < ncols)%nat → (m ≤ length srcs)%nat →
  let st := ingest DB_MIN_VAL cell_num nrows ncols (take m srcs) in
  ranked cell_num m (columns st !!! (row * ncols + col)%nat)
  ∧ ingest DB_MIN_VAL cell_num nrows ncols srcs
    = ingest_from DB_MIN_VAL cell_num nrows ncols m (drop m srcs) st.
Proof.
  intros HK Hr Hc Hm st. subst st. split.
  - rewrite ingest_point by done.
    pose proof (rank_readings_ranked DB_MIN_VAL cell_num HK
      (readings_at DB_MIN_VAL (take m srcs) row col)) as H.
    unfold readings_at in H at 1. by rewrite length_fmap, length_take_le in H.
  - unfold ingest. rewrite <- (take_drop m srcs) at 1.
    rewrite ingest_from_app, length_take_le by done. done.
Qed.

(** The example of the specification after its first two maps. *)
Lemma ranked_after_each_map_witness :
  let srcs := [Source "a" 1 0 "m" [[Some 80]]; Source "b" 2 0 "m" [[Some 60]];
               Source "c" 3 0 "m" [[Some 95]]] in
  (1 ≤ 2)%nat ∧ (0 < 1)%nat ∧ (0 < 1)%nat ∧ (2 ≤ length srcs)%nat
  ∧ ranked 2 2 (columns (ingest (-999) 2 1 1 (take 2 srcs)) !!! 0%nat).
Proof.
  split_and!; [lia|lia|lia|simpl; lia|].
  apply (ranked_after_each_map (-999) 2 1 1
           [Source "a" 1 0 "m" [[Some 80]]; Source "b" 2 0 "m" [[Some 60]];
            Source "c" 3 0 "m" [[Some 95]]] 2 0 0); simpl; lia.
Defined.

(** C2 (as amended).  Every reading of the first [cell_num] maps goes
    into the column, the no-data value included; afterwards the column
    holds [min cell_num M] entries, of which [min cell_num v] are above
    the no-data value, [v] being the number of readings above it. *)
Theorem sentinel_ranking (DB_MIN_VAL : Z) (cell_num nrows ncols : nat)
  (srcs : list source) (row col : nat) :
  (1 ≤ cell_num)%nat → (row < nrows)%nat → (col < ncols)%nat →
  let arr_ix := (row * ncols + col)%nat in
  let c := columns (ingest DB_MIN_VAL cell_num nrows ncols srcs) !!! arr_ix in
  let M := length srcs in
  ranked cell_num M c
  ∧ count_above DB_MIN_VAL (take (cell_num `min` M) c)
    = (cell_num `min` count_valid DB_MIN_VAL (readings_at DB_MIN_VAL srcs row col))%nat
  ∧ ∀ map s, srcs !! map = Some s → (map < cell_num)%nat →
      Entry (f_in_at DB_MIN_VAL s row col) map
      ∈ columns (ingest DB_MIN_VAL cell_num nrows ncols (take (S map) srcs)) !!! arr_ix.
Proof.
  intros HK Hr Hc arr_ix c M. subst arr_ix c M.
  assert (∀ l, length (readings_at DB_MIN_VAL l row col) = length l) as Hlen
    by (intros; apply length_fmap).
  split_and!.
  - rewrite ingest_point by done. rewrite <- Hlen. by apply rank_readings_ranked.
  - rewrite ingest_point by done. rewrite <- Hlen. by apply rank_readings_count.
  - intros map s Hs Hmap. rewrite ingest_point by done.
    rewrite (take_S_r _ _ _ Hs). unfold readings_at, rank_readings.
    rewrite fmap_app, rank_from_app. cbn [fmap list_fmap rank_from].
    rewrite length_fmap, length_take_le by (apply lookup_lt_Some in Hs; lia).
    pose proof (rank_readings_ranked DB_MIN_VAL cell_num HK
      (readings_at DB_MIN_VAL (take map srcs) row col)) as Hrk.
    unfold rank_readings, readings_at in Hrk.
    destruct (rank_from cell_num 0 _ _) as [c0 cm0]. cbn [fst snd] in *.
    destruct (rank_point_case cell_num (0 + map) (f_in_at DB_MIN_VAL s row col) cm0 c0 HK
                (ranked_length _ _ _ Hrk) ltac:(lia)) as [Hcase _].
    destruct Hcase as [hi lo _ _ -> _ _ | ? | ? ]; [|lia..].
    apply elem_of_app. right. by left.
Qed.

(** Three maps on one point, the second without data there. *)
Lemma sentinel_ranking_witness :
  let srcs := [Source "a" 1 0 "m" [[Some 80]]; Source "b" 2 0 "m" [[None]];
               Source "c" 3 0 "m" [[Some 95]]] in
  (1 ≤ 2)%nat ∧ (0 < 1)%nat ∧ (0 < 1)%nat
  ∧ count_above (-999) (take (2 `min` 3) (columns (ingest (-999) 2 1 1 srcs) !!! 0%nat))
    = (2 `min` count_valid (-999) (readings_at (-999) srcs 0 0))%nat.
Proof.
  split_and!; [lia|lia|lia|].
  apply (sentinel_ranking (-999) 2 1 1
           [Source "a" 1 0 "m" [[Some 80]]; Source "b" 2 0 "m" [[None]];
            Source "c" 3 0 "m" [[Some 95]]] 0 0); lia.
Defined.

(** C2 (as stated) fails: with [cell_num = 2], a no-data reading that
    arrives second is placed in slot 1, so two slots are taken although
    only one reading is above the no-data value. *)
Lemma sentinel_placed_second :
  let srcs := [Source "a" 1 0 "m" [[Some 80]]; Source "b" 2 0 "m" [[None]]] in
  let c := columns (ingest (-999) 2 1 1 srcs) !!! 0%nat in
  c = [Entry (-80) 0; Entry (-999) 1]
  ∧ count_valid (-999) (readings_at (-999) srcs 0 0) = 1%nat
  ∧ ¬ ranked 2 1 c.
Proof.
  split_and!; [reflexivity|reflexivity|].
  intros [_ _ H]. vm_compute in H. discriminate H.
Qed.

(** * The persistence claims *)

Lemma insert_sizes_app (t1 t2 : list event) :
  insert_sizes (t1 ++ t2) = insert_sizes t1 ++ insert_sizes t2.
Proof. apply omap_app. Qed.

Lemma lines_written_app (t1 t2 : list event) :
  lines_written (t1 ++ t2) = lines_written t1 ++ lines_written t2.
Proof. apply omap_app. Qed.

Lemma lines_written_lines (l : list string) : lines_written (LineWritten <$> l) = l.
Proof. induction l as [|s l IH]; [done|]. simpl. by f_equal. Qed.

Lemma insert_sizes_packets (a : fill_args) (ps : list (list string)) :
  insert_sizes (exec_insert a <$> ps) = length <$> ps.
Proof. induction ps as [|p ps IH]; [done|]. simpl. by f_equal. Qed.

Lemma insert_sizes_bind {A : Type} (f : A → list event) (l : list A) :
  insert_sizes (l ≫= f) = l ≫= (λ x, insert_sizes (f x)).
Proof.
  induction l as [|x l IH]; [done|]. by rewrite !bind_cons, insert_sizes_app, IH.
Qed.

Lemma length_bind_sum {A B : Type} (f : A → list B) (l : list A) :
  length (l ≫= f) = sum_list ((λ x, length (f x)) <$> l).
Proof.
  induction l as [|x l IH]; [done|]. rewrite bind_cons, length_app, IH. done.
Qed.

Lemma bind_ext_list {A B : Type} (f g : A → list B) (l : list A) :
  (∀ x, f x = g x) → l ≫= f = l ≫= g.
Proof. intros H. induction l as [|x l IH]; [done|]. by rewrite !bind_cons, H, IH. Qed.

Lemma Forall_bind_list {A B : Type} (P : B → Prop) (f : A → list B) (l : list A) :
  (∀ x, Forall P (f x)) → Forall P (l ≫= f).
Proof.
  intros H. induction l as [|x l IH]; [constructor|].
  rewrite bind_cons. apply Forall_app. by split.
Qed.

Section PersistenceClaims.

Variable DB_MIN_VAL : Z.
Variable printf_f2 : Z → string.

Lemma row_statements_sizes (N : nat) (a : fill_args) (row : nat) :
  (1 ≤ N)%nat →
  insert_sizes (row_statements DB_MIN_VAL printf_f2 N a row)
  = batch_sizes N (length (persisted_cols DB_MIN_VAL a row)).
Proof.
  intros HN. unfold row_statements.
  rewrite insert_sizes_packets, packets_sizes by (simpl; lia).
  unfold row_records. by rewrite length_fmap.
Qed.

(** C4 (as amended).  Under the batched strategy the buffer is flushed
    when it holds [N] rows and at the end of every grid row.  A grid
    row with [r] persisted points makes [ceil (r / N)] statements, all
    of [N] rows but the last, which has [r mod N] rows, or [N] when
    that is 0; the statements of the run are those of its grid rows, in
    one transaction. *)
Theorem batched_insert_statements (e : env) (drv_name : string) (db_perf : Z)
  (a : fill_args) :
  drv_name ≠ "csv" → drv_name ≠ "dbf" → drv_name ≠ "sqlite" →
  1 ≤ db_perf ≤ 98 →
  let N := Z.to_nat db_perf in
  let r := fill_database DB_MIN_VAL printf_f2 e drv_name db_perf a in
  let R := λ row, length (persisted_cols DB_MIN_VAL a row) in
  r = (TransactionBegun
         :: (seq 0 (fa_nrows a) ≫= row_statements DB_MIN_VAL printf_f2 N a)
         ++ [TransactionCommitted],
       Done tt)
  ∧ insert_sizes (events r) = seq 0 (fa_nrows a) ≫= (λ row, batch_sizes N (R row))
  ∧ length (insert_sizes (events r))
    = sum_list ((λ row, ceil_div (R row) N) <$> seq 0 (fa_nrows a))
  ∧ Forall (λ n, (1 ≤ n ≤ N)%nat) (insert_sizes (events r)).
Proof.
  intros H1 H2 H3 Hp N r R. subst r.
  pose proof (select_batched drv_name db_perf H1 H2 H3 ltac:(lia)) as Hg.
  rewrite fill_database_insert by (by rewrite Hg). rewrite Hg.
  cbn [SQLPacketSize result events fst snd]. fold N.
  assert (1 ≤ N)%nat as HN by lia.
  assert (insert_sizes
            (TransactionBegun
               :: (seq 0 (fa_nrows a) ≫= row_statements DB_MIN_VAL printf_f2 N a)
               ++ [TransactionCommitted])
          = seq 0 (fa_nrows a) ≫= (λ row, batch_sizes N (R row))) as ->.
  { change (TransactionBegun :: ?t) with ([TransactionBegun] ++ t).
    rewrite !insert_sizes_app, insert_sizes_bind. cbn [insert_sizes omap list_omap app].
    rewrite app_nil_r. apply bind_ext_list. intros row.
    by apply row_statements_sizes. }
  split_and!; [done|done| |].
  - rewrite length_bind_sum. f_equal. apply list_fmap_ext. intros _ row _.
    by apply batch_sizes_length.
  - apply Forall_bind_list. intros row. apply Forall_forall. intros n.
    by apply batch_sizes_bounds.
Qed.

(** C6.  The staging file of the bulk load and the output file of the
    csv driver receive the same lines: the records of the points that
    pass the test of line 356, in grid order. *)
Theorem staged_and_flat_lines_agree (e e' : env) (drv_name : string)
  (db_perf db_perf' : Z) (a : fill_args) :
  drv_name ≠ "csv" → drv_name ≠ "dbf" → drv_name ≠ "sqlite" →
  ¬ (0 ≤ db_perf < 99) →
  csv_exists e' = false ∨ fa_ovr a = true →
  let staged := fill_database DB_MIN_VAL printf_f2 e drv_name db_perf a in
  let flat := fill_database DB_MIN_VAL printf_f2 e' "csv" db_perf' a in
  lines_written (events staged) = records DB_MIN_VAL printf_f2 a
  ∧ lines_written (events flat) = records DB_MIN_VAL printf_f2 a
  ∧ lines_written (events staged) = lines_written (events flat).
Proof.
  intros H1 H2 H3 Hp Hov staged flat. subst staged flat.
  assert (lines_written (staged_scan DB_MIN_VAL printf_f2 e a)
          = records DB_MIN_VAL printf_f2 a) as Hscan.
  { unfold staged_scan. rewrite !lines_written_app, lines_written_lines.
    cbn. by rewrite app_nil_r. }
  assert (lines_written (events (fill_database DB_MIN_VAL printf_f2 e drv_name db_perf a))
          = records DB_MIN_VAL printf_f2 a) as Hs.
  { rewrite fill_database_staged by (by apply select_staged).
    destruct (load_statement e drv_name a); cbn [events fst]; [|done].
    rewrite lines_written_app, Hscan. cbn. by rewrite app_nil_r. }
  assert (lines_written (events (fill_database DB_MIN_VAL printf_f2 e' "csv" db_perf' a))
          = records DB_MIN_VAL printf_f2 a) as Hf.
  { rewrite fill_database_csv.
    assert ((csv_exists e' && negb (fa_ovr a)) = false) as ->
      by (destruct Hov as [-> | ->]; [done|by rewrite andb_false_r]).
    cbn [events fst].
    change (FileOpened ?p :: ?t) with ([FileOpened p] ++ t).
    rewrite !lines_written_app, lines_written_lines. cbn. by rewrite app_nil_r. }
  by rewrite Hs, Hf.
Qed.

(** C9.  With the dbf and sqlite drivers every statement inserts one
    row, whatever [dbperf] says, 99 included; the run is one
    transaction and ends without an error. *)
Theorem dbf_sqlite_row_at_a_time (e : env) (drv_name : string) (db_perf : Z)
  (a : fill_args) :
  drv_name = "dbf" ∨ drv_name = "sqlite" →
  select_strategy drv_name db_perf = Strategy false false 1
  ∧ fill_database DB_MIN_VAL printf_f2 e drv_name db_perf a
    = (TransactionBegun
         :: ((λ r, ExecInsert ("INSERT INTO " +:+ fa_tbl_name a +:+ " VALUES ("
                               +:+ r +:+ ")") 1)
               <$> records DB_MIN_VAL printf_f2 a)
         ++ [TransactionCommitted],
       Done tt).
Proof.
  intros Hd. pose proof (select_row_at_a_time drv_name db_perf Hd) as Hg.
  split; [done|].
  rewrite fill_database_insert by (by rewrite Hg). rewrite Hg. cbn [SQLPacketSize].
  do 3 f_equal. unfold records. rewrite fmap_bind_list.
  apply bind_ext_list. intros row. unfold row_statements.
  rewrite packets_singletons, <- list_fmap_compose. done.
Qed.

End PersistenceClaims.

(** Packets of two with the mysql driver on the two-row sample. *)
Lemma batched_insert_statements_witness :
  "mysql" ≠ "csv" ∧ "mysql" ≠ "dbf" ∧ "mysql" ≠ "sqlite" ∧ 1 ≤ 2 ≤ 98
  ∧ insert_sizes (events (fill_database (-999) sample_printf_f2 sample_env "mysql" 2
                            sample_fill_args))
    = seq 0 2 ≫= (λ row, batch_sizes 2 (length (persisted_cols (-999) sample_fill_args row))).
Proof.
  split_and!; [done|done|done|lia|lia|].
  apply (batched_insert_statements (-999) sample_printf_f2 sample_env "mysql" 2
           sample_fill_args); (done || lia).
Defined.

(** C4 (as stated) fails: two persisted points in two grid rows and
    packets of two make two statements of one row, not one of two. *)
Lemma batch_flushed_at_row_end :
  let t := events (fill_database (-999) sample_printf_f2 sample_env "mysql" 2
                     sample_fill_args) in
  length (records (-999) sample_printf_f2 sample_fill_args) = 2%nat
  ∧ insert_sizes t = [1%nat; 1%nat]
  ∧ length (insert_sizes t) ≠ ceil_div 2 2.
Proof. split_and!; [reflexivity|reflexivity|]. vm_compute. lia. Qed.

(** The mysql bulk load and the csv driver on the two-row sample. *)
Lemma staged_and_flat_lines_agree_witness :
  "mysql" ≠ "csv" ∧ "mysql" ≠ "dbf" ∧ "mysql" ≠ "sqlite" ∧ ¬ (0 ≤ 99 < 99)
  ∧ (csv_exists sample_env = false ∨ fa_ovr sample_fill_args = true)
  ∧ lines_written (events (fill_database (-999) sample_printf_f2 sample_env "mysql" 99
                             sample_fill_args))
    = lines_written (events (fill_database (-999) sample_printf_f2 sample_env "csv" 20
                               sample_fill_args)).
Proof.
  split_and!; [done|done|done|lia|by left|].
  apply (staged_and_flat_lines_agree (-999) sample_printf_f2 sample_env sample_env
           "mysql" 99 20 sample_fill_args); [done|done|done|lia|by left].
Defined.

(** The sqlite driver asked for the bulk load. *)
Lemma dbf_sqlite_row_at_a_time_witness :
  ("sqlite" = "dbf" ∨ "sqlite" = "sqlite")
  ∧ select_strategy "sqlite" 99 = Strategy false false 1.
Proof.
  split; [by right|].
  apply (dbf_sqlite_row_at_a_time (-999) sample_printf_f2 sample_env "sqlite" 99
           sample_fill_args). by right.
Defined.

(** * The claims about main *)

Lemma beside_raster_app (t1 t2 : list event) :
  beside_raster (t1 ++ t2) = beside_raster t1 ++ beside_raster t2.
Proof. apply filter_app. Qed.

Lemma beside_raster_rows {A : Type} (f : A → list (option Z)) (l : list A) :
  beside_raster ((λ x, RasterRow (f x)) <$> l) = [].
Proof. induction l as [|r l IH]; [done|]. exact IH. Qed.

Lemma f_out_below_threshold (DB_MIN_VAL : Z) (PdBm2LteThroughput : lte_output → Z → Z → Z)
  (g : generate) (rx_thresh : Z) (best : entry) (sum : Z) :
  arr_power best ≤ rx_thresh →
  f_out DB_MIN_VAL PdBm2LteThroughput g rx_thresh best sum = None.
Proof.
  intros H. unfold f_out. assert ((arr_power best <=? rx_thresh) = true) as -> by lia. done.
Qed.

Section MainClaims.

Variable DB_MIN_VAL : Z.
Variable printf_f2 : Z → string.
Variable sum_dBm : list Z → Z.
Variable PdBm2LteThroughput : lte_output → Z → Z → Z.


Lemma persisted_cols_spec (a : fill_args) (row col : nat) :
  col ∈ persisted_cols DB_MIN_VAL a row
  ↔ (col < fa_ncols a)%nat
    ∧ arr_power (best_at (fa_arr a) (fa_ncols a) row col) ≠ DB_MIN_VAL.
Proof.
  unfold persisted_cols, not_null, best_at.
  rewrite list_elem_of_filter, elem_of_seq, negb_true_iff, Z.eqb_neq.
  split; [intros [? [_ ?]]; split|intros [? ?]; split]; (done || lia).
Qed.

(** C3 (as amended).  A point whose best power is at most the
    threshold is null in the output raster, whatever is generated.  The
    table and the file do not look at the threshold: under every
    strategy the scan of [fill_database] writes the records of the
    points whose best power is not [DB_MIN_VAL], all of them and only
    them, as lines or packed into statements. *)
Theorem threshold_only_in_raster (cfg : config) (arr : list column)
  (srcs : list source) (row col : nat) :
  (row < nrows cfg)%nat → (col < ncols cfg)%nat →
  arr_power (best_at arr (ncols cfg) row col) ≤ rx_thresh cfg →
  (∃ cells,
      put (write_raster DB_MIN_VAL sum_dBm PdBm2LteThroughput cfg arr srcs) !! row
      = Some (RasterRow cells)
      ∧ cells !! col = Some None)
  ∧ (∀ (g : strategy) (a : fill_args),
       fill_rows DB_MIN_VAL printf_f2 g a = expected_rows DB_MIN_VAL printf_f2 g a)
  ∧ (∀ (a : fill_args) (row col : nat),
       col ∈ persisted_cols DB_MIN_VAL a row
       ↔ (col < fa_ncols a)%nat
         ∧ arr_power (best_at (fa_arr a) (fa_ncols a) row col) ≠ DB_MIN_VAL)
  ∧ (∀ (N : nat) (a : fill_args) (row : nat),
       mjoin (packets N [] (row_records DB_MIN_VAL printf_f2 a row))
       = row_records DB_MIN_VAL printf_f2 a row).
Proof.
  intros Hr Hc Hb. split_and!; [| | |intros; apply packets_join].
  - rewrite write_raster_put. eexists. split.
    + rewrite list_lookup_fmap. rewrite lookup_seq_lt by done. reflexivity.
    + rewrite list_lookup_fmap, lookup_seq_lt by done. cbn.
      unfold raster_cell. by rewrite f_out_below_threshold.
  - apply fill_rows_spec.
  - apply persisted_cols_spec.
Qed.


(** C10.  A [cell_num] above the number of maps is taken down to that
    number before anything else happens: the run is the run with
    [cell_num = M], message for message, and a table, if one is made,
    has [4 M + 4] columns. *)
Theorem cell_num_reduced (e : env) (cfg : config) (srcs : list source) :
  (length srcs < cell_num cfg)%nat →
  main DB_MIN_VAL printf_f2 sum_dBm PdBm2LteThroughput e cfg srcs
  = main DB_MIN_VAL printf_f2 sum_dBm PdBm2LteThroughput e
      (with_cell_num (length srcs) cfg) srcs
  ∧ (srcs ≠ [] → drv_name cfg ≠ "none" → drv_name cfg ≠ "csv" →
     table_exists e = false ∨ ovr cfg = true →
     TableCreated (tbl_name cfg) (table_columns (length srcs))
     ∈ events (main DB_MIN_VAL printf_f2 sum_dBm PdBm2LteThroughput e cfg srcs))
  ∧ length (table_columns (length srcs)) = (4 * length srcs + 4)%nat.
Proof.
  intros HK.
  assert (tweak_cell_num (cell_num cfg) (length srcs) = length srcs) as Htw.
  { unfold tweak_cell_num. by rewrite (proj2 (Nat.ltb_lt _ _) HK). }
  assert (prepare_table e (with_cell_num (length srcs) cfg) (length srcs)
          = prepare_table e cfg (length srcs)) as Hprep.
  { unfold prepare_table. cbn [with_cell_num cell_num drv_name tbl_name ovr].
    rewrite Htw. unfold tweak_cell_num. by rewrite Nat.ltb_irrefl. }
  split_and!; [| |apply table_columns_length].
  - destruct (decide (srcs = [])) as [->|Hne]; [done|].
    rewrite !main_run by done. rewrite Hprep.
    destruct (prepare_table e cfg (length srcs)) as [t [K|m]]; done.
  - intros Hne Hn Hc Hov. rewrite main_run by done.
    rewrite prepare_table_run, Htw. cbv zeta.
    rewrite !bool_decide_eq_false_2 by done.
    assert ((table_exists e && negb (ovr cfg)) = false) as ->
      by (destruct Hov as [-> | ->]; [done|by rewrite andb_false_r]).
    cbn [events fst]. apply elem_of_cons. right. apply elem_of_app. left.
    unfold create_table_events. rewrite !elem_of_app. right. right.
    by apply list_elem_of_singleton.
Qed.


End MainClaims.

(** Row 0, column 1 of the sample run: best power -100, threshold -90. *)
Lemma threshold_only_in_raster_witness :
  let cfg := sample_cfg "csv" 20 rss_max in
  let arr := columns (ingest (-999) 2 2 2 sample_srcs) in
  (0 < nrows cfg)%nat ∧ (1 < ncols cfg)%nat
  ∧ arr_power (best_at arr (ncols cfg) 0 1) ≤ rx_thresh cfg
  ∧ ∃ cells,
      put (write_raster (-999) sample_sum_dBm sample_lte cfg arr sample_srcs) !! 0%nat
      = Some (RasterRow cells)
      ∧ cells !! 1%nat = Some None.
Proof.
  split_and!; [simpl; lia|simpl; lia|vm_compute; discriminate|].
  apply (threshold_only_in_raster (-999) sample_printf_f2 sample_sum_dBm sample_lte
           (sample_cfg "csv" 20 rss_max) (columns (ingest (-999) 2 2 2 sample_srcs))
           sample_srcs 0 1); [simpl; lia|simpl; lia|vm_compute; discriminate].
Defined.

(** C3 (as stated) fails for the table and the file: the point of row 0,
    column 1 has best power -100, below the threshold -90; it is null in
    the raster and it is the second line of the csv file. *)
Lemma below_threshold_point_persisted :
  let cfg := sample_cfg "csv" 20 rss_max in
  let arr := columns (ingest (-999) 2 2 2 sample_srcs) in
  arr_power (best_at arr (ncols cfg) 0 1) = -100
  ∧ -100 ≤ rx_thresh cfg
  ∧ raster_rows (events (sample_main "csv" 20 rss_max))
    = [[Some (-60); None]; [None; Some (-70)]]
  ∧ lines_written (events (sample_main "csv" 20 rss_max)) !! 1%nat
    = Some "1010,2000,10,'a',1,-100.00,'m1','c',3,-100.00,'m3',0.00".
Proof. split_and!; [reflexivity|simpl; lia|reflexivity|reflexivity]. Qed.


(** The sample run with [cell_num = 5] and its three maps. *)
Lemma cell_num_reduced_witness :
  let cfg := with_cell_num 5 (sample_cfg "mysql" 20 rss_max) in
  (length sample_srcs < cell_num cfg)%nat
  ∧ main (-999) sample_printf_f2 sample_sum_dBm sample_lte sample_env cfg sample_srcs
    = main (-999) sample_printf_f2 sample_sum_dBm sample_lte sample_env
        (with_cell_num (length sample_srcs) cfg) sample_srcs.
Proof.
  split; [simpl; lia|].
  apply (cell_num_reduced (-999) sample_printf_f2 sample_sum_dBm sample_lte sample_env
           (with_cell_num 5 (sample_cfg "mysql" 20 rss_max)) sample_srcs).
  simpl. lia.
Defined.



(** * Further properties of the code *)

(** ** The ranking: what the taken slots hold *)

Lemma rank_from_count_mem (cell_num : nat) (rs : list Z) :
  ∀ (map : nat) (c : column) (cm : nat),
    ((cell_num ≤ map)%nat → cm = (cell_num - 1)%nat) →
    (cell_num ≤ map + length rs)%nat →
    (1 ≤ cell_num)%nat →
    (rank_from cell_num map rs (c, cm)).2 = (cell_num - 1)%nat.
Proof.
  induction rs as [|f rs IH]; intros map c cm Hcm Hlen HK; simpl in *.
  - apply Hcm. lia.
  - destruct (rank_point cell_num map f cm c) as [c1 cm1] eqn:Hrp.
    apply (IH (S map)); [|lia|done].
    intros HS. pose proof (rank_point_count_mem cell_num map f cm c) as H2.
    rewrite Hrp in H2. simpl in H2. subst cm1.
    destruct (map <? cell_num)%nat eqn:Hlt.
    + apply Nat.ltb_lt in Hlt. lia.
    + apply Nat.ltb_ge in Hlt. by apply Hcm.
Qed.

(** One more reading, seen from the column the earlier readings made. *)
Lemma rank_readings_snoc (cell_num : nat) (rs : list Z) (f : Z) :
  (1 ≤ cell_num)%nat →
  rank_case cell_num (length rs) f (rank_readings cell_num rs)
    (rank_readings cell_num (rs ++ [f])).
Proof.
  intros HK. unfold rank_readings. rewrite rank_from_app. cbn [rank_from].
  pose proof (rank_readings_ranked 0 cell_num HK rs) as Hr.
  unfold rank_readings in Hr.
  pose proof (rank_from_count_mem cell_num rs 0 (column_init cell_num) 0) as Hcm.
  destruct (rank_from cell_num 0 rs _) as [c cm]. cbn [fst snd] in *.
  apply rank_point_case; [done|by destruct Hr|].
  intros Hle. apply Hcm; [lia|done|done].
Qed.

Lemma ranks_before_ge (a b : entry) : ranks_before a b → ge_power a b.
Proof. unfold ranks_before, ge_power. lia. Qed.

Lemma ranked_order_descending (l : list entry) :
  StronglySorted ranks_before l → descending l.
Proof.
  induction 1 as [|a l Hl IH Ha]; constructor; [done|].
  eapply Forall_impl; [exact Ha|]. intros b. apply ranks_before_ge.
Qed.

(** Rank order after an insertion by the sorting loop. *)
Lemma ranks_before_insert (rs : list Z) (hi lo : list entry) (f : Z) :
  StronglySorted ranks_before (hi ++ lo) →
  Forall (λ e, rs !! arr_index e = Some (arr_power e)) (hi ++ lo) →
  Forall (λ b, arr_power b < f) lo →
  (∀ a, last hi = Some a → f ≤ arr_power a) →
  StronglySorted ranks_before (hi ++ Entry f (length rs) :: lo).
Proof.
  intros Hs Hg Hlo Hlast.
  assert (Forall (λ a, f ≤ arr_power a) hi) as Hhi.
  { apply descending_above_last; [|done]. apply ranked_order_descending.
    by apply StronglySorted_app_1_l in Hs. }
  apply StronglySorted_app in Hs as (Hx & Hshi & Hslo).
  apply Forall_app in Hg as [Hghi _].
  apply StronglySorted_app_2; [|done|].
  - intros a b Ha Hb. apply elem_of_cons in Hb as [->|Hb]; [|by apply Hx].
    rewrite Forall_forall in Hhi, Hghi. specialize (Hhi a Ha). specialize (Hghi a Ha).
    apply lookup_lt_Some in Hghi. unfold ranks_before. simpl. lia.
  - constructor; [done|]. eapply Forall_impl; [exact Hlo|].
    intros b Hb. left. done.
Qed.

Lemma elem_of_app_cons_weaken {A} (hi lo : list A) (x e : A) :
  e ∈ hi ++ lo → e ∈ hi ++ x :: lo.
Proof.
  rewrite !elem_of_app, elem_of_cons. tauto.
Qed.

Lemma elem_of_app_cons_here {A} (hi lo : list A) (x : A) : x ∈ hi ++ x :: lo.
Proof. rewrite elem_of_app, elem_of_cons. tauto. Qed.

Lemma kept_init (cell_num : nat) : kept cell_num [] [].
Proof. split; [constructor|constructor|]. intros i f Hi. done. Qed.

Lemma kept_step (cell_num : nat) (rs : list Z) (f : Z) (c c' : column) :
  (1 ≤ cell_num)%nat →
  ranked cell_num (length rs) c →
  rank_case cell_num (length rs) f c c' →
  kept cell_num rs (take (cell_num `min` length rs) c) →
  kept cell_num (rs ++ [f]) (take (cell_num `min` S (length rs)) c').
Proof.
  intros HK [Hlen Hs Hr] Hcase [Hg Ho Hrest].
  assert (∀ l, Forall (λ e, rs !! arr_index e = Some (arr_power e)) l →
               Forall (λ e, (rs ++ [f]) !! arr_index e = Some (arr_power e)) l) as Hmono.
  { intros l Hl0. eapply Forall_impl; [exact Hl0|]. intros e He. by apply lookup_app_l_Some. }
  destruct Hcase as [hi lo Hm Ht -> Hlo Hhi | Hm Hf -> | hi lo Hm Hf Ht -> Hlo Hhi].
  - (* a free slot is taken *)
    rewrite Nat.min_r in Hg, Ho, Hrest by lia. rewrite Nat.min_r by lia.
    rewrite Ht in Hg, Ho, Hrest.
    assert (length (hi ++ lo) = length rs) as Hl.
    { rewrite <- Ht, length_take_le; lia. }
    assert (take (S (length rs)) (hi ++ Entry f (length rs) :: lo ++ drop (S (length rs)) c)
            = hi ++ Entry f (length rs) :: lo) as ->.
    { change (hi ++ Entry f (length rs) :: lo ++ drop (S (length rs)) c)
        with (hi ++ (Entry f (length rs) :: lo) ++ drop (S (length rs)) c).
      rewrite (assoc_L (++)).
      apply take_app_length'. rewrite length_app in *. simpl. lia. }
    split.
    + apply Forall_app in Hg as [Hg1 Hg2]. apply Forall_app. split; [by apply Hmono|].
      constructor; [|by apply Hmono]. simpl. by apply list_lookup_middle.
    + by apply ranks_before_insert.
    + intros i g Hi. left. apply lookup_app_Some in Hi as [Hi|[Hge Hi]].
      * destruct (Hrest i g Hi) as [(e & He & Hei)|[Hfull _]]; [|lia].
        exists e. split; [|done]. by apply elem_of_app_cons_weaken.
      * apply list_lookup_singleton_Some in Hi as [Hi <-].
        exists (Entry f (length rs)). split; [apply elem_of_app_cons_here|simpl; lia].
  - (* the reading is dropped *)
    rewrite Nat.min_l in Hg, Ho, Hrest, Hs by lia. rewrite Nat.min_l by lia.
    rewrite take_ge in * by lia.
    split; [by apply Hmono|done|].
    intros i g Hi. apply lookup_app_Some in Hi as [Hi|[Hge Hi]]; [by apply Hrest|].
    apply list_lookup_singleton_Some in Hi as [Hi <-].
    right. split; [done|].
    eapply Forall_impl; [apply (descending_last c (cell_num - 1)); [done|lia]|].
    simpl. lia.
  - (* the last slot is replaced *)
    rewrite Nat.min_l in Hg, Ho, Hrest, Hs by lia. rewrite Nat.min_l by lia.
    rewrite take_ge in Hg, Ho, Hrest, Hs by lia.
    assert (length (hi ++ lo) = (cell_num - 1)%nat) as Hl.
    { rewrite <- Ht, length_take_le; lia. }
    rewrite take_ge by (rewrite length_app in *; simpl; lia).
    pose proof (column_split_last c (cell_num - 1) ltac:(lia)) as Hc.
    rewrite Ht in Hc.
    remember (c !!! (cell_num - 1)%nat) as x eqn:Hx. clear Hx.
    subst c.
    assert (Forall (λ e, arr_power x ≤ arr_power e) (hi ++ lo)) as Hall.
    { apply StronglySorted_app in Hs as (Hx & _ & _).
      apply Forall_forall. intros e He.
      specialize (Hx e x He ltac:(by apply list_elem_of_singleton)).
      unfold ge_power in Hx. lia. }
    apply Forall_app in Hg as [Hg Hgx].
    apply StronglySorted_app_1_l in Ho.
    assert (Forall (λ e, arr_power x ≤ arr_power e) (hi ++ Entry f (length rs) :: lo)) as Hall'.
    { apply Forall_app in Hall as [H1 H2]. apply Forall_app. split; [done|].
      constructor; [simpl; lia|done]. }
    split.
    + apply Forall_app in Hg as [Hg1 Hg2]. apply Forall_app. split; [by apply Hmono|].
      constructor; [|by apply Hmono]. simpl. by apply list_lookup_middle.
    + by apply ranks_before_insert.
    + assert (length (hi ++ Entry f (length rs) :: lo) = cell_num) as Hfull.
      { rewrite length_app in *. simpl. lia. }
      intros i g Hi. apply lookup_app_Some in Hi as [Hi|[Hge Hi]].
      * destruct (Hrest i g Hi) as [(e & He & Hei)|[_ Hle]].
        -- apply elem_of_app in He as [He|He].
           ++ left. exists e. split; [|done]. by apply elem_of_app_cons_weaken.
           ++ apply list_elem_of_singleton in He. subst e. right. split; [done|].
              rewrite Forall_singleton in Hgx. rewrite Hei, Hi in Hgx.
              injection Hgx as ->. exact Hall'.
        -- right. split; [done|].
           apply Forall_app in Hle as [Hle Hlx]. rewrite Forall_singleton in Hlx.
           eapply Forall_impl; [exact Hall'|]. simpl. lia.
      * apply list_lookup_singleton_Some in Hi as [Hi <-].
        left. exists (Entry f (length rs)). split; [apply elem_of_app_cons_here|simpl; lia].
Qed.

Lemma rank_readings_kept (cell_num : nat) (rs : list Z) :
  (1 ≤ cell_num)%nat →
  kept cell_num rs (take (cell_num `min` length rs) (rank_readings cell_num rs)).
Proof.
  intros HK. induction rs as [|f rs IH] using rev_ind.
  - rewrite Nat.min_0_r, take_0. apply kept_init.
  - rewrite length_app. simpl. rewrite Nat.add_1_r.
    apply (kept_step cell_num rs f (rank_readings cell_num rs));
      [done|by apply (rank_readings_ranked 0)|by apply rank_readings_snoc|done].
Qed.

Lemma best_earliest_snoc_keep (rs : list Z) (f : Z) (b : entry) :
  best_earliest rs b → f ≤ arr_power b → best_earliest (rs ++ [f]) b.
Proof.
  intros [Hb Hall] Hf. split; [by apply lookup_app_l_Some|].
  intros i g Hi. apply lookup_app_Some in Hi as [Hi|[Hge Hi]]; [by apply Hall|].
  apply list_lookup_singleton_Some in Hi as [Hi <-].
  apply lookup_lt_Some in Hb. lia.
Qed.

Lemma best_earliest_snoc_new (rs : list Z) (f : Z) (b : entry) :
  (rs ≠ [] → best_earliest rs b ∧ arr_power b < f) →
  best_earliest (rs ++ [f]) (Entry f (length rs)).
Proof.
  intros Hold. split; [simpl; by apply list_lookup_middle|]. simpl.
  intros i g Hi. apply lookup_app_Some in Hi as [Hi|[Hge Hi]].
  - destruct Hold as [[Hb Hall] Hlt]; [by intros ->|].
    destruct (Hall i g Hi); lia.
  - apply list_lookup_singleton_Some in Hi as [Hi <-]. lia.
Qed.

(** The head of a column after an insertion below a non-empty prefix part. *)
Lemma head_insert (p hi lo tl : list entry) (e : entry) (n : nat) (c : column) :
  take n c = hi ++ lo →
  (hi ++ e :: tl) !!! 0%nat = match hi with [] => e | _ => c !!! 0%nat end.
Proof.
  intros Ht. destruct hi as [|a hi]; [done|]. simpl.
  destruct c as [|x c]; [by destruct n|]. destruct n; [done|].
  simpl in Ht. by injection Ht as -> _.
Qed.

Lemma descending_take_le (c : column) (n N : nat) :
  descending (take N c) → (n ≤ N)%nat → descending (take n c).
Proof.
  intros Hs Hn. rewrite <- (take_drop n (take N c)) in Hs.
  rewrite take_take, Nat.min_l in Hs by done.
  by apply StronglySorted_app_1_l in Hs.
Qed.

Lemma rank_readings_best_earliest (cell_num : nat) (rs : list Z) :
  (2 ≤ cell_num)%nat → rs ≠ [] →
  best_earliest rs (rank_readings cell_num rs !!! 0%nat).
Proof.
  intros HK. induction rs as [|f rs IH] using rev_ind; [done|]. intros _.
  pose proof (rank_readings_snoc cell_num rs f ltac:(lia)) as Hcase.
  pose proof (rank_readings_ranked 0 cell_num ltac:(lia) rs) as [Hlen Hs _].
  remember (rank_readings cell_num rs) as c eqn:Hc. clear Hc.
  remember (rank_readings cell_num (rs ++ [f])) as c' eqn:Hc'. clear Hc'.
  assert (∀ n hi lo tl, take n c = hi ++ lo →
            (n ≤ cell_num `min` length rs)%nat → (rs = [] → hi = []) →
            (rs ≠ [] → (1 ≤ n)%nat) →
            Forall (λ b, arr_power b < f) lo →
            (∀ a, last hi = Some a → f ≤ arr_power a) →
            best_earliest (rs ++ [f])
              ((hi ++ Entry f (length rs) :: tl) !!! 0%nat)) as Hins.
  { intros n hi lo tl Ht Hn Hnil Hpos Hlo Hhi.
    rewrite (head_insert (take n c) hi lo tl _ n c Ht).
    assert (descending (hi ++ lo)) as Hd.
    { rewrite <- Ht. by apply (descending_take_le c n (cell_num `min` length rs)). }
    destruct hi as [|a hi].
    - apply (best_earliest_snoc_new rs f (c !!! 0%nat)). intros Hne.
      split; [by apply IH|]. specialize (Hpos Hne).
      simpl in Ht. rewrite Forall_forall in Hlo. apply Hlo. rewrite <- Ht.
      apply list_elem_of_lookup. exists 0%nat.
      rewrite lookup_take_lt by lia. apply list_lookup_lookup_total_lt. lia.
    - assert (rs ≠ []) as Hne by (intros E; by specialize (Hnil E)).
      apply best_earliest_snoc_keep; [by apply IH|].
      assert (c !!! 0%nat = a) as ->.
      { destruct c as [|x c]; [by destruct n|]. destruct n; [done|].
        simpl in Ht. by injection Ht as -> _. }
      apply StronglySorted_app_1_l in Hd.
      pose proof (descending_above_last (a :: hi) f Hd Hhi) as Hall.
      by apply Forall_cons_1 in Hall as [? _]. }
  destruct Hcase as [hi lo Hm Ht -> Hlo Hhi | Hm Hf -> | hi lo Hm Hf Ht -> Hlo Hhi].
  - apply (Hins (length rs) hi lo _ Ht); [lia| |destruct rs; [done|simpl; lia]|done|done].
    intros ->. simpl in Ht. symmetry in Ht. by apply app_eq_nil in Ht as [-> _].
  - assert (rs ≠ []) as Hne by (intros ->; simpl in Hm; lia).
    apply best_earliest_snoc_keep; [by apply IH|].
    rewrite Nat.min_l, take_ge in Hs by lia.
    pose proof (descending_last c (cell_num - 1) Hs ltac:(lia)) as Hall.
    rewrite Forall_forall in Hall.
    specialize (Hall (c !!! 0%nat)
      ltac:(apply list_elem_of_lookup; exists 0%nat;
            apply list_lookup_lookup_total_lt; lia)).
    lia.
  - assert (rs ≠ []) as Hne by (intros ->; simpl in Hm; lia).
    apply (Hins (cell_num - 1)%nat hi lo _ Ht); [lia|done|lia|done|done].
Qed.

Lemma rank_readings_best_latest (rs : list Z) :
  rs ≠ [] → best_latest rs (rank_readings 1 rs !!! 0%nat).
Proof.
  induction rs as [|f rs IH] using rev_ind; [done|]. intros _.
  pose proof (rank_readings_snoc 1 rs f ltac:(lia)) as Hcase.
  pose proof (rank_readings_ranked 0 1 ltac:(lia) rs) as [Hlen _ _].
  remember (rank_readings 1 rs) as c eqn:Hc. clear Hc.
  remember (rank_readings 1 (rs ++ [f])) as c' eqn:Hc'. clear Hc'.
  assert (best_latest (rs ++ [f]) (Entry f (length rs)) ↔
          (rs ≠ [] → arr_power (c !!! 0%nat) ≤ f)) as Hnew.
  { split.
    - intros [_ Hall] Hne. destruct (IH Hne) as [Hb _].
      destruct (Hall _ _ (lookup_app_l_Some _ [f] _ _ Hb)) as [?|[? ?]]; simpl in *; lia.
    - intros Hle. split; [simpl; by apply list_lookup_middle|]. simpl.
      intros i g Hi. apply lookup_app_Some in Hi as [Hi|[Hge Hi]].
      + assert (rs ≠ []) as Hne by (intros ->; done).
        destruct (IH Hne) as [_ Hall]. specialize (Hle Hne).
        apply lookup_lt_Some in Hi as Hlt.
        destruct (Hall i g Hi); lia.
      + apply list_lookup_singleton_Some in Hi as [Hi <-]. lia. }
  destruct Hcase as [hi lo Hm Ht -> Hlo Hhi | Hm Hf -> | hi lo Hm Hf Ht -> Hlo Hhi].
  - assert (rs = []) as -> by (destruct rs; [done|simpl in Hm; lia]).
    simpl in Ht. symmetry in Ht. apply app_eq_nil in Ht as [-> ->]. simpl.
    apply Hnew. done.
  - assert (rs ≠ []) as Hne by (intros ->; simpl in Hm; lia).
    destruct (IH Hne) as [Hb Hall]. simpl in Hf.
    split; [by apply lookup_app_l_Some|].
    intros i g Hi. apply lookup_app_Some in Hi as [Hi|[Hge Hi]]; [by apply Hall|].
    apply list_lookup_singleton_Some in Hi as [Hi <-]. lia.
  - simpl in Ht. symmetry in Ht. apply app_eq_nil in Ht as [-> ->]. simpl.
    apply Hnew. intros _. simpl in Hf. done.
Qed.

Lemma kept_NoDup (cell_num : nat) (rs : list Z) (top : list entry) :
  kept cell_num rs top → NoDup (arr_index <$> top).
Proof.
  intros [Hg Ho _]. induction Ho as [|a l Hl IH Ha]; [constructor|].
  apply Forall_cons_1 in Hg as [Hga Hg]. simpl. constructor; [|by apply IH].
  intros Hin. apply list_elem_of_fmap in Hin as (b & Hab & Hb).
  rewrite Forall_forall in Ha, Hg. specialize (Ha b Hb). specialize (Hg b Hb).
  simpl in Hg. rewrite <- Hab, Hga in Hg. injection Hg as Hp.
  unfold ranks_before in Ha. lia.
Qed.

(** X1.  At every point of the window, each taken slot of the ranked
    array holds the power that the source it names has at that point; the
    taken slots are in rank order, stronger first and among equal powers
    the earlier source first; and no source is named twice. *)
Theorem taken_slots_are_ranked_readings (DB_MIN_VAL : Z) (cell_num nrows ncols : nat)
  (srcs : list source) (row col : nat) :
  (1 ≤ cell_num)%nat → (row < nrows)%nat → (col < ncols)%nat →
  let c := columns (ingest DB_MIN_VAL cell_num nrows ncols srcs) !!! (row * ncols + col)%nat in
  let top := take (cell_num `min` length srcs) c in
  Forall (λ e, ∃ s, srcs !! arr_index e = Some s
                    ∧ arr_power e = f_in_at DB_MIN_VAL s row col) top
  ∧ StronglySorted ranks_before top
  ∧ NoDup (arr_index <$> top).
Proof.
  intros HK Hr Hc c top. subst c top. rewrite ingest_point by done.
  pose proof (rank_readings_kept cell_num (readings_at DB_MIN_VAL srcs row col) HK) as Hk.
  assert (length (readings_at DB_MIN_VAL srcs row col) = length srcs) as Hl
    by apply length_fmap.
  rewrite Hl in Hk.
  split_and!; [|by destruct Hk|by apply (kept_NoDup _ _ _ Hk)].
  destruct Hk as [Hg _ _]. eapply Forall_impl; [exact Hg|].
  intros e He. simpl in He. unfold readings_at in He.
  rewrite list_lookup_fmap in He.
  destruct (srcs !! arr_index e) as [s|]; [|done].
  exists s. split; [done|]. simpl in He. by injection He.
Qed.

Lemma taken_slots_are_ranked_readings_witness :
  (1 ≤ 2)%nat ∧ (1 < 2)%nat ∧ (1 < 2)%nat
  ∧ StronglySorted ranks_before
      (take (2 `min` length sample_srcs)
         (columns (ingest (-999) 2 2 2 sample_srcs) !!! (1 * 2 + 1)%nat)).
Proof.
  split_and!; [lia|lia|lia|].
  apply (taken_slots_are_ranked_readings (-999) 2 2 2 sample_srcs 1 1); lia.
Defined.

(** X2.  The ranked array of a point keeps the strongest readings: a
    source that no taken slot names has, at that point, a power that is
    at most the power of every taken slot, and all [cell_num] slots are
    then taken. *)
Theorem left_out_readings_are_weaker (DB_MIN_VAL : Z) (cell_num nrows ncols : nat)
  (srcs : list source) (row col : nat) (i : nat) (s : source) :
  (1 ≤ cell_num)%nat → (row < nrows)%nat → (col < ncols)%nat →
  srcs !! i = Some s →
  let c := columns (ingest DB_MIN_VAL cell_num nrows ncols srcs) !!! (row * ncols + col)%nat in
  let top := take (cell_num `min` length srcs) c in
  i ∉ arr_index <$> top →
  (cell_num ≤ length srcs)%nat ∧ top = c
  ∧ Forall (λ e, f_in_at DB_MIN_VAL s row col ≤ arr_power e) c.
Proof.
  intros HK Hr Hc Hs c top Hout. subst c top. rewrite ingest_point in * by done.
  pose proof (rank_readings_kept cell_num (readings_at DB_MIN_VAL srcs row col) HK) as Hk.
  pose proof (rank_readings_ranked DB_MIN_VAL cell_num HK
                (readings_at DB_MIN_VAL srcs row col)) as [Hlen _ _].
  assert (length (readings_at DB_MIN_VAL srcs row col) = length srcs) as Hl
    by apply length_fmap.
  rewrite Hl in Hk.
  destruct Hk as [_ _ Hrest].
  destruct (Hrest i (f_in_at DB_MIN_VAL s row col)) as [(e & He & Hei)|[Hfull Hle]].
  - unfold readings_at. by rewrite list_lookup_fmap, Hs.
  - exfalso. apply Hout. apply list_elem_of_fmap. by exists e.
  - rewrite length_take in Hfull.
    assert (cell_num ≤ length srcs)%nat as Hle' by lia.
    rewrite Nat.min_l, take_ge in * by lia. done.
Qed.

Lemma left_out_readings_are_weaker_witness :
  let c := Source "c" 3 0 "m3" [[Some 95; Some 100]; [None; Some 70]] in
  (1 ≤ 2)%nat ∧ (0 < 2)%nat ∧ (0 < 2)%nat
  ∧ sample_srcs !! 2%nat = Some c
  ∧ (2%nat ∉ arr_index <$> take (2 `min` length sample_srcs)
                             (columns (ingest (-999) 2 2 2 sample_srcs) !!! (0 * 2 + 0)%nat))
  ∧ Forall (λ e, f_in_at (-999) c 0 0 ≤ arr_power e)
      (columns (ingest (-999) 2 2 2 sample_srcs) !!! (0 * 2 + 0)%nat).
Proof.
  split_and!; [lia|lia|lia|reflexivity|apply (bool_decide_unpack _); vm_compute; exact I|].
  apply (left_out_readings_are_weaker (-999) 2 2 2 sample_srcs 0 0 2
           (Source "c" 3 0 "m3" [[Some 95; Some 100]; [None; Some 70]]));
    [lia|lia|lia|reflexivity|].
  apply (bool_decide_unpack _). vm_compute. exact I.
Defined.

(** X3.  With two or more slots, slot 0 of a point holds the strongest
    power any source has there and names the earliest source that
    reaches it. *)
Theorem best_server_is_earliest_strongest (DB_MIN_VAL : Z) (cell_num nrows ncols : nat)
  (srcs : list source) (row col : nat) :
  (2 ≤ cell_num)%nat → (row < nrows)%nat → (col < ncols)%nat → srcs ≠ [] →
  let b := (columns (ingest DB_MIN_VAL cell_num nrows ncols srcs)
              !!! (row * ncols + col)%nat) !!! 0%nat in
  (∃ s, srcs !! arr_index b = Some s ∧ arr_power b = f_in_at DB_MIN_VAL s row col)
  ∧ ∀ i s, srcs !! i = Some s →
      f_in_at DB_MIN_VAL s row col < arr_power b
      ∨ (f_in_at DB_MIN_VAL s row col = arr_power b ∧ (arr_index b ≤ i)%nat).
Proof.
  intros HK Hr Hc Hne b. subst b. rewrite ingest_point by (done || lia).
  destruct (rank_readings_best_earliest cell_num (readings_at DB_MIN_VAL srcs row col) HK)
    as [Hb Hall].
  { unfold readings_at. by destruct srcs. }
  remember (rank_readings cell_num (readings_at DB_MIN_VAL srcs row col) !!! 0%nat) as b.
  unfold readings_at in Hb, Hall. split.
  - rewrite list_lookup_fmap in Hb.
    destruct (srcs !! arr_index b) as [s|]; [|done].
    exists s. split; [done|]. simpl in Hb. by injection Hb.
  - intros i s Hs. apply Hall. by rewrite list_lookup_fmap, Hs.
Qed.

Lemma best_server_is_earliest_strongest_witness :
  (2 ≤ 2)%nat ∧ (1 < 2)%nat ∧ (1 < 2)%nat ∧ sample_srcs ≠ []
  ∧ ∃ s, sample_srcs !! arr_index ((columns (ingest (-999) 2 2 2 sample_srcs)
                                       !!! (1 * 2 + 1)%nat) !!! 0%nat) = Some s
         ∧ arr_power ((columns (ingest (-999) 2 2 2 sample_srcs)
                         !!! (1 * 2 + 1)%nat) !!! 0%nat) = f_in_at (-999) s 1 1.
Proof.
  split_and!; [lia|lia|lia|done|].
  apply (best_server_is_earliest_strongest (-999) 2 2 2 sample_srcs 1 1); [lia|lia|lia|done].
Defined.

(** X4.  With a single slot (the case of driver none), the slot holds
    the strongest power any source has at the point and names the latest
    source that reaches it. *)
Theorem single_slot_is_latest_strongest (DB_MIN_VAL : Z) (nrows ncols : nat)
  (srcs : list source) (row col : nat) :
  (row < nrows)%nat → (col < ncols)%nat → srcs ≠ [] →
  let b := (columns (ingest DB_MIN_VAL 1 nrows ncols srcs)
              !!! (row * ncols + col)%nat) !!! 0%nat in
  (∃ s, srcs !! arr_index b = Some s ∧ arr_power b = f_in_at DB_MIN_VAL s row col)
  ∧ ∀ i s, srcs !! i = Some s →
      f_in_at DB_MIN_VAL s row col < arr_power b
      ∨ (f_in_at DB_MIN_VAL s row col = arr_power b ∧ (i ≤ arr_index b)%nat).
Proof.
  intros Hr Hc Hne b. subst b. rewrite ingest_point by (done || lia).
  destruct (rank_readings_best_latest (readings_at DB_MIN_VAL srcs row col))
    as [Hb Hall].
  { unfold readings_at. by destruct srcs. }
  remember (rank_readings 1 (readings_at DB_MIN_VAL srcs row col) !!! 0%nat) as b.
  unfold readings_at in Hb, Hall. split.
  - rewrite list_lookup_fmap in Hb.
    destruct (srcs !! arr_index b) as [s|]; [|done].
    exists s. split; [done|]. simpl in Hb. by injection Hb.
  - intros i s Hs. apply Hall. by rewrite list_lookup_fmap, Hs.
Qed.

Lemma single_slot_is_latest_strongest_witness :
  (1 < 2)%nat ∧ (1 < 2)%nat ∧ sample_srcs ≠ []
  ∧ ∀ i s, sample_srcs !! i = Some s →
      let b := (columns (ingest (-999) 1 2 2 sample_srcs) !!! (1 * 2 + 1)%nat) !!! 0%nat in
      f_in_at (-999) s 1 1 < arr_power b
      ∨ (f_in_at (-999) s 1 1 = arr_power b ∧ (i ≤ arr_index b)%nat).
Proof.
  split_and!; [lia|lia|done|].
  apply (single_slot_is_latest_strongest (-999) 2 2 sample_srcs 1 1); [lia|lia|done].
Defined.

(** X5.  The ranked array of a point is made from the readings of that
    point alone: two runs, on any windows and source lists, whose sources
    have the same powers in the same order at two points leave the same
    array at these points.  The shared counter [count_mem] carries
    nothing from one point to the next. *)
Theorem point_ranking_is_local (DB_MIN_VAL : Z) (cell_num : nat)
  (nrows ncols : nat) (srcs : list source) (row col : nat)
  (nrows' ncols' : nat) (srcs' : list source) (row' col' : nat) :
  (1 ≤ cell_num)%nat →
  (row < nrows)%nat → (col < ncols)%nat → (row' < nrows')%nat → (col' < ncols')%nat →
  readings_at DB_MIN_VAL srcs row col = readings_at DB_MIN_VAL srcs' row' col' →
  columns (ingest DB_MIN_VAL cell_num nrows ncols srcs) !!! (row * ncols + col)%nat
  = columns (ingest DB_MIN_VAL cell_num nrows' ncols' srcs') !!! (row' * ncols' + col')%nat.
Proof.
  intros HK Hr Hc Hr' Hc' Heq. rewrite !ingest_point by done. by rewrite Heq.
Qed.

Lemma point_ranking_is_local_witness :
  let srcs' := [Source "p" 7 5 "m" [[Some 75]]; Source "q" 8 0 "m" [[Some 70]];
                Source "r" 9 (-10) "m" [[Some 60]]] in
  (1 ≤ 2)%nat ∧ (1 < 2)%nat ∧ (1 < 2)%nat ∧ (0 < 1)%nat ∧ (0 < 1)%nat
  ∧ readings_at (-999) sample_srcs 1 1 = readings_at (-999) srcs' 0 0
  ∧ columns (ingest (-999) 2 2 2 sample_srcs) !!! (1 * 2 + 1)%nat
    = columns (ingest (-999) 2 1 1 srcs') !!! (0 * 1 + 0)%nat.
Proof.
  split_and!; [lia|lia|lia|lia|lia|reflexivity|].
  apply (point_ranking_is_local (-999) 2 2 2 sample_srcs 1 1 1 1
           [Source "p" 7 5 "m" [[Some 75]]; Source "q" 8 0 "m" [[Some 70]];
            Source "r" 9 (-10) "m" [[Some 60]]] 0 0); [lia|lia|lia|lia|lia|reflexivity].
Defined.

(** ** The output raster, from the sources to the cells *)

(** The strongest entry after the last map: a reading of the point that
    no reading exceeds. *)
Lemma rank_readings_best_max (cell_num : nat) (rs : list Z) :
  (1 ≤ cell_num)%nat → rs ≠ [] →
  let b := rank_readings cell_num rs !!! 0%nat in
  rs !! arr_index b = Some (arr_power b) ∧ Forall (λ f, f ≤ arr_power b) rs.
Proof.
  intros HK Hne b. subst b.
  destruct (decide (cell_num = 1%nat)) as [->|Hk].
  - destruct (rank_readings_best_latest rs Hne) as [Hb Hall]. split; [done|].
    apply Forall_forall. intros f Hf. apply list_elem_of_lookup in Hf as [i Hi].
    destruct (Hall i f Hi); lia.
  - destruct (rank_readings_best_earliest cell_num rs ltac:(lia) Hne) as [Hb Hall].
    split; [done|].
    apply Forall_forall. intros f Hf. apply list_elem_of_lookup in Hf as [i Hi].
    destruct (Hall i f Hi); lia.
Qed.

Lemma best_at_ingest (DB_MIN_VAL : Z) (cell_num nrows ncols : nat) (srcs : list source)
  (row col : nat) :
  (1 ≤ cell_num)%nat → (row < nrows)%nat → (col < ncols)%nat → srcs ≠ [] →
  let b := best_at (columns (ingest DB_MIN_VAL cell_num nrows ncols srcs)) ncols row col in
  (∃ s, s ∈ srcs ∧ arr_power b = f_in_at DB_MIN_VAL s row col)
  ∧ ∀ s, s ∈ srcs → f_in_at DB_MIN_VAL s row col ≤ arr_power b.
Proof.
  intros HK Hr Hc Hne b. subst b. unfold best_at. rewrite ingest_point by done.
  destruct (rank_readings_best_max cell_num (readings_at DB_MIN_VAL srcs row col) HK)
    as [Hb Hall].
  { unfold readings_at. by destruct srcs. }
  remember (rank_readings cell_num (readings_at DB_MIN_VAL srcs row col) !!! 0%nat) as b.
  unfold readings_at in Hb, Hall. split.
  - rewrite list_lookup_fmap in Hb.
    destruct (srcs !! arr_index b) as [s|] eqn:Hs; [|done].
    exists s. split; [by eapply list_elem_of_lookup_2|]. simpl in Hb. by injection Hb.
  - intros s Hs. rewrite Forall_fmap, Forall_forall in Hall. by apply Hall.
Qed.

(** The cell of the raster row at a point of the window. *)
Lemma write_raster_cell (DB_MIN_VAL : Z) (sum_dBm : list Z → Z)
  (PdBm2LteThroughput : lte_output → Z → Z → Z)
  (cfg : config) (arr : list column) (srcs : list source) (row col : nat) :
  (row < nrows cfg)%nat → (col < ncols cfg)%nat →
  ∃ cells,
    put (write_raster DB_MIN_VAL sum_dBm PdBm2LteThroughput cfg arr srcs) !! row
    = Some (RasterRow cells)
    ∧ length cells = ncols cfg
    ∧ cells !! col
      = Some (raster_cell DB_MIN_VAL sum_dBm PdBm2LteThroughput cfg arr srcs row col).
Proof.
  intros Hr Hc. rewrite write_raster_put. eexists. split_and!.
  - rewrite list_lookup_fmap, lookup_seq_lt by done. reflexivity.
  - by rewrite length_fmap, length_seq.
  - by rewrite list_lookup_fmap, lookup_seq_lt by done.
Qed.

Section RasterEndToEnd.

Variable DB_MIN_VAL : Z.
Variable sum_dBm : list Z → Z.
Variable PdBm2LteThroughput : lte_output → Z → Z → Z.

(** X6.  With [generate=coverage] the cell of the output raster at a
    point is 1 when some source has there a power above the threshold,
    and null when none has. *)
Theorem coverage_cell_is_one_iff_some_source_above_threshold
  (cfg : config) (K : nat) (srcs : list source) (row col : nat) :
  generate_of cfg = coverage →
  (1 ≤ K)%nat → (row < nrows cfg)%nat → (col < ncols cfg)%nat → srcs ≠ [] →
  let arr := columns (ingest DB_MIN_VAL K (nrows cfg) (ncols cfg) srcs) in
  ∃ cells,
    put (write_raster DB_MIN_VAL sum_dBm PdBm2LteThroughput cfg arr srcs) !! row
    = Some (RasterRow cells)
    ∧ length cells = ncols cfg
    ∧ ((∃ s, s ∈ srcs ∧ rx_thresh cfg < f_in_at DB_MIN_VAL s row col)
         → cells !! col = Some (Some 1))
    ∧ ((∀ s, s ∈ srcs → f_in_at DB_MIN_VAL s row col ≤ rx_thresh cfg)
         → cells !! col = Some None).
Proof.
  intros Hg HK Hr Hc Hne arr.
  destruct (write_raster_cell DB_MIN_VAL sum_dBm PdBm2LteThroughput cfg arr srcs row col Hr Hc)
    as (cells & Hrow & Hlen & Hcell).
  exists cells. split_and!; [done|done| |].
  - intros (s & Hs & Hgt). rewrite Hcell. f_equal.
    unfold raster_cell, f_out. rewrite Hg. simpl.
    destruct (best_at_ingest DB_MIN_VAL K (nrows cfg) (ncols cfg) srcs row col HK Hr Hc Hne)
      as [_ Hmax].
    specialize (Hmax s Hs). fold arr in Hmax.
    destruct (_ <=? _) eqn:E; [|done]. apply Z.leb_le in E. lia.
  - intros Hall. rewrite Hcell. f_equal.
    unfold raster_cell, f_out.
    destruct (best_at_ingest DB_MIN_VAL K (nrows cfg) (ncols cfg) srcs row col HK Hr Hc Hne)
      as [(s & Hs & Hb) _].
    fold arr in Hb. specialize (Hall s Hs).
    destruct (_ <=? _) eqn:E; [done|]. apply Z.leb_gt in E. lia.
Qed.


End RasterEndToEnd.

Lemma coverage_cell_is_one_iff_some_source_above_threshold_witness :
  generate_of (sample_cfg "none" 1 coverage) = coverage
  ∧ (1 ≤ 1)%nat ∧ (0 < nrows (sample_cfg "none" 1 coverage))%nat
  ∧ (0 < ncols (sample_cfg "none" 1 coverage))%nat ∧ sample_srcs ≠ []
  ∧ ∃ cells,
      put (write_raster (-999) sample_sum_dBm sample_lte (sample_cfg "none" 1 coverage)
             (columns (ingest (-999) 1 2 2 sample_srcs)) sample_srcs) !! 0%nat
      = Some (RasterRow cells)
      ∧ length cells = 2%nat.
Proof.
  split_and!; [reflexivity|lia|simpl; lia|simpl; lia|done|].
  destruct (coverage_cell_is_one_iff_some_source_above_threshold (-999) sample_sum_dBm
              sample_lte (sample_cfg "none" 1 coverage) 1 sample_srcs 0 0)
    as (cells & H1 & H2 & _); [reflexivity|lia|simpl; lia|simpl; lia|done|].
  exists cells. split; [exact H1|exact H2].
Defined.


(** ** Runs that stop early, and what every strategy persists *)

Lemma sum_list_app_nat (l1 l2 : list nat) :
  sum_list (l1 ++ l2) = (sum_list l1 + sum_list l2)%nat.
Proof. induction l1 as [|x l1 IH]; [done|]. simpl. rewrite IH. lia. Qed.

Lemma sum_list_bind {A : Type} (f : A → list nat) (l : list A) :
  sum_list (l ≫= f) = sum_list ((λ x, sum_list (f x)) <$> l).
Proof.
  induction l as [|x l IH]; [done|]. simpl. rewrite sum_list_app_nat. by f_equal.
Qed.

Section MainEdges.

Variable DB_MIN_VAL : Z.
Variable printf_f2 : Z → string.
Variable sum_dBm : list Z → Z.
Variable PdBm2LteThroughput : lte_output → Z → Z → Z.

(** X8.  A table that exists already, with a database driver and
    without the overwrite flag, stops the run at once: the only thing
    done is the message that counts the cells; the output raster is not
    opened and nothing is deleted, created or written. *)
Theorem existing_table_stops_run_before_raster (e : env) (cfg : config)
  (srcs : list source) :
  srcs ≠ [] → drv_name cfg ≠ "none" → drv_name cfg ≠ "csv" →
  table_exists e = true → ovr cfg = false →
  main DB_MIN_VAL printf_f2 sum_dBm PdBm2LteThroughput e cfg srcs
  = ([Message ("Processing " +:+ pretty (length srcs) +:+ " cells...")],
     Fatal ("Table <" +:+ tbl_name cfg +:+ "> already exists")).
Proof.
  intros Hne H1 H2 Ht Ho. rewrite main_run by done. rewrite prepare_table_run.
  cbv zeta. rewrite !bool_decide_eq_false_2 by done. by rewrite Ht, Ho.
Qed.



(** X11.  Every strategy persists the same number of rows: the row
    counts of the INSERT statements of a run with a packet size add up
    to the number of lines a run with the csv driver writes, which is
    the number of points of the window whose best power is not the
    no-data value. *)
Theorem strategies_persist_the_same_rows (e e' : env) (drv_name : string)
  (db_perf db_perf' : Z) (a : fill_args) :
  csv2db (select_strategy drv_name db_perf) = false →
  csv_exists e' && negb (fa_ovr a) = false →
  let points := sum_list ((λ row, length (persisted_cols DB_MIN_VAL a row))
                            <$> seq 0 (fa_nrows a)) in
  sum_list (insert_sizes (events (fill_database DB_MIN_VAL printf_f2 e drv_name db_perf a)))
  = points
  ∧ length (lines_written (events (fill_database DB_MIN_VAL printf_f2 e' "csv" db_perf' a)))
    = points.
Proof.
  intros Hs Hx points. subst points. split.
  - rewrite fill_database_insert by done. cbn [events fst].
    change (TransactionBegun :: ?t) with ([TransactionBegun] ++ t).
    rewrite !insert_sizes_app. simpl. rewrite app_nil_r.
    rewrite insert_sizes_bind, sum_list_bind. f_equal.
    apply list_fmap_ext. intros _ row _.
    unfold row_statements. rewrite insert_sizes_packets, <- length_join.
    rewrite packets_join. simpl. unfold row_records. by rewrite length_fmap.
  - rewrite fill_database_csv, Hx. cbn [events fst].
    change (FileOpened ?f :: ?t) with ([FileOpened f] ++ t).
    rewrite !lines_written_app, lines_written_lines. simpl. rewrite app_nil_r.
    unfold records. rewrite length_bind_sum. f_equal.
    apply list_fmap_ext. intros _ row _. unfold row_records. by rewrite length_fmap.
Qed.

End MainEdges.

Lemma existing_table_stops_run_before_raster_witness :
  sample_srcs ≠ [] ∧ "mysql" ≠ "none" ∧ "mysql" ≠ "csv"
  ∧ table_exists (Env true false "/tmp/fileAAAAAA") = true
  ∧ ovr (sample_cfg "mysql" 20 rss_max) = false
  ∧ main (-999) sample_printf_f2 sample_sum_dBm sample_lte
      (Env true false "/tmp/fileAAAAAA") (sample_cfg "mysql" 20 rss_max) sample_srcs
    = ([Message "Processing 3 cells..."], Fatal "Table <tbl> already exists").
Proof.
  split_and!; [done|done|done|reflexivity|reflexivity|].
  apply (existing_table_stops_run_before_raster (-999) sample_printf_f2 sample_sum_dBm
           sample_lte (Env true false "/tmp/fileAAAAAA") (sample_cfg "mysql" 20 rss_max)
           sample_srcs); [done|done|done|reflexivity|reflexivity].
Defined.



Lemma strategies_persist_the_same_rows_witness :
  csv2db (select_strategy "mysql" 20) = false
  ∧ csv_exists sample_env && negb (fa_ovr sample_fill_args) = false
  ∧ sum_list (insert_sizes (events (fill_database (-999) sample_printf_f2 sample_env
                                      "mysql" 20 sample_fill_args)))
    = length (lines_written (events (fill_database (-999) sample_printf_f2 sample_env
                                       "csv" 20 sample_fill_args))).
Proof.
  split_and!; [reflexivity|reflexivity|].
  destruct (strategies_persist_the_same_rows (-999) sample_printf_f2 sample_env sample_env
              "mysql" 20 20 sample_fill_args) as [H1 H2]; [reflexivity|reflexivity|].
  rewrite H1, H2. reflexivity.
Defined.

(** ** The layout of the table and of the records *)

Lemma cell_columns_step (i : nat) (pre post : list db_column) (b1 b2 b3 b4 : db_column) :
  cell_columns i (pre ++ b1 :: b2 :: b3 :: b4 :: post, length pre)
  = (pre ++ slot_columns i ++ post, (length pre + 4)%nat).
Proof.
  unfold cell_columns. f_equal; [|lia].
  induction pre as [|p pre IH]; [reflexivity|].
  simpl. f_equal. exact IH.
Qed.

Lemma cell_columns_fill (n : nat) :
  ∀ (i : nat) (pre post : list db_column),
    foldl (λ tc i, cell_columns i tc)
      (pre ++ db_alloc_table (4 * n) ++ post, length pre) (seq i n)
    = (pre ++ (seq i n ≫= slot_columns) ++ post, (length pre + 4 * n)%nat).
Proof.
  induction n as [|n IH]; intros i pre post.
  - simpl. by rewrite Nat.add_0_r.
  - replace (4 * S n)%nat with (4 + 4 * n)%nat by lia.
    unfold db_alloc_table. rewrite replicate_add. fold (db_alloc_table (4 * n)).
    cbn [seq foldl replicate app]. rewrite cell_columns_step.
    rewrite (assoc_L (++) pre).
    replace (length pre + 4)%nat with (length (pre ++ slot_columns i))
      by (rewrite length_app; simpl; lia).
    rewrite IH. rewrite length_app. f_equal; [|simpl; lia].
    cbn [mbind list_bind]. by rewrite <- !(assoc_L (++)).
Qed.

Lemma insert_at_end {A : Type} (l : list A) (x y : A) (k : nat) :
  length l = k → <[k := x]> (l ++ [y]) = l ++ [x].
Proof.
  intros <-. induction l as [|a l IH]; [reflexivity|]. simpl. f_equal. exact IH.
Qed.

Lemma table_columns_layout (cell_num : nat) :
  table_columns cell_num = table_layout cell_num.
Proof.
  unfold table_columns, table_layout.
  pose proof (cell_columns_fill cell_num 1
    [DbColumn "x" DB_SQL_TYPE_INTEGER 6; DbColumn "y" DB_SQL_TYPE_INTEGER 6;
     DbColumn "resolution" DB_SQL_TYPE_INTEGER 4]
    [DbColumn EmptyString DB_SQL_TYPE_UNKNOWN 0]) as H.
  assert (length (seq 1 cell_num ≫= slot_columns) = (4 * cell_num)%nat) as Hlen.
  { rewrite length_bind_sum.
    rewrite (sum_list_fmap_same 4) by (apply Forall_forall; done).
    rewrite length_seq. lia. }
  remember (4 * cell_num)%nat as n eqn:Hn.
  replace (n + 4)%nat with (S (S (S (n + 1)))) by lia.
  unfold db_alloc_table in *. cbn [replicate app length] in *.
  rewrite replicate_add. cbn [replicate].
  change (<[2%nat:=?c]> (<[1%nat:=?b]> (<[0%nat:=?a]> (_ :: _ :: _ :: ?l))))
    with (a :: b :: c :: l).
  rewrite H.
  rewrite !app_comm_cons. apply insert_at_end.
  simpl. rewrite Hlen. lia.
Qed.

Lemma separated_by_app (sep : string) (l1 l2 : list string) :
  l1 ≠ [] → l2 ≠ [] →
  separated_by sep (l1 ++ l2) = separated_by sep l1 +:+ sep +:+ separated_by sep l2.
Proof.
  intros H1 H2. induction l1 as [|s l1 IH]; [done|].
  destruct l1 as [|s' l1].
  - simpl. by destruct l2.
  - change (separated_by sep ((s :: s' :: l1) ++ l2))
      with (s +:+ sep +:+ separated_by sep ((s' :: l1) ++ l2)).
    rewrite IH by done.
    change (separated_by sep (s :: s' :: l1))
      with (s +:+ sep +:+ separated_by sep (s' :: l1)).
    by rewrite !append_assoc.
Qed.

Section FieldLemmas.

Variable printf_f2 : Z → string.

Lemma cell_text_fields (a : fill_args) (c : column) (cell : nat) :
  cell_text printf_f2 a c cell
  = "," +:+ separated_by "," (field_text printf_f2 <$> slot_fields a c cell).
Proof.
  unfold cell_text, slot_fields. cbn [fmap list_fmap separated_by field_text].
  rewrite !append_assoc. reflexivity.
Qed.

Lemma slots_text (a : fill_args) (c : column) (l : list nat) (pre : list string) :
  pre ≠ [] →
  foldl (λ s cell, s +:+ cell_text printf_f2 a c cell) (separated_by "," pre) l
  = separated_by "," (pre ++ (field_text printf_f2 <$> (l ≫= slot_fields a c))).
Proof.
  revert pre. induction l as [|cell l IH]; intros pre Hpre.
  - simpl. by rewrite app_nil_r.
  - cbn [foldl]. rewrite cell_text_fields.
    rewrite <- (separated_by_app ",") by done.
    rewrite IH by (by destruct pre).
    f_equal. cbn [mbind list_bind]. by rewrite fmap_app, (assoc_L (++)).
Qed.

Lemma record_text_fields (a : fill_args) (row col : nat) :
  record_text printf_f2 a row col
  = separated_by "," (field_text printf_f2 <$> record_fields a row col).
Proof.
  unfold record_text, append_record, record_fields. cbv zeta.
  rewrite !fmap_app, (assoc_L (++)).
  rewrite (separated_by_app ","); [|by simpl|done].
  rewrite <- slots_text by done. reflexivity.
Qed.

Lemma record_fields_sqltypes (a : fill_args) (row col : nat) :
  field_sqltype <$> record_fields a row col
  = column_sqltype <$> table_columns (fa_ncells a).
Proof.
  rewrite table_columns_layout. unfold record_fields, table_layout. cbv zeta.
  rewrite !fmap_app. f_equal. f_equal.
  generalize 1%nat. induction (fa_ncells a) as [|n IH]; intros i; [done|].
  cbn [seq mbind list_bind]. rewrite !fmap_app. f_equal. apply IH.
Qed.

End FieldLemmas.

(** X12.  [create_table] sets each of the [4 * cell_num + 4] columns
    it allocates: x, y and resolution, then cell, id, Pr and model with
    the number of the slot for the slots 1 to [cell_num] in this order,
    then EcN0.  No column keeps the type it was allocated with. *)
Theorem table_columns_are_laid_out (cell_num : nat) :
  table_columns cell_num = table_layout cell_num
  ∧ Forall (λ c, column_sqltype c ≠ DB_SQL_TYPE_UNKNOWN) (table_columns cell_num).
Proof.
  split; [apply table_columns_layout|].
  rewrite table_columns_layout. unfold table_layout.
  repeat (apply Forall_cons; split; [done|]).
  apply Forall_app. split; [|by repeat constructor].
  apply Forall_forall. intros c Hc.
  apply list_elem_of_bind in Hc as (i & Hc & _).
  unfold slot_columns in Hc. rewrite !elem_of_cons, elem_of_nil in Hc.
  destruct Hc as [->|[->|[->|[->|[]]]]]; done.
Qed.

(** X13.  The record of a point lines up with the columns of the
    table: it is the comma-separated text of [4 * cell_num + 4] fields,
    three whole numbers, then for each slot a quoted text, a whole
    number, a number with two decimals and a quoted text, then a number
    with two decimals, and the column at the place of each field has
    the type of that field. *)
Theorem record_fields_match_table_columns (printf_f2 : Z → string)
  (a : fill_args) (row col : nat) :
  record_text printf_f2 a row col
  = separated_by "," (field_text printf_f2 <$> record_fields a row col)
  ∧ field_sqltype <$> record_fields a row col
    = column_sqltype <$> table_columns (fa_ncells a)
  ∧ length (record_fields a row col) = (4 * fa_ncells a + 4)%nat.
Proof.
  split_and!; [apply record_text_fields|apply record_fields_sqltypes|].
  rewrite <- (length_fmap field_sqltype), record_fields_sqltypes, length_fmap.
  apply table_columns_length.
Qed.

(** ** LTE_RaPlaT_Fun.c *)

Lemma BwMHz2nRB_cases (double : Type) (int_of_double : double → Z) (LTE_BWMHZ : double)
  (BwMHz : double) (nRB : Z) (BwMHz' : double) :
  BwMHz2nRB double int_of_double LTE_BWMHZ BwMHz = Some (nRB, BwMHz') →
  (nRB = 15 ∧ int_of_double BwMHz = 3 ∧ BwMHz' = BwMHz)
  ∨ (nRB = 25 ∧ int_of_double BwMHz = 5 ∧ BwMHz' = BwMHz)
  ∨ (nRB = 50 ∧ int_of_double BwMHz = 10 ∧ BwMHz' = BwMHz)
  ∨ (nRB = 75 ∧ int_of_double BwMHz = 15 ∧ BwMHz' = BwMHz)
  ∨ (nRB = 100 ∧ int_of_double BwMHz = 20 ∧ BwMHz' = BwMHz)
  ∨ (nRB = 50 ∧ BwMHz' = LTE_BWMHZ
     ∧ ¬ int_of_double BwMHz ∈ [3; 5; 10; 15; 20]).
Proof.
  unfold BwMHz2nRB, int_mul. intros H.
  destruct (_ && _); [|done]. simpl in H.
  remember (int_of_double BwMHz) as t.
  repeat match type of H with
  | context [?x =? ?c] => destruct (Z.eqb_spec x c)
  end; injection H as <- <-; try (exfalso; lia).
  - left. split_and!; (done || lia).
  - right. left. split_and!; (done || lia).
  - do 2 right. left. split_and!; (done || lia).
  - do 3 right. left. split_and!; (done || lia).
  - do 4 right. left. split_and!; (done || lia).
  - do 5 right. split_and!; try done.
    rewrite !elem_of_cons, elem_of_nil. lia.
Qed.

(** X14.  [BwMHz2nRB] multiplies the whole part of the bandwidth by ten,
    so its case 14 is never met: the result is 15, 25, 50, 75 or 100,
    never the 6 resource blocks of 1.4 MHz.  A bandwidth whose whole
    part is not 3, 5, 10, 15 or 20 gets the default 50 and is replaced
    by [LTE_BWMHZ]; the other bandwidths are left as they are. *)
Theorem BwMHz2nRB_never_six (double : Type) (int_of_double : double → Z)
  (LTE_BWMHZ : double) (BwMHz : double) :
  INT_MIN ≤ int_of_double BwMHz * 10 ≤ INT_MAX →
  ∃ nRB BwMHz',
    BwMHz2nRB double int_of_double LTE_BWMHZ BwMHz = Some (nRB, BwMHz')
    ∧ nRB ∈ [15; 25; 50; 75; 100]
    ∧ (int_of_double BwMHz ∈ [3; 5; 10; 15; 20] → BwMHz' = BwMHz)
    ∧ (int_of_double BwMHz ∉ [3; 5; 10; 15; 20] → nRB = LTE_NRB ∧ BwMHz' = LTE_BWMHZ).
Proof.
  intros Hr.
  destruct (BwMHz2nRB double int_of_double LTE_BWMHZ BwMHz) as [[nRB BwMHz']|] eqn:E.
  - exists nRB, BwMHz'. split; [done|].
    apply BwMHz2nRB_cases in E.
    rewrite !elem_of_cons, !elem_of_nil. unfold LTE_NRB.
    destruct E as [E|[E|[E|[E|[E|E]]]]]; destruct E as (-> & E1 & E2);
      rewrite ?elem_of_cons, ?elem_of_nil in E2;
      split_and!; try tauto; try lia; try (intros; exfalso; lia).
  - exfalso. unfold BwMHz2nRB, int_mul in E.
    destruct (_ && _) eqn:Hin; [done|].
    apply andb_false_iff in Hin as [Hin|Hin]; apply Z.leb_gt in Hin; lia.
Qed.

Section LTEProperties.

Variable double : Type.
Variable int_of_double : double → Z.
Variable times_10 : double → double.
Variable BwMHz_1_4 : double.

(** X15.  [LTEOverHeadApp] reads its tables inside their bounds for all
    arguments, and the integer it turns into the overhead lies between
    550 and 890 per mille: the entries 1000 are never returned.  The
    arguments it leaves are in range. *)
Theorem LTEOverHeadApp_in_bounds (BwMHz : double) (nPDCCH AntennaNum : Z) (cpf : ascii) :
  let r := LTEOverHeadApp double int_of_double times_10 BwMHz_1_4
             BwMHz nPDCCH AntennaNum cpf in
  (∃ v, iOverHead r = Some v ∧ 550 ≤ v ≤ 890)
  ∧ 1 ≤ oh_nPDCCH r ≤ 4 ∧ 1 ≤ oh_AntennaNum r ≤ 2
  ∧ (oh_cpf r = "n"%char ∨ oh_cpf r = "e"%char).
Proof.
  intros r. subst r. unfold LTEOverHeadApp. cbv zeta. cbn [iOverHead oh_nPDCCH oh_AntennaNum oh_cpf].
  set (cpf' := if negb (Ascii.eqb cpf "n") && negb (Ascii.eqb cpf "e") then "n"%char else cpf).
  set (nP := if (nPDCCH >? 4) || (nPDCCH <? 1) then 2 else nPDCCH).
  set (nA := if (AntennaNum >? 2) || (AntennaNum <? 1) then 1 else AntennaNum).
  assert (cpf' = "n"%char ∨ cpf' = "e"%char) as Hcpf.
  { subst cpf'. destruct (Ascii.eqb_spec cpf "n"), (Ascii.eqb_spec cpf "e"); simpl; auto. }
  assert (nP = 1 ∨ nP = 2 ∨ nP = 3 ∨ nP = 4) as HnP.
  { subst nP. destruct (Z.gtb_spec nPDCCH 4), (Z.ltb_spec nPDCCH 1); simpl; lia. }
  assert (nA = 1 ∨ nA = 2) as HnA.
  { subst nA. destruct (Z.gtb_spec AntennaNum 2), (Z.ltb_spec AntennaNum 1); simpl; lia. }
  clearbody cpf' nP nA.
  split; [|split_and!; (lia || done)].
  set (bw := if nP =? 4 then _ else _).
  remember (int_of_double (times_10 bw)) as s. clear Heqs bw.
  assert (∃ i, (if s =? 14 then 0 else if s =? 30 then 1 else if s =? 50 then 2
                else if s =? 100 then 3 else if s =? 150 then 4
                else if s =? 200 then 5 else 2) = i ∧ 0 ≤ i ≤ 5) as (i & -> & Hi).
  { eexists. split; [reflexivity|].
    repeat match goal with |- context [?x =? ?c] => destruct (x =? c) end; lia. }
  assert (i = 0 ∨ i = 1 ∨ i = 2 ∨ i = 3 ∨ i = 4 ∨ i = 5) as Hi' by lia. clear Hi.
  destruct Hcpf as [-> | ->];
    destruct HnP as [-> | [-> | [-> | ->]]];
    destruct HnA as [-> | ->];
    destruct Hi' as [-> | [-> | [-> | [-> | [-> | ->]]]]];
    (eexists; split; [reflexivity|done]).
Qed.

End LTEProperties.

Lemma BwMHz2nRB_never_six_witness :
  INT_MIN ≤ (14 `quot` 10) * 10 ≤ INT_MAX
  ∧ ∃ nRB BwMHz',
      BwMHz2nRB Z (λ x, x `quot` 10) 100 14 = Some (nRB, BwMHz')
      ∧ nRB ∈ [15; 25; 50; 75; 100]
      ∧ ((14 `quot` 10) ∈ [3; 5; 10; 15; 20] → BwMHz' = 14)
      ∧ ((14 `quot` 10) ∉ [3; 5; 10; 15; 20] → nRB = LTE_NRB ∧ BwMHz' = 100).
Proof.
  split; [vm_compute; split; discriminate|].
  apply (BwMHz2nRB_never_six Z (λ x, x `quot` 10) 100 14).
  vm_compute. split; discriminate.
Defined.

Lemma cinr_scan_unfold (n : nat) (tmpInt k : Z) :
  cinr_scan (S n) tmpInt k
  = match array_at LTE_CINRTABLE (k + 1) with
    | None => ReadOutside (k + 1)
    | Some t =>
        if tmpInt >? t then
          if k + 1 >? LTE_CINRSIZE then Index (LTE_CINRSIZE - 1)
          else cinr_scan n tmpInt (k + 1)
        else Index k
    end.
Proof. reflexivity. Qed.

Ltac eval_read :=
  match goal with
  | |- context [array_at LTE_CINRTABLE ?i] =>
      let v := eval vm_compute in (array_at LTE_CINRTABLE i) in
      change (array_at LTE_CINRTABLE i) with v
  end.

Ltac eval_guard :=
  match goal with
  | |- context [?a >? LTE_CINRSIZE] =>
      let v := eval vm_compute in (a >? LTE_CINRSIZE) in
      change (a >? LTE_CINRSIZE) with v
  end.

Ltac scan_step :=
  rewrite cinr_scan_unfold; eval_read; cbv iota beta;
  match goal with
  | |- context [?a >? ?t] =>
      rewrite (Z.gtb_ltb a t); destruct (Z.ltb_spec t a); [eval_guard; cbv iota|]
  end.

Ltac scan_done :=
  eexists; split; [reflexivity|];
  split; [lia|];
  split; intros t Ht; vm_compute in Ht; simplify_eq; lia.

(** The scan from the start of the table, by the place of [tmpInt]
    among the thresholds. *)
Lemma cinr_scan_cases (n : nat) (tmpInt : Z) :
  tmpInt ≤ 200000 →
  ∃ k, cinr_scan (16 + n) tmpInt (-1) = Index k ∧ -1 ≤ k ≤ 13
       ∧ (∀ t, array_at LTE_CINRTABLE k = Some t → t < tmpInt)
       ∧ (∀ t, array_at LTE_CINRTABLE (k + 1) = Some t → tmpInt ≤ t).
Proof.
  intros Hmax. cbn [Nat.add].
  do 15 (scan_step; [|scan_done]).
  exfalso. lia.
Qed.

Lemma cinr_scan_outside (n : nat) (tmpInt : Z) :
  200000 < tmpInt → cinr_scan (16 + n) tmpInt (-1) = ReadOutside 15.
Proof.
  intros Hmin. cbn [Nat.add].
  do 15 (scan_step; [|exfalso; lia]).
  rewrite cinr_scan_unfold. eval_read. reflexivity.
Qed.

(** X16.  For a scaled CINR of at most 200000, the last threshold, the
    scan of the CINR table stays inside the table and stops, whatever
    bound of 16 rounds or more it is given, at the index [k] of the last
    threshold below the value, -1 if there is none: the thresholds below
    [tmpInt] are those of the indices 0 to [k], and [k] is at most 13. *)
Theorem cinr_scan_finds_last_threshold_below (n : nat) (tmpInt : Z) :
  tmpInt ≤ 200000 →
  ∃ k, cinr_scan (16 + n) tmpInt (-1) = Index k ∧ -1 ≤ k ≤ 13
       ∧ ∀ i t, LTE_CINRTABLE !! i = Some t → (t < tmpInt ↔ Z.of_nat i ≤ k).
Proof.
  intros Hmax.
  destruct (cinr_scan_cases n tmpInt Hmax) as (k & Hk & Hb & H1 & H2).
  exists k. split; [done|]. split; [done|].
  assert (k ∈ [-1; 0; 1; 2; 3; 4; 5; 6; 7; 8; 9; 10; 11; 12; 13]) as Hek
    by (rewrite !elem_of_cons, elem_of_nil; lia).
  clear Hk Hb. rewrite !elem_of_cons, elem_of_nil in Hek.
  repeat (destruct Hek as [->|Hek]; [|]); try done;
    (specialize (H1 _ ltac:(vm_compute; reflexivity)) || clear H1);
    specialize (H2 _ ltac:(vm_compute; reflexivity));
    intros i t Hi;
    do 15 (destruct i as [|i]; [vm_compute in Hi; injection Hi as <-; lia|]);
    vm_compute in Hi; discriminate Hi.
Qed.

Lemma cinr_scan_finds_last_threshold_below_witness :
  7143 ≤ 200000
  ∧ ∃ k, cinr_scan (16 + 2) 7143 (-1) = Index k ∧ -1 ≤ k ≤ 13
       ∧ ∀ i t, LTE_CINRTABLE !! i = Some t → (t < 7143 ↔ Z.of_nat i ≤ k).
Proof.
  split; [lia|]. apply (cinr_scan_finds_last_threshold_below 2 7143). lia.
Defined.

(** X17.  For a scaled CINR above 200000 the scan passes all fifteen
    thresholds and then reads [LTE_CINRTABLE[15]], one element past the
    end of the table: the test [k > LTE_CINRSIZE] of line 401 comes too
    late to prevent it.  No spectral efficiency is defined then. *)
Theorem cinr_scan_reads_past_the_table (n : nat) (tmpInt : Z) :
  200000 < tmpInt →
  cinr_scan (16 + n) tmpInt (-1) = ReadOutside 15
  ∧ array_at LTE_CINRTABLE 15 = None
  ∧ spectral_efficiency tmpInt = None.
Proof.
  intros H. split_and!; [by apply cinr_scan_outside|reflexivity|].
  unfold spectral_efficiency.
  change (cinr_scan 18 tmpInt (-1)) with (cinr_scan (16 + 2) tmpInt (-1)).
  by rewrite (cinr_scan_outside 2 tmpInt H).
Qed.

Lemma cinr_scan_reads_past_the_table_witness :
  200000 < 200001 ∧ cinr_scan (16 + 0) 200001 (-1) = ReadOutside 15.
Proof.
  split; [lia|]. apply (cinr_scan_reads_past_the_table 0 200001). lia.
Defined.

(** X18.  Up to 200000 the spectral efficiency read from the table does
    not decrease when the scaled CINR grows, is 0 at or below the first
    threshold, and never exceeds 51152, the last entry but one: the last
    entry of [LTE_EFFICTABLE], 55547, is never the result. *)
Theorem spectral_efficiency_monotone (a b : Z) :
  a ≤ b → b ≤ 200000 →
  ∃ ea eb, spectral_efficiency a = Some ea ∧ spectral_efficiency b = Some eb
           ∧ 0 ≤ ea ∧ ea ≤ eb ∧ eb ≤ 51152
           ∧ (a ≤ -70000 → ea = 0).
Proof.
  intros Hab Hb. unfold spectral_efficiency.
  change (cinr_scan 18 a (-1)) with (cinr_scan (16 + 2) a (-1)).
  change (cinr_scan 18 b (-1)) with (cinr_scan (16 + 2) b (-1)).
  destruct (cinr_scan_cases 2 a ltac:(lia)) as (ka & -> & Hka & Ha1 & Ha2).
  destruct (cinr_scan_cases 2 b Hb) as (kb & -> & Hkb & Hb1 & Hb2).
  assert (ka ∈ [-1; 0; 1; 2; 3; 4; 5; 6; 7; 8; 9; 10; 11; 12; 13]) as Hea
    by (rewrite !elem_of_cons, elem_of_nil; lia).
  assert (kb ∈ [-1; 0; 1; 2; 3; 4; 5; 6; 7; 8; 9; 10; 11; 12; 13]) as Heb
    by (rewrite !elem_of_cons, elem_of_nil; lia).
  clear Hka Hkb.
  rewrite !elem_of_cons, elem_of_nil in Hea.
  rewrite !elem_of_cons, elem_of_nil in Heb.
  repeat (destruct Hea as [->|Hea]; [|]); try done;
    (specialize (Ha1 _ ltac:(vm_compute; reflexivity)) || clear Ha1);
    specialize (Ha2 _ ltac:(vm_compute; reflexivity));
    repeat (destruct Heb as [->|Heb]; [|]); try done;
    (specialize (Hb1 _ ltac:(vm_compute; reflexivity)) || clear Hb1);
    specialize (Hb2 _ ltac:(vm_compute; reflexivity));
    try (exfalso; lia);
    (eexists _, _; split; [vm_compute; reflexivity|];
     split; [vm_compute; reflexivity|]; lia).
Qed.

Lemma spectral_efficiency_monotone_witness :
  -80000 ≤ 150000 ∧ 150000 ≤ 200000
  ∧ ∃ ea eb, spectral_efficiency (-80000) = Some ea ∧ spectral_efficiency 150000 = Some eb
             ∧ 0 ≤ ea ∧ ea ≤ eb ∧ eb ≤ 51152
             ∧ (-80000 ≤ -70000 → ea = 0).
Proof.
  split; [lia|]. split; [lia|].
  apply (spectral_efficiency_monotone (-80000) 150000); lia.
Defined.

Lemma foldl_insert_points {A : Type} `{Inhabited A} (f : nat → A) (l : list A) (k : nat) :
  (k ≤ length l)%nat →
  let l' := foldl (λ l ix, <[ix := f ix]> l) l (seq 0 k) in
  length l' = length l
  ∧ (∀ ix, (ix < k)%nat → l' !!! ix = f ix)
  ∧ (∀ ix, (k ≤ ix)%nat → l' !!! ix = l !!! ix).
Proof.
  induction k as [|k IH]; intros Hk; [simpl; split_and!; [done|intros; lia|done]|].
  rewrite seq_S, foldl_app. cbn [foldl Nat.add].
  destruct (IH ltac:(lia)) as (Hlen & Hlt & Hge).
  set (l0 := foldl _ l (seq 0 k)) in *. clearbody l0. cbv zeta.
  split_and!.
  - by rewrite length_insert.
  - intros ix Hix. destruct (decide (ix = k)) as [->|Hne].
    + apply list_lookup_total_insert_eq. lia.
    + rewrite list_lookup_total_insert_ne by done. apply Hlt. lia.
  - intros ix Hix. rewrite list_lookup_total_insert_ne by lia. apply Hge. lia.
Qed.

(** X19.  [PdBm2LteThroughput] goes through the arrays column by
    column, while [main] fills them row by row; all the same, when the
    arrays have [nRows * nCols] elements each element of the output is
    written, from the best and the summed power at its own index and
    from nothing else. *)
Theorem PdBm2LteThroughput_is_pointwise (point_out : Z → Z → Z) (nRows nCols : nat)
  (sigMax sigSum sigOut : list Z) :
  length sigOut = (nRows * nCols)%nat →
  let out := PdBm2LteThroughput_loops point_out nRows nCols sigMax sigSum sigOut in
  length out = (nRows * nCols)%nat
  ∧ ∀ ij, (ij < nRows * nCols)%nat →
      out !!! ij = point_out (sigMax !!! ij) (sigSum !!! ij).
Proof.
  intros Hlen out. subst out. unfold PdBm2LteThroughput_loops.
  rewrite for_rows_cols_flat.
  rewrite (foldl_seq_ext _
             (λ l ix, <[ix := point_out (sigMax !!! ix) (sigSum !!! ix)]> l)).
  - destruct (foldl_insert_points (λ ix, point_out (sigMax !!! ix) (sigSum !!! ix))
                sigOut (nCols * nRows) ltac:(lia)) as (H1 & H2 & _).
    split; [lia|]. intros ij Hij. apply H2. lia.
  - intros l ix Hix. cbv zeta.
    assert (nRows ≠ 0)%nat as Hn by (intros ->; lia).
    assert ((ix / nRows * nRows + ix mod nRows)%nat = ix) as ->; [|done].
    pose proof (Nat.div_mod_eq ix nRows). lia.
Qed.

Lemma PdBm2LteThroughput_is_pointwise_witness :
  length [0; 0; 0; 0; 0; 0] = (2 * 3)%nat ∧ (4 < 2 * 3)%nat
  ∧ PdBm2LteThroughput_loops (λ sigMax sigSum, sigMax - sigSum) 2 3
      [-60; -70; -80; -90; -100; -110] [-59; -68; -77; -86; -95; -104]
      [0; 0; 0; 0; 0; 0] !!! 4%nat
    = -100 - -95.
Proof.
  split; [reflexivity|]. split; [lia|].
  apply (PdBm2LteThroughput_is_pointwise (λ sigMax sigSum, sigMax - sigSum) 2 3
           [-60; -70; -80; -90; -100; -110] [-59; -68; -77; -86; -95; -104]
           [0; 0; 0; 0; 0; 0]); [reflexivity|lia].
Defined.

(** ** strstr, str_in_strlist and the choice of the output *)

Lemma prefix_split (s l : string) :
  String.prefix s l = true ↔ ∃ t, l = s +:+ t.
Proof.
  revert l. induction s as [|a s IH]; intros l.
  - split; [intros _; by exists l|by destruct l].
  - destruct l as [|b l]; simpl.
    + split; [done|intros [t Ht]; rewrite append_cons in Ht; done].
    + destruct (Ascii.ascii_dec a b) as [<-|Hne].
      * rewrite IH. split; intros [t Ht]; exists t.
        -- rewrite append_cons. by f_equal.
        -- rewrite append_cons in Ht. by injection Ht.
      * split; [done|]. intros [t Ht]. rewrite append_cons in Ht. by injection Ht.
Qed.

Lemma strstr_string_from (l s : string) (i : nat) :
  strstr l s = Some i →
  String.prefix s (string_from i l) = true ∧ (i ≤ String.length l)%nat.
Proof.
  revert i. induction l as [|a l IH]; intros i; cbn [strstr].
  - destruct (String.prefix s EmptyString) eqn:E; [|done].
    intros [= <-]. done.
  - destruct (String.prefix s (String a l)) eqn:E.
    + intros [= <-]. split; [done|simpl; lia].
    + destruct (strstr l s) as [j|]; [|done]. simpl. intros [= <-].
      destruct (IH j eq_refl) as [H1 H2]. split; [done|simpl; lia].
Qed.

Lemma get_string_from (l : string) (i k : nat) :
  String.get k (string_from i l) = String.get (i + k) l.
Proof.
  revert l. induction i as [|i IH]; intros l; [done|].
  destruct l as [|a l]; simpl; [by destruct k|]. apply IH.
Qed.

Lemma length_string_from (l : string) (i : nat) :
  String.length (string_from i l) = (String.length l - i)%nat.
Proof.
  revert l. induction i as [|i IH]; intros l; simpl; [lia|].
  destruct l as [|a l]; simpl; [done|]. apply IH.
Qed.

Lemma string_from_split (l : string) (i : nat) :
  (i ≤ String.length l)%nat →
  ∃ pre, l = pre +:+ string_from i l ∧ String.length pre = i.
Proof.
  revert l. induction i as [|i IH]; intros l Hi.
  - by exists EmptyString.
  - destruct l as [|a l]; simpl in Hi; [lia|].
    destruct (IH l ltac:(lia)) as (pre & Hl & Hlen).
    exists (String a pre). simpl. rewrite append_cons. split; [by f_equal|by f_equal].
Qed.

Lemma separator_at_string_from (l : string) (i k : nat) :
  separator_at (string_from i l) k = separator_at l (i + k).
Proof. unfold separator_at, char_at. by rewrite get_string_from. Qed.

(** What a positive answer of [str_in_strlist] says about the first
    occurrence. *)
Lemma str_in_strlist_true (l s : string) :
  str_in_strlist l s = true →
  ∃ i, strstr l s = Some i
       ∧ (i = 0%nat ∨ separator_at l (i - 1) = true)
       ∧ (String.length s = String.length (string_from i l)
          ∨ separator_at (string_from i l) (String.length s) = true).
Proof.
  unfold str_in_strlist. destruct (strstr l s) as [i|] eqn:E; [|done].
  intros H. apply andb_true_iff in H as [H1 H2].
  exists i. split; [done|]. split.
  - apply orb_true_iff in H1 as [H1|H1]; [left; by apply Nat.eqb_eq in H1|by right].
  - apply strstr_string_from in E as [_ Hi].
    apply orb_true_iff in H2 as [H2|H2].
    + left. apply Nat.eqb_eq in H2. rewrite length_string_from. lia.
    + right. by rewrite separator_at_string_from.
Qed.

Lemma get_app_length (pre s : string) (k : nat) :
  String.get (String.length pre + k) (pre +:+ s) = String.get k s.
Proof.
  rewrite Nat.add_comm. symmetry. apply String.append_correct2.
Qed.

Lemma length_append (s t : string) :
  String.length (s +:+ t) = (String.length s + String.length t)%nat.
Proof. induction s as [|a s IH]; [done|]. rewrite append_cons. simpl. by rewrite IH. Qed.

Lemma string_snoc (s : string) :
  s ≠ EmptyString →
  ∃ p c, s = p +:+ String c EmptyString
         ∧ String.get (String.length s - 1) s = Some c.
Proof.
  induction s as [|a s IH]; [done|]. intros _.
  destruct s as [|b s].
  - exists EmptyString, a. done.
  - destruct IH as (p & c & Hp & Hc); [done|].
    exists (String a p), c. rewrite append_cons, <- Hp. split; [done|].
    simpl in *. by rewrite Nat.sub_0_r in Hc.
Qed.

(** X20.  [str_in_strlist] answers 1 only if [str] occurs in [strlist]
    as a whole item: with the start of the list, a blank or a comma
    before it, and the end of the list, a blank or a comma after it. *)
Theorem str_in_strlist_finds_whole_items (strlist str : string) :
  str_in_strlist strlist str = true →
  ∃ before after,
    strlist = before +:+ str +:+ after
    ∧ (before = EmptyString
       ∨ ∃ p c, before = p +:+ String c EmptyString ∧ is_separator c = true)
    ∧ (after = EmptyString
       ∨ ∃ c q, after = String c q ∧ is_separator c = true).
Proof.
  intros H. apply str_in_strlist_true in H as (i & Hi & H1 & H2).
  apply strstr_string_from in Hi as [Hp Hi].
  destruct (string_from_split strlist i Hi) as (pre & Hl & Hlen).
  remember (string_from i strlist) as rest eqn:Hrest. clear Hrest.
  apply prefix_split in Hp as [post Hpost].
  exists pre, post. split; [by rewrite <- Hpost|]. split.
  - destruct H1 as [->|H1]; [left; by destruct pre|].
    destruct (decide (pre = EmptyString)) as [->|Hne]; [by left|]. right.
    destruct (string_snoc pre Hne) as (p & c & Hp & Hc).
    exists p, c. split; [done|].
    unfold separator_at, char_at in H1. rewrite Hl in H1.
    rewrite <- Hlen in H1.
    rewrite <- (String.append_correct1 pre rest) in H1
      by (destruct pre; [done|simpl; lia]).
    by rewrite Hc in H1.
  - rewrite Hpost in H2. destruct H2 as [H2|H2].
    + left. rewrite length_append in H2. destruct post; [done|simpl in H2; lia].
    + right. unfold separator_at, char_at in H2.
      replace (String.length str) with (String.length str + 0)%nat in H2 by lia.
      rewrite get_app_length in H2.
      destruct post as [|c q]; [done|]. by exists c, q.
Qed.

Lemma separator_free_get (s : string) (k : nat) (x : ascii) :
  separator_free s = true → String.get k s = Some x → is_separator x = false.
Proof.
  revert k. induction s as [|a s IH]; intros k Hs Hk; [done|].
  simpl in Hs. apply andb_true_iff in Hs as [Ha Hs].
  destruct k as [|k]; simpl in Hk.
  - injection Hk as <-. by apply negb_true_iff in Ha.
  - by apply (IH k).
Qed.

Lemma prefix_append (s t : string) : String.prefix s (s +:+ t) = true.
Proof. apply prefix_split. by exists t. Qed.

Lemma strstr_prefix (l s : string) :
  String.prefix s l = true → strstr l s = Some 0%nat.
Proof. intros H. destruct l; cbn [strstr]; by rewrite H. Qed.

(** X21.  Only the first occurrence of [str] is looked at: an item of
    the list is not found when the same text occurs earlier inside a
    longer item. *)
Theorem str_in_strlist_misses_later_item (c : ascii) (str : string) :
  is_separator c = false → separator_free str = true → str ≠ EmptyString →
  str_in_strlist (String c str +:+ "," +:+ str) str = false.
Proof.
  intros Hc Hs Hne. rewrite append_cons. unfold str_in_strlist. cbn [strstr].
  destruct (String.prefix str (String c (str +:+ "," +:+ str))) eqn:E.
  - cbn [orb andb Nat.eqb Nat.add]. apply orb_false_iff. split.
    + apply Nat.eqb_neq. simpl. rewrite length_append. simpl. lia.
    + unfold separator_at, char_at.
      destruct str as [|a str]; [done|].
      change (String.length (String a str)) with (S (String.length str)).
      cbn [String.get].
      rewrite <- (String.append_correct1 (String a str))
        by (simpl; lia).
      destruct (String.get (String.length str) (String a str)) as [x|] eqn:Hx; [|done].
      by apply (separator_free_get (String a str) (String.length str)).
  - rewrite (strstr_prefix _ _ (prefix_append str _)). cbn [fmap option_fmap option_map].
    cbn [Nat.eqb orb]. unfold separator_at, char_at. cbn [Nat.sub String.get].
    by rewrite Hc.
Qed.

Lemma str_in_strlist_misses_later_item_witness :
  is_separator "x" = false ∧ separator_free "lte-cinr" = true
  ∧ "lte-cinr" ≠ EmptyString
  ∧ str_in_strlist "xlte-cinr,lte-cinr" "lte-cinr" = false.
Proof.
  split_and!; [reflexivity|reflexivity|done|].
  apply (str_in_strlist_misses_later_item "x" "lte-cinr"); [reflexivity|reflexivity|done].
Defined.

Lemma str_in_strlist_finds_whole_items_witness :
  str_in_strlist GENERATE_LTE "lte-cinr" = true
  ∧ ∃ before after,
      GENERATE_LTE = before +:+ "lte-cinr" +:+ after
      ∧ (before = EmptyString
         ∨ ∃ p c, before = p +:+ String c EmptyString ∧ is_separator c = true)
      ∧ (after = EmptyString
         ∨ ∃ c q, after = String c q ∧ is_separator c = true).
Proof.
  split; [reflexivity|].
  apply (str_in_strlist_finds_whole_items GENERATE_LTE "lte-cinr"). reflexivity.
Defined.

(** X22.  Each of the eleven values of the option [generate] selects its
    own output: the tests of lines 900-922, read in their order, take
    the value to the branch that carries its name. *)
Theorem every_generate_value_selects_its_output (g : generate) :
  select_output "gaussian" (generate_name g) = Done g.
Proof. destruct g as [| | | |[]]; reflexivity. Qed.


Lemma delimited_is_first_item (gen : string) :
  ∀ s, separator_free gen = true → String.prefix gen s = true →
    (String.length gen = String.length s
     ∨ separator_at s (String.length gen) = true) →
    gen = first_item s.
Proof.
  induction gen as [|g gen IH]; intros s Hf Hp Hend.
  - destruct s as [|a s]; [done|]. simpl.
    destruct Hend as [Hend|Hend]; [done|].
    unfold separator_at, char_at in Hend. simpl in Hend. by rewrite Hend.
  - destruct s as [|a s]; [done|]. simpl in Hp.
    destruct (Ascii.ascii_dec g a) as [<-|]; [|done].
    simpl in Hf. apply andb_true_iff in Hf as [Hg Hf].
    apply negb_true_iff in Hg. simpl. rewrite Hg. f_equal.
    apply IH; [done|done|].
    destruct Hend as [Hend|Hend]; [left; simpl in Hend; lia|by right].
Qed.

Lemma generate_lte_items (gen : string) :
  separator_free gen = true → str_in_strlist GENERATE_LTE gen = true →
  gen ∈ ["lte-rssi"; "lte-rsrp"; "lte-rsrq"; "lte-cinr"; "lte-maxspecteff";
         "lte-maxthrput"; "lte-interfere"].
Proof.
  intros Hf H. apply str_in_strlist_true in H as (i & Hi & H1 & H2).
  apply strstr_string_from in Hi as [Hp Hi].
  pose proof (delimited_is_first_item gen (string_from i GENERATE_LTE) Hf Hp H2) as Hg.
  clear Hp H2 Hf.
  do 80 (destruct i as [|i];
         [first [ by (destruct H1 as [H1|H1]; [discriminate H1|vm_compute in H1; discriminate H1])
                | (vm_compute in Hg; subst gen; rewrite !elem_of_cons; tauto) ]|]).
  exfalso. vm_compute in Hi. lia.
Qed.

(** X23.  For a value of [generate] without blank or comma the choice
    of the output never ends in the internal error about the output
    flag: it selects an output, an LTE output only for the exact name of
    that output, or it stops with the message that the value is not
    supported. *)
Theorem select_output_of_one_item (gen : string) :
  separator_free gen = true →
  match select_output "gaussian" gen with
  | Done g => ∀ o, g = lte o → gen = generate_name g
  | Fatal msg => msg = "'Generate' type not supported <" +:+ gen +:+ "> (internal error)"
  end.
Proof.
  intros Hf. unfold select_output.
  destruct (strstr "rss-max" gen); [done|].
  destruct (strstr "coverage" gen); [done|].
  destruct (strstr "rss-sum" gen); [done|].
  destruct (strstr "rss-maxix" gen); [done|].
  destruct (str_in_strlist GENERATE_LTE gen) eqn:E; [|done].
  apply (generate_lte_items gen Hf) in E.
  rewrite !elem_of_cons, elem_of_nil in E.
  destruct E as [->|[->|[->|[->|[->|[->|[->|[]]]]]]]]; by intros o _.
Qed.

Lemma select_output_of_one_item_witness :
  separator_free "lte-maxthrput" = true
  ∧ ∀ o, lte lte_maxthrput = lte o → "lte-maxthrput" = generate_name (lte lte_maxthrput).
Proof.
  split; [reflexivity|].
  exact (select_output_of_one_item "lte-maxthrput" eq_refl).
Defined.

(** ** The lines of the cell_input file *)

Lemma last_char_newline (s : string) : last_char (s +:+ newline) = Some (Ascii.ascii_of_nat 10).
Proof.
  unfold last_char. induction s as [|a s IH]; [done|].
  rewrite append_cons. simpl. rewrite Nat.sub_0_r.
  destruct (s +:+ newline) eqn:E; [by destruct s|].
  simpl in IH. by rewrite Nat.sub_0_r in IH.
Qed.

Lemma set_last_char_newline (c : ascii) (s : string) :
  set_last_char c (s +:+ newline) = s +:+ String c EmptyString.
Proof.
  induction s as [|a s IH]; [done|].
  rewrite !append_cons. simpl. rewrite IH.
  destruct (s +:+ newline) eqn:E; [by destruct s|done].
Qed.

Lemma cut_at_semicolon_field (f s : string) :
  semicolon_free f = true → cut_at_semicolon (f +:+ ";" +:+ s) = Some (f, s).
Proof.
  induction f as [|a f IH]; intros Hf; [done|].
  simpl in Hf. apply andb_true_iff in Hf as [Ha Hf]. apply negb_true_iff in Ha.
  rewrite append_cons. simpl. rewrite Ha, (IH Hf). done.
Qed.

Lemma cell_input_params_fields (fields : list string) :
  ∀ n, Forall (λ f, semicolon_free f = true) fields →
    cell_input_params n (foldr (λ f s, f +:+ ";" +:+ s) EmptyString fields)
    = take n fields.
Proof.
  induction fields as [|f fields IH]; intros n Hf.
  - destruct n; done.
  - apply Forall_cons_1 in Hf as [Hf Hfs]. destruct n as [|n]; [done|].
    simpl. rewrite cut_at_semicolon_field by done. by rewrite IH.
Qed.

Lemma separated_by_semicolon (fields : list string) :
  fields ≠ [] →
  separated_by ";" fields +:+ ";" = foldr (λ f s, f +:+ ";" +:+ s) EmptyString fields.
Proof.
  induction fields as [|f fields IH]; [done|]. intros _.
  destruct fields as [|f' fields]; [done|].
  change (separated_by ";" (f :: f' :: fields))
    with (f +:+ ";" +:+ separated_by ";" (f' :: fields)).
  rewrite !append_assoc, IH by done. done.
Qed.

Lemma separated_by_foldl (sep : string) (l : list string) (p : string) :
  foldl (λ s q, s +:+ sep +:+ q) p l = separated_by sep (p :: l).
Proof.
  assert (∀ l acc p, foldl (λ s q, s +:+ sep +:+ q) (acc +:+ p) l
                     = acc +:+ separated_by sep (p :: l)) as H.
  { clear. induction l as [|q l IH]; intros acc p; [done|].
    cbn [foldl]. rewrite <- !append_assoc, (append_assoc acc p sep).
    rewrite <- (append_assoc acc), IH.
    change (separated_by sep (p :: q :: l)) with (p +:+ sep +:+ separated_by sep (q :: l)).
    by rewrite !append_assoc. }
  apply (H l EmptyString p).
Qed.

Lemma model_name_len_fits (l : list string) (p : string) :
  foldl (λ n q, (n + (String.length q + 1))%nat) 0%nat (p :: l)
  = S (String.length (separated_by "_" (p :: l))).
Proof.
  assert (∀ l n, foldl (λ n q, (n + (String.length q + 1))%nat) n l
                 = (n + foldl (λ n q, (n + (String.length q + 1))%nat) 0 l)%nat) as Hacc.
  { clear. induction l as [|q l IH]; intros n; simpl; [lia|].
    rewrite IH, (IH (String.length q + 1)%nat). lia. }
  assert (∀ p l, foldl (λ n q, (n + (String.length q + 1))%nat) 0%nat (p :: l)
                 = (String.length p + 1
                    + foldl (λ n q, (n + (String.length q + 1))%nat) 0 l)%nat) as Hcons.
  { intros p' l'. cbn [foldl]. rewrite Hacc. lia. }
  revert p. induction l as [|q l IH]; intros p.
  - simpl. lia.
  - change (separated_by "_" (p :: q :: l)) with (p +:+ "_" +:+ separated_by "_" (q :: l)).
    rewrite !length_append, Hcons, IH. simpl. lia.
Qed.

Section CellInputLemmas.

Variable atoi : string → Z.
Variable atof : string → Z.

Lemma store_cell_data_params (buffer : string) (d : cell_data) :
  store_cell_data atoi atof buffer = Done d →
  ∃ p l, drop 4 (cell_input_params CELL_INPUT_PARAMS_MAX (set_last_char ";" buffer)) = p :: l
         ∧ cd_model_name d = separated_by "_" (p :: l)
         ∧ cd_model_name_len d = S (String.length (separated_by "_" (p :: l))).
Proof.
  unfold store_cell_data. destruct (negb _); [done|]. cbv zeta.
  remember (cell_input_params CELL_INPUT_PARAMS_MAX (set_last_char ";" buffer)) as ps.
  destruct (Nat.ltb_spec (length ps) 5) as [|Hlen]; [done|].
  intros [= <-]. cbn [cd_model_name cd_model_name_len].
  destruct ps as [|p0 [|p1 [|p2 [|p3 [|p4 ps]]]]]; simpl in Hlen; try lia.
  exists p4, ps. cbn [drop]. split; [done|]. split.
  - apply separated_by_foldl.
  - apply model_name_len_fits.
Qed.

(** X24.  The memory asked for the model name of a line is the length
    of the name plus one, the room of its closing zero: [strcpy] and
    [strcat] of lines 734-740 stay inside it. *)
Theorem model_name_fits_its_allocation (buffer : string) (d : cell_data) :
  store_cell_data atoi atof buffer = Done d →
  cd_model_name_len d = (String.length (cd_model_name d) + 1)%nat.
Proof.
  intros H. apply store_cell_data_params in H as (p & l & _ & -> & ->). lia.
Qed.

(** X25.  A line of fields without semicolon, line feed or zero
    character, written with semicolons between them and a line feed at
    the end, and short enough for the buffer of 250 characters that
    [fgets] fills (249 characters and the closing zero), is read back
    field by field: fewer than five fields stop the run; otherwise the
    first four
    are the cell name, the antenna number, the raster and the transmit
    power, and the fields from the fifth to the twentieth, joined with
    underscores, are the model name.  Fields after the twentieth are
    dropped. *)
Theorem cell_input_line_read_back (fields : list string) :
  fields ≠ [] → Forall (λ f, semicolon_free f = true) fields →
  Forall (λ f, line_feed_free f = true) fields →
  (String.length (separated_by ";" fields +:+ newline) < 250)%nat →
  store_cell_data atoi atof (separated_by ";" fields +:+ newline)
  = if (length fields <? 5)%nat
    then Fatal "Number of parameters in a line of the cell_input file is too small (should be >=5)"
    else
      let kept := take CELL_INPUT_PARAMS_MAX fields in
      Done (CellData (kept !!! 0%nat) (atoi (kept !!! 1%nat)) (kept !!! 2%nat)
              (atof (kept !!! 3%nat)) (separated_by "_" (drop 4 kept))
              (S (String.length (separated_by "_" (drop 4 kept))))).
Proof.
  intros Hne Hf _ _. unfold store_cell_data.
  rewrite last_char_newline. rewrite bool_decide_eq_true_2 by done. cbn [negb]. cbv zeta.
  rewrite set_last_char_newline, separated_by_semicolon by done.
  rewrite cell_input_params_fields by done.
  rewrite length_take. unfold CELL_INPUT_PARAMS_MAX.
  destruct (Nat.ltb_spec (length fields) 5) as [Hlt|Hge].
  - rewrite (proj2 (Nat.ltb_lt _ _)) by lia. done.
  - rewrite (proj2 (Nat.ltb_ge _ _)) by lia.
    remember (take 20 fields) as kept eqn:Hk.
    assert (5 ≤ length kept)%nat as Hlen by (subst kept; rewrite length_take; lia).
    clear Hk.
    destruct kept as [|p0 [|p1 [|p2 [|p3 [|p4 ps]]]]]; simpl in Hlen; try lia.
    cbn [drop]. f_equal. f_equal.
    + apply separated_by_foldl.
    + apply model_name_len_fits.
Qed.

End CellInputLemmas.

Lemma model_name_fits_its_allocation_witness :
  let d := CellData "c1" 2 "map" 30 "hata_urban" 11 in
  store_cell_data (λ _, 2) (λ _, 30) ("c1;2;map;30;hata;urban" +:+ newline) = Done d
  ∧ cd_model_name_len d = (String.length (cd_model_name d) + 1)%nat.
Proof.
  split; [reflexivity|].
  apply (model_name_fits_its_allocation (λ _, 2) (λ _, 30)
           ("c1;2;map;30;hata;urban" +:+ newline)).
  reflexivity.
Defined.

Lemma cell_input_line_read_back_witness :
  ["c1"; "2"; "map"; "30"; "hata"; "urban"] ≠ []
  ∧ Forall (λ f, semicolon_free f = true) ["c1"; "2"; "map"; "30"; "hata"; "urban"]
  ∧ Forall (λ f, line_feed_free f = true) ["c1"; "2"; "map"; "30"; "hata"; "urban"]
  ∧ (String.length (separated_by ";" ["c1"; "2"; "map"; "30"; "hata"; "urban"] +:+ newline)
     < 250)%nat
  ∧ store_cell_data (λ _, 2) (λ _, 30)
      (separated_by ";" ["c1"; "2"; "map"; "30"; "hata"; "urban"] +:+ newline)
    = Done (CellData "c1" 2 "map" 30 "hata_urban" 11).
Proof.
  split; [done|]. split; [repeat constructor|]. split; [repeat constructor|].
  split; [vm_compute; lia|].
  apply (cell_input_line_read_back (λ _, 2) (λ _, 30)
           ["c1"; "2"; "map"; "30"; "hata"; "urban"]);
    [done|repeat constructor|repeat constructor|vm_compute; lia].
Defined.

(** ** From the sources to the table, the file and the raster *)

Section EndToEnd.

Variable DB_MIN_VAL : Z.
Variable printf_f2 : Z → string.
Variable sum_dBm : list Z → Z.
Variable PdBm2LteThroughput : lte_output → Z → Z → Z.


(** X27.  With [generate=rss-maxix], two or more slots and a negative
    no-data value, the cell of the output raster at a point holds the
    index, from 0, of the earliest source that has the strongest power
    there, when that power is above the threshold; otherwise it is
    null. *)
Theorem rss_maxix_cell_is_earliest_strongest_source
  (cfg : config) (K : nat) (srcs : list source) (row col : nat) :
  generate_of cfg = rss_maxix → DB_MIN_VAL < 0 →
  (2 ≤ K)%nat → (row < nrows cfg)%nat → (col < ncols cfg)%nat → srcs ≠ [] →
  let arr := columns (ingest DB_MIN_VAL K (nrows cfg) (ncols cfg) srcs) in
  ∃ cells (i : nat) (s : source),
    put (write_raster DB_MIN_VAL sum_dBm PdBm2LteThroughput cfg arr srcs) !! row
    = Some (RasterRow cells)
    ∧ srcs !! i = Some s
    ∧ (∀ j s', srcs !! j = Some s' →
         f_in_at DB_MIN_VAL s' row col < f_in_at DB_MIN_VAL s row col
         ∨ (f_in_at DB_MIN_VAL s' row col = f_in_at DB_MIN_VAL s row col ∧ (i ≤ j)%nat))
    ∧ cells !! col
      = Some (if bool_decide (rx_thresh cfg < f_in_at DB_MIN_VAL s row col)
              then Some (Z.of_nat i) else None).
Proof.
  intros Hg Hneg HK Hr Hc Hne arr.
  destruct (write_raster_cell DB_MIN_VAL sum_dBm PdBm2LteThroughput cfg arr srcs row col Hr Hc)
    as (cells & Hrow & Hlen & Hcell).
  pose proof (ingest_point DB_MIN_VAL K (nrows cfg) (ncols cfg) srcs row col Hr Hc
                ltac:(lia)) as Hcol.
  destruct (rank_readings_best_earliest K (readings_at DB_MIN_VAL srcs row col) HK)
    as [Hb Hall].
  { unfold readings_at. by destruct srcs. }
  rewrite <- Hcol in Hb, Hall. fold arr in Hb, Hall.
  change ((arr !!! (row * ncols cfg + col)%nat) !!! 0%nat)
    with (best_at arr (ncols cfg) row col) in Hb, Hall.
  remember (best_at arr (ncols cfg) row col) as b eqn:Hbest.
  unfold readings_at in Hb, Hall. rewrite list_lookup_fmap in Hb.
  destruct (srcs !! arr_index b) as [s|] eqn:Hs; [|done].
  simpl in Hb. injection Hb as Hb.
  exists cells, (arr_index b), s. split_and!; [done|done| |].
  - intros j s' Hs'. rewrite Hb. apply Hall. by rewrite list_lookup_fmap, Hs'.
  - rewrite Hcell. f_equal. unfold raster_cell, f_out. rewrite Hg, <- Hbest, Hb.
    cbn [out_raster coverage_f].
    destruct (Z.leb_spec (arr_power b) (rx_thresh cfg)).
    + rewrite bool_decide_eq_false_2; [done|lia].
    + rewrite bool_decide_eq_true_2 by lia.
      destruct (Z.leb_spec (Z.of_nat (arr_index b)) DB_MIN_VAL); [lia|done].
Qed.



End EndToEnd.


Lemma rss_maxix_cell_is_earliest_strongest_source_witness :
  let cfg := sample_cfg "mysql" 20 rss_maxix in
  generate_of cfg = rss_maxix ∧ -999 < 0 ∧ (2 ≤ 2)%nat
  ∧ (1 < nrows cfg)%nat ∧ (1 < ncols cfg)%nat ∧ sample_srcs ≠ []
  ∧ ∃ cells (i : nat) (s : source),
      put (write_raster (-999) sample_sum_dBm sample_lte cfg
             (columns (ingest (-999) 2 (nrows cfg) (ncols cfg) sample_srcs)) sample_srcs)
        !! 1%nat
      = Some (RasterRow cells)
      ∧ sample_srcs !! i = Some s
      ∧ (∀ j s', sample_srcs !! j = Some s' →
           f_in_at (-999) s' 1 1 < f_in_at (-999) s 1 1
           ∨ (f_in_at (-999) s' 1 1 = f_in_at (-999) s 1 1 ∧ (i ≤ j)%nat))
      ∧ cells !! 1%nat
        = Some (if bool_decide (rx_thresh cfg < f_in_at (-999) s 1 1)
                then Some (Z.of_nat i) else None).
Proof.
  split_and!; [reflexivity|lia|lia|simpl; lia|simpl; lia|done|].
  apply (rss_maxix_cell_is_earliest_strongest_source (-999) sample_sum_dBm sample_lte
           (sample_cfg "mysql" 20 rss_maxix) 2 sample_srcs 1 1);
    [reflexivity|lia|lia|simpl; lia|simpl; lia|done].
Defined.


